(** * ReaDis: speech playback engine and PDF extraction pipeline

    A shallow embedding of
    - [src/hooks/useSpeechSynthesis.ts]: text chunking and the playback
      state machine of the [useSpeechSynthesis] hook;
    - [utils/blobUrlManager]: [BlobUrlManager];
    - [utils/fileCache]: [FileCache];
    - [utils/chunkedFileProcessor]: [ChunkedFileProcessor];
    - [src/workers/fileProcessor.worker.ts] and
      [hooks/useWorkerFileProcessor]: the PDF worker and its hook;
    - [src/hooks/useContentExtraction.ts]: [extractFromPDF] and
      [extractFromText];
    followed by the properties established about them. *)

From Stdlib Require Import ZArith NArith List Bool Lia String Ascii.
From Stdlib Require Import Numbers.DecimalString Sorting.Permutation.
From Stdlib Require Import QArith Qcanon.
Import ListNotations.
Open Scope Z_scope.

(* ================================================================== *)
(** * JavaScript strings *)
(* ================================================================== *)

(** A JavaScript string is a finite sequence of UTF-16 code units.  The
    operations below are the [String.prototype] methods the sources call,
    with the index clamping of the language specification written out. *)
Module Js.

Definition jsstring := list N.

(** A string literal of the source (ASCII only). *)
Definition lit (s : string) : jsstring :=
  map N_of_ascii (list_ascii_of_string s).

(** [s.length] *)
Definition len (s : jsstring) : Z := Z.of_nat (List.length s).

Definition eqb (a b : jsstring) : bool :=
  if list_eq_dec N.eq_dec a b then true else false.

(** WhiteSpace and LineTerminator code points, the ones [trim] strips. *)
Definition isWhiteSpace (c : N) : bool :=
  (((9 <=? c) && (c <=? 13)) || (c =? 32) || (c =? 160) || (c =? 5760)
   || ((8192 <=? c) && (c <=? 8202)) || (c =? 8232) || (c =? 8233)
   || (c =? 8239) || (c =? 8287) || (c =? 12288) || (c =? 65279))%N.

Fixpoint trimStart (s : jsstring) : jsstring :=
  match s with
  | [] => []
  | c :: s' => if isWhiteSpace c then trimStart s' else s
  end.

Definition trimEnd (s : jsstring) : jsstring := rev (trimStart (rev s)).

(** [s.trim()] *)
Definition trim (s : jsstring) : jsstring := trimEnd (trimStart s).

(** Relative index resolution shared by [slice] and [substring]-like
    methods: a negative index counts from the end. *)
Definition clampIndex (n i : Z) : Z :=
  if i <? 0 then Z.max (n + i) 0 else Z.min i n.

(** [s.slice(a, b)] *)
Definition slice (s : jsstring) (a b : Z) : jsstring :=
  let from := clampIndex (len s) a in
  let to := clampIndex (len s) b in
  firstn (Z.to_nat (to - from)) (skipn (Z.to_nat from) s).

(** [s.slice(a)] *)
Definition sliceFrom (s : jsstring) (a : Z) : jsstring := slice s a (len s).

(** [s.substring(0, n)] for a non-negative literal [n]. *)
Definition substring0 (s : jsstring) (n : nat) : jsstring := firstn n s.

Fixpoint lastIndexOf_scan (c : N) (s : jsstring) (i limit found : Z) : Z :=
  match s with
  | [] => found
  | x :: s' =>
      lastIndexOf_scan c s' (i + 1) limit
        (if (x =? c)%N && (i <=? limit) then i else found)
  end.

(** [s.lastIndexOf(c, position)] for a one-unit search string [c]: the
    greatest index [k <= max(position, 0)] with [s[k] = c], or [-1]. *)
Definition lastIndexOf (s : jsstring) (c : N) (position : Z) : Z :=
  lastIndexOf_scan c s 0 (Z.max position 0) (-1).

Fixpoint startsWith (s prefix : jsstring) : bool :=
  match prefix, s with
  | [], _ => true
  | _ :: _, [] => false
  | p :: prefix', x :: s' => (x =? p)%N && startsWith s' prefix'
  end.

(** [s.includes(needle)] *)
Fixpoint includes (s needle : jsstring) : bool :=
  startsWith s needle ||
  match s with
  | [] => false
  | _ :: s' => includes s' needle
  end.

(** [s.toLowerCase()] as far as ASCII code units go: the ASCII capitals,
    and the two other characters whose lower case holds an ASCII letter,
    U+212A KELVIN SIGN (['k']) and U+0130 (['i'] followed by U+0307).  Any
    other code unit is copied, where JavaScript may put other non-ASCII
    code units in its place; [includes] with an ASCII needle, the only use
    [handleError] makes of the result, gives the same answer on both. *)
Definition toLowerCase (s : jsstring) : jsstring :=
  flat_map (fun c => if (65 <=? c) && (c <=? 90) then [c + 32]
                     else if c =? 8490 then [107]
                     else if c =? 304 then [105; 775]
                     else [c])%N s.

(** [xs.join(sep)] *)
Fixpoint join (sep : jsstring) (xs : list jsstring) : jsstring :=
  match xs with
  | [] => []
  | [x] => x
  | x :: xs' => x ++ sep ++ join sep xs'
  end.

(** Template-literal rendering of a non-negative integer. *)
Definition ofZ (z : Z) : jsstring :=
  lit (NilEmpty.string_of_int (Z.to_int z)).

Definition DOT : N := 46.
Definition QUESTION : N := 63.
Definition EXCLAMATION : N := 33.
Definition SPACE : N := 32.
Definition NL : jsstring := [10%N].

End Js.

Import Js.

(* ================================================================== *)
(** * Text chunking: [chunkTextForSpeech] *)
(* ================================================================== *)

Module Chunker.

(** Body of the [while] loop, lines 59-77: where the chunk that starts at
    [currentIndex] ends.  [bestBreak > currentIndex + maxChunkSize * 0.5]
    is compared after doubling both sides, which is exact on integers. *)
Definition chunkEnd (text : jsstring) (maxChunkSize currentIndex : Z) : Z :=
  let chunkEnd := Z.min (currentIndex + maxChunkSize) (len text) in
  if chunkEnd <? len text then
    let sentenceBreak := lastIndexOf text DOT chunkEnd in
    let questionBreak := lastIndexOf text QUESTION chunkEnd in
    let exclamationBreak := lastIndexOf text EXCLAMATION chunkEnd in
    let bestBreak := Z.max (Z.max sentenceBreak questionBreak) exclamationBreak in
    if 2 * bestBreak >? 2 * currentIndex + maxChunkSize then bestBreak + 1
    else
      let wordBreak := lastIndexOf text SPACE chunkEnd in
      if 2 * wordBreak >? 2 * currentIndex + maxChunkSize then wordBreak
      else chunkEnd
  else chunkEnd.

(** The [while (currentIndex < text.length)] loop; the result lists the
    pushed chunks in push order.  [None] when the fuel runs out. *)
Fixpoint chunkLoop (fuel : nat) (text : jsstring) (maxChunkSize currentIndex : Z)
  : option (list jsstring) :=
  if currentIndex <? len text then
    match fuel with
    | O => None
    | S fuel' =>
        let e := chunkEnd text maxChunkSize currentIndex in
        option_map (cons (trim (slice text currentIndex e)))
                   (chunkLoop fuel' text maxChunkSize e)
    end
  else Some [].

Definition chunkTextForSpeech (text : jsstring) (maxChunkSize : Z)
  : option (list jsstring) :=
  if len text <=? maxChunkSize then Some [text]
  else
    option_map (filter (fun chunk => 0 <? len chunk))
               (chunkLoop (List.length text) text maxChunkSize 0).

(** The default argument [maxChunkSize = 32000]. *)
Definition defaultMaxChunkSize : Z := 32000.

(** [chunkTextForSpeech(text)] as [startReading] calls it.  The default
    branch is never taken, see [chunkTextForSpeechDefault_eq]. *)
Definition chunkTextForSpeechDefault (text : jsstring) : list jsstring :=
  match chunkTextForSpeech text defaultMaxChunkSize with
  | Some chunks => chunks
  | None => []
  end.

(** The characters of a string that are not white space, in order. *)
Definition nonWhite (s : jsstring) : jsstring :=
  filter (fun c => negb (isWhiteSpace c)) s.

Definition allWhite (s : jsstring) : Prop := forallb isWhiteSpace s = true.

(** The string holds a character that is not white space. *)
Definition hasText (s : jsstring) : bool :=
  existsb (fun c => negb (isWhiteSpace c)) s.

(** [Stitched chunks text]: [text] is the chunks in order, with a run of
    white space (possibly empty) before the first, between consecutive
    ones and after the last. *)
Inductive Stitched : list jsstring -> jsstring -> Prop :=
| Stitched_end (gap : jsstring) :
    allWhite gap -> Stitched [] gap
| Stitched_chunk (gap chunk : jsstring) (chunks : list jsstring) (rest : jsstring) :
    allWhite gap -> Stitched chunks rest ->
    Stitched (chunk :: chunks) (gap ++ chunk ++ rest).

End Chunker.

Import Chunker.

(* ================================================================== *)
(** * The playback state machine of [useSpeechSynthesis] *)
(* ================================================================== *)

Module Speech.

(** The two attributes of a [SpeechSynthesisVoice] the hook reads.  Voice
    objects are compared by their attributes. *)
Record Voice := { voiceName : jsstring; voiceLang : jsstring }.

Record SpeechSettings := {
  rate : Qc;
  pitch : Qc;
  volume : Qc;
  voice : option Voice
}.

(** [Partial<SpeechSettings>]: a key is absent ([None]) or present; a
    present [voice] key may hold [undefined]. *)
Record PartialSettings := {
  newRate : option Qc;
  newPitch : option Qc;
  newVolume : option Qc;
  newVoice : option (option Voice)
}.

Record ReadingSession := {
  content : jsstring;
  currentPosition : Z;
  isPlaying : bool;
  isPaused : bool;
  totalCharacters : Z
}.

(** A [SpeechSynthesisUtterance] as [speakNextChunk] configures it. *)
Record Utterance := {
  uText : jsstring;
  uRate : Qc;
  uPitch : Qc;
  uVolume : Qc;
  uLang : option jsstring;
  uVoice : option Voice
}.

(** Calls issued to the global [speechSynthesis] object. *)
Inductive SynthCall :=
| Cancel
| Pause
| Speak (u : Utterance).

(** The React state and refs of the hook, together with the log of
    [cancel], [pause] and [speak] calls made on [speechSynthesis] (oldest
    first). *)
Record Hook := {
  session : ReadingSession;
  settings : SpeechSettings;
  availableVoices : list Voice;
  utteranceRef : option Utterance;
  chunksRef : list jsstring;
  currentChunkIndexRef : nat;
  accumulatedCharactersRef : Z;
  isChunkedPlaybackRef : bool;
  isStoppingRef : bool;
  lastCancelAtRef : Z;
  actionLockRef : bool;
  synth : list SynthCall
}.

Definition setSession (f : ReadingSession -> ReadingSession) (h : Hook) : Hook :=
  {| session := f (session h); settings := settings h;
     availableVoices := availableVoices h;
     utteranceRef := utteranceRef h; chunksRef := chunksRef h;
     currentChunkIndexRef := currentChunkIndexRef h;
     accumulatedCharactersRef := accumulatedCharactersRef h;
     isChunkedPlaybackRef := isChunkedPlaybackRef h;
     isStoppingRef := isStoppingRef h; lastCancelAtRef := lastCancelAtRef h;
     actionLockRef := actionLockRef h; synth := synth h |}.

Definition setSettings (f : SpeechSettings -> SpeechSettings) (h : Hook) : Hook :=
  {| session := session h; settings := f (settings h);
     availableVoices := availableVoices h;
     utteranceRef := utteranceRef h; chunksRef := chunksRef h;
     currentChunkIndexRef := currentChunkIndexRef h;
     accumulatedCharactersRef := accumulatedCharactersRef h;
     isChunkedPlaybackRef := isChunkedPlaybackRef h;
     isStoppingRef := isStoppingRef h; lastCancelAtRef := lastCancelAtRef h;
     actionLockRef := actionLockRef h; synth := synth h |}.

Definition setAvailableVoices (voices : list Voice) (h : Hook) : Hook :=
  {| session := session h; settings := settings h;
     availableVoices := voices;
     utteranceRef := utteranceRef h; chunksRef := chunksRef h;
     currentChunkIndexRef := currentChunkIndexRef h;
     accumulatedCharactersRef := accumulatedCharactersRef h;
     isChunkedPlaybackRef := isChunkedPlaybackRef h;
     isStoppingRef := isStoppingRef h; lastCancelAtRef := lastCancelAtRef h;
     actionLockRef := actionLockRef h; synth := synth h |}.

Definition setUtteranceRef (u : option Utterance) (h : Hook) : Hook :=
  {| session := session h; settings := settings h;
     availableVoices := availableVoices h;
     utteranceRef := u; chunksRef := chunksRef h;
     currentChunkIndexRef := currentChunkIndexRef h;
     accumulatedCharactersRef := accumulatedCharactersRef h;
     isChunkedPlaybackRef := isChunkedPlaybackRef h;
     isStoppingRef := isStoppingRef h; lastCancelAtRef := lastCancelAtRef h;
     actionLockRef := actionLockRef h; synth := synth h |}.

Definition setChunksRef (cs : list jsstring) (h : Hook) : Hook :=
  {| session := session h; settings := settings h;
     availableVoices := availableVoices h;
     utteranceRef := utteranceRef h; chunksRef := cs;
     currentChunkIndexRef := currentChunkIndexRef h;
     accumulatedCharactersRef := accumulatedCharactersRef h;
     isChunkedPlaybackRef := isChunkedPlaybackRef h;
     isStoppingRef := isStoppingRef h; lastCancelAtRef := lastCancelAtRef h;
     actionLockRef := actionLockRef h; synth := synth h |}.

Definition setCurrentChunkIndexRef (i : nat) (h : Hook) : Hook :=
  {| session := session h; settings := settings h;
     availableVoices := availableVoices h;
     utteranceRef := utteranceRef h; chunksRef := chunksRef h;
     currentChunkIndexRef := i;
     accumulatedCharactersRef := accumulatedCharactersRef h;
     isChunkedPlaybackRef := isChunkedPlaybackRef h;
     isStoppingRef := isStoppingRef h; lastCancelAtRef := lastCancelAtRef h;
     actionLockRef := actionLockRef h; synth := synth h |}.

Definition setAccumulatedCharactersRef (a : Z) (h : Hook) : Hook :=
  {| session := session h; settings := settings h;
     availableVoices := availableVoices h;
     utteranceRef := utteranceRef h; chunksRef := chunksRef h;
     currentChunkIndexRef := currentChunkIndexRef h;
     accumulatedCharactersRef := a;
     isChunkedPlaybackRef := isChunkedPlaybackRef h;
     isStoppingRef := isStoppingRef h; lastCancelAtRef := lastCancelAtRef h;
     actionLockRef := actionLockRef h; synth := synth h |}.

Definition setIsChunkedPlaybackRef (b : bool) (h : Hook) : Hook :=
  {| session := session h; settings := settings h;
     availableVoices := availableVoices h;
     utteranceRef := utteranceRef h; chunksRef := chunksRef h;
     currentChunkIndexRef := currentChunkIndexRef h;
     accumulatedCharactersRef := accumulatedCharactersRef h;
     isChunkedPlaybackRef := b;
     isStoppingRef := isStoppingRef h; lastCancelAtRef := lastCancelAtRef h;
     actionLockRef := actionLockRef h; synth := synth h |}.

Definition setIsStoppingRef (b : bool) (h : Hook) : Hook :=
  {| session := session h; settings := settings h;
     availableVoices := availableVoices h;
     utteranceRef := utteranceRef h; chunksRef := chunksRef h;
     currentChunkIndexRef := currentChunkIndexRef h;
     accumulatedCharactersRef := accumulatedCharactersRef h;
     isChunkedPlaybackRef := isChunkedPlaybackRef h;
     isStoppingRef := b; lastCancelAtRef := lastCancelAtRef h;
     actionLockRef := actionLockRef h; synth := synth h |}.

Definition setLastCancelAtRef (t : Z) (h : Hook) : Hook :=
  {| session := session h; settings := settings h;
     availableVoices := availableVoices h;
     utteranceRef := utteranceRef h; chunksRef := chunksRef h;
     currentChunkIndexRef := currentChunkIndexRef h;
     accumulatedCharactersRef := accumulatedCharactersRef h;
     isChunkedPlaybackRef := isChunkedPlaybackRef h;
     isStoppingRef := isStoppingRef h; lastCancelAtRef := t;
     actionLockRef := actionLockRef h; synth := synth h |}.

Definition setActionLockRef (b : bool) (h : Hook) : Hook :=
  {| session := session h; settings := settings h;
     availableVoices := availableVoices h;
     utteranceRef := utteranceRef h; chunksRef := chunksRef h;
     currentChunkIndexRef := currentChunkIndexRef h;
     accumulatedCharactersRef := accumulatedCharactersRef h;
     isChunkedPlaybackRef := isChunkedPlaybackRef h;
     isStoppingRef := isStoppingRef h; lastCancelAtRef := lastCancelAtRef h;
     actionLockRef := b; synth := synth h |}.

(** One call on [speechSynthesis]. *)
Definition call (c : SynthCall) (h : Hook) : Hook :=
  {| session := session h; settings := settings h;
     availableVoices := availableVoices h;
     utteranceRef := utteranceRef h; chunksRef := chunksRef h;
     currentChunkIndexRef := currentChunkIndexRef h;
     accumulatedCharactersRef := accumulatedCharactersRef h;
     isChunkedPlaybackRef := isChunkedPlaybackRef h;
     isStoppingRef := isStoppingRef h; lastCancelAtRef := lastCancelAtRef h;
     actionLockRef := actionLockRef h; synth := synth h ++ [c] |}.

(** The state of the first render. *)
Definition initial : Hook :=
  {| session := {| content := []; currentPosition := 0; isPlaying := false;
                   isPaused := false; totalCharacters := 0 |};
     settings := {| rate := 1; pitch := 1; volume := 1; voice := None |};
     availableVoices := [];
     utteranceRef := None; chunksRef := [];
     currentChunkIndexRef := 0%nat; accumulatedCharactersRef := 0;
     isChunkedPlaybackRef := false; isStoppingRef := false;
     lastCancelAtRef := 0; actionLockRef := false; synth := [] |}.

(** ** [speakNextChunk] and the callbacks of its utterance

    [cfg] is the [settings] value the closure was created with. *)

Definition mkUtterance (cfg : SpeechSettings) (chunk : jsstring) : Utterance :=
  {| uText := chunk; uRate := rate cfg; uPitch := pitch cfg;
     uVolume := volume cfg;
     uLang := match voice cfg with
              | Some v => match voiceLang v with
                          | [] => None
                          | _ :: _ => Some (voiceLang v)
                          end
              | None => None
              end;
     uVoice := voice cfg |}.

Definition speakNextChunk (cfg : SpeechSettings) (h : Hook) : Hook :=
  match nth_error (chunksRef h) (currentChunkIndexRef h) with
  | None =>
      (* currentChunkIndexRef.current >= chunksRef.current.length *)
      setIsChunkedPlaybackRef false
        (setSession (fun prev =>
           {| content := content prev;
              currentPosition := totalCharacters prev;
              isPlaying := false; isPaused := false;
              totalCharacters := totalCharacters prev |}) h)
  | Some chunk =>
      let utterance := mkUtterance cfg chunk in
      call (Speak utterance) (setUtteranceRef (Some utterance) h)
  end.

Inductive BoundaryName := Word | Sentence.

(** [utterance.onboundary] *)
Definition onboundary (name : BoundaryName) (charIndex : Z) (h : Hook) : Hook :=
  match name with
  | Word =>
      setSession (fun prev =>
        {| content := content prev;
           currentPosition := accumulatedCharactersRef h + charIndex;
           isPlaying := isPlaying prev; isPaused := isPaused prev;
           totalCharacters := totalCharacters prev |}) h
  | Sentence => h
  end.

(** [utterance.onend], up to the [setTimeout] call; [chunk] is the text of
    the utterance the handler belongs to. *)
Definition onend (chunk : jsstring) (h : Hook) : Hook :=
  setCurrentChunkIndexRef (S (currentChunkIndexRef h))
    (setAccumulatedCharactersRef (accumulatedCharactersRef h + len chunk) h).

(** The 50 ms timer set by [onend]. *)
Definition chunkTimer (cfg : SpeechSettings) (h : Hook) : Hook :=
  if isChunkedPlaybackRef h then speakNextChunk cfg h else h.

(** [utterance.onerror]; [now] is [Date.now()]. *)
Definition onerror (error : jsstring) (now : Z) (h : Hook) : Hook :=
  let recentlyCanceled := now - lastCancelAtRef h <? 1000 in
  if Js.eqb error (lit "interrupted") && (isStoppingRef h || recentlyCanceled) then
    setIsChunkedPlaybackRef false h
  else
    let h1 := setIsChunkedPlaybackRef false h in
    if negb (isStoppingRef h1) && negb recentlyCanceled then
      setSession (fun prev =>
        {| content := content prev; currentPosition := currentPosition prev;
           isPlaying := false; isPaused := false;
           totalCharacters := totalCharacters prev |}) h1
    else h1.

(** ** Transport operations *)

Definition startReading (cfg : SpeechSettings) (content0 : jsstring)
  (fromPosition : Z) (now : Z) (h : Hook) : Hook :=
  match content0 with
  | [] => h
  | _ :: _ =>
      let h := setIsStoppingRef false h in
      let h := call Cancel (setLastCancelAtRef now h) in
      let h := setIsChunkedPlaybackRef false h in
      let textToRead := sliceFrom content0 fromPosition in
      let chunks := chunkTextForSpeechDefault textToRead in
      let h := setChunksRef chunks h in
      let h := setCurrentChunkIndexRef 0%nat h in
      let h := setAccumulatedCharactersRef fromPosition h in
      let h := setIsChunkedPlaybackRef true h in
      let h := setSession (fun prev =>
                 {| content := content0; currentPosition := fromPosition;
                    isPlaying := true; isPaused := false;
                    totalCharacters := len content0 |}) h in
      speakNextChunk cfg h
  end.

Definition pauseReading (h : Hook) : Hook :=
  if actionLockRef h then h
  else
    let h := setActionLockRef true h in
    let h := call Pause h in
    let h := setIsChunkedPlaybackRef false h in
    setSession (fun prev =>
      {| content := content prev; currentPosition := currentPosition prev;
         isPlaying := false; isPaused := true;
         totalCharacters := totalCharacters prev |}) h.

(** The 120 ms fallback timer of [pauseReading]; [paused] and [speaking]
    are the values of [speechSynthesis.paused] and [.speaking]. *)
Definition pauseFallbackTimer (paused speaking : bool) (now : Z) (h : Hook) : Hook :=
  let h :=
    if negb paused && speaking then
      let h := setIsStoppingRef true h in
      let h := call Cancel (setLastCancelAtRef now h) in
      setIsStoppingRef false h
    else h in
  setActionLockRef false h.

(** Cancelling the current utterance, as [resumeReading] and the settings
    effect do before they restart. *)
Definition cancelForRestart (now : Z) (h : Hook) : Hook :=
  let h := setIsStoppingRef true h in
  let h := call Cancel (setLastCancelAtRef now h) in
  let h := setIsStoppingRef false h in
  setIsChunkedPlaybackRef false h.

Definition resumeReading (cfg : SpeechSettings) (now : Z) (h : Hook) : Hook :=
  if isPaused (session h) && (0 <? List.length (chunksRef h))%nat then
    if actionLockRef h then h
    else
      let h0 := setActionLockRef true h in
      let fromPosition := currentPosition (session h) in
      let content0 := content (session h) in
      let h1 := cancelForRestart now h0 in
      let h2 := startReading cfg content0 fromPosition now h1 in
      setSession (fun prev =>
        {| content := content prev; currentPosition := currentPosition prev;
           isPlaying := true; isPaused := false;
           totalCharacters := totalCharacters prev |}) h2
  else h.

(** The 120 ms timer of [resumeReading]. *)
Definition resumeUnlockTimer (h : Hook) : Hook := setActionLockRef false h.

Definition stopReading (now : Z) (h : Hook) : Hook :=
  let h := setIsStoppingRef true h in
  let h := call Cancel (setLastCancelAtRef now h) in
  let h := setIsChunkedPlaybackRef false h in
  let h := setChunksRef [] h in
  let h := setCurrentChunkIndexRef 0%nat h in
  let h := setAccumulatedCharactersRef 0 h in
  setSession (fun prev =>
    {| content := content prev; currentPosition := 0;
       isPlaying := false; isPaused := false;
       totalCharacters := totalCharacters prev |}) h.

(** The 500 ms timer of [stopReading]. *)
Definition stopResetTimer (h : Hook) : Hook := setIsStoppingRef false h.


(** ** Settings and the effects that depend on them *)

(** [{ ...prev, ...newSettings }] *)
Definition mergeSettings (prev : SpeechSettings) (newSettings : PartialSettings)
  : SpeechSettings :=
  {| rate := match newRate newSettings with Some r => r | None => rate prev end;
     pitch := match newPitch newSettings with Some p => p | None => pitch prev end;
     volume := match newVolume newSettings with Some v => v | None => volume prev end;
     voice := match newVoice newSettings with Some v => v | None => voice prev end |}.

Definition updateSettings (newSettings : PartialSettings) (h : Hook) : Hook :=
  setSettings (fun prev => mergeSettings prev newSettings) h.

Definition voiceEqb (a b : Voice) : bool :=
  Js.eqb (voiceName a) (voiceName b) && Js.eqb (voiceLang a) (voiceLang b).

(** Comparison of the dependency [settings.voice] between two renders. *)
Definition voiceDepSame (a b : option Voice) : bool :=
  match a, b with
  | Some x, Some y => voiceEqb x y
  | None, None => true
  | _, _ => false
  end.

(** Comparison of the dependency array
    [[settings.voice, settings.rate, settings.pitch, settings.volume]]. *)
Definition settingsDepsSame (a b : SpeechSettings) : bool :=
  voiceDepSame (voice a) (voice b) && Qc_eq_bool (rate a) (rate b)
  && Qc_eq_bool (pitch a) (pitch b) && Qc_eq_bool (volume a) (volume b).

(** [loadVoices], lines 31-40; [voices] is [speechSynthesis.getVoices()]
    and [cfg] the [settings] of the render that created the closure. *)
Definition loadVoices (voices : list Voice) (cfg : SpeechSettings) (h : Hook) : Hook :=
  let h := setAvailableVoices voices h in
  match find (fun v => startsWith (voiceLang v) (lit "en")) voices with
  | Some englishVoice =>
      match voice cfg with
      | None =>
          setSettings (fun prev =>
            {| rate := rate prev; pitch := pitch prev; volume := volume prev;
               voice := Some englishVoice |}) h
      | Some _ => h
      end
  | None => h
  end.

(** The effect of lines 273-287; [cfg] and [ses] are the [settings] and
    [session] of the render. *)
Definition settingsEffect (cfg : SpeechSettings) (ses : ReadingSession) (now : Z)
  (h : Hook) : Hook :=
  if isPlaying ses && negb (isPaused ses) then
    let fromPosition := currentPosition ses in
    let content0 := content ses in
    startReading cfg content0 fromPosition now (cancelForRestart now h)
  else h.

(** The effects that run after a render, in declaration order, each one
    only when one of its dependencies differs from the previous render's
    ([prev] holds the previous render's settings). *)
Definition commitEffects (voices : list Voice) (now : Z) (prev : SpeechSettings)
  (h : Hook) : Hook :=
  let cfg := settings h in
  let ses := session h in
  let h1 := if voiceDepSame (voice prev) (voice cfg) then h
            else loadVoices voices cfg h in
  if settingsDepsSame prev cfg then h1 else settingsEffect cfg ses now h1.

(** [updateSettings(newSettings)] followed by the renders it causes: the
    render of the new settings and the render of whatever state its
    effects set.  A further render runs no effect, see
    [commitEffects_stable]. *)
Definition updateSettingsAndRender (newSettings : PartialSettings)
  (voices : list Voice) (now1 now2 : Z) (h : Hook) : Hook :=
  let h0 := updateSettings newSettings h in
  let h1 := commitEffects voices now1 (settings h) h0 in
  commitEffects voices now2 (settings h0) h1.

(** The [voiceschanged] listener followed by the render it causes. *)
Definition voicesChanged (voices : list Voice) (now : Z) (h : Hook) : Hook :=
  commitEffects voices now (settings h) (loadVoices voices (settings h) h).

(** ** The engine as a transition system *)

(** What can happen to a mounted hook: a call of one of the returned
    functions, one of the timers they set, a browser event, or a callback
    of an utterance.  Calls of the returned functions use the closures of
    the latest render; an utterance's callbacks keep the [cfg] of the
    render that created them. *)
Inductive Event :=
| StartReading (content0 : jsstring) (fromPosition now : Z)
| PauseReading
| PauseFallbackTimer (paused speaking : bool) (now : Z)
| ResumeReading (now : Z)
| ResumeUnlockTimer
| StopReading (now : Z)
| StopResetTimer
| UpdateSettings (newSettings : PartialSettings) (voices : list Voice) (now1 now2 : Z)
| VoicesChanged (voices : list Voice) (now : Z)
| OnBoundary (name : BoundaryName) (charIndex : Z)
| OnEnd (chunk : jsstring)
| ChunkTimer (cfg : SpeechSettings)
| OnError (error : jsstring) (now : Z).

Definition step (e : Event) (h : Hook) : Hook :=
  match e with
  | StartReading content0 fromPosition now =>
      startReading (settings h) content0 fromPosition now h
  | PauseReading => pauseReading h
  | PauseFallbackTimer paused speaking now => pauseFallbackTimer paused speaking now h
  | ResumeReading now => resumeReading (settings h) now h
  | ResumeUnlockTimer => resumeUnlockTimer h
  | StopReading now => stopReading now h
  | StopResetTimer => stopResetTimer h
  | UpdateSettings newSettings voices now1 now2 =>
      updateSettingsAndRender newSettings voices now1 now2 h
  | VoicesChanged voices now => voicesChanged voices now h
  | OnBoundary name charIndex => onboundary name charIndex h
  | OnEnd chunk => onend chunk h
  | ChunkTimer cfg => chunkTimer cfg h
  | OnError error now => onerror error now h
  end.

Definition run (es : list Event) (h : Hook) : Hook :=
  fold_left (fun h e => step e h) es h.

(** An utterance-completion callback and the timer it sets. *)
Definition isCompletion (e : Event) : bool :=
  match e with
  | OnEnd _ | ChunkTimer _ => true
  | _ => false
  end.

(** What the [onend] callbacks among [es] add to the two cursors:
    [onend] increments [currentChunkIndexRef] and adds the length of its
    chunk to [accumulatedCharactersRef] before it sets the timer, whatever
    the chunked-playback flag says. *)
Fixpoint endedChunks (es : list Event) : nat :=
  match es with
  | [] => 0%nat
  | OnEnd _ :: es => S (endedChunks es)
  | _ :: es => endedChunks es
  end.

Fixpoint endedCharacters (es : list Event) : Z :=
  match es with
  | [] => 0
  | OnEnd chunk :: es => len chunk + endedCharacters es
  | _ :: es => endedCharacters es
  end.

(** No default voice is waiting to be filled in: the settings name a
    voice, or the browser offers no English voice. *)
Definition voiceSettled (voices : list Voice) (cfg : SpeechSettings) : bool :=
  match voice cfg, find (fun v => startsWith (voiceLang v) (lit "en")) voices with
  | None, Some _ => false
  | _, _ => true
  end.

(** Both flags are never set together. *)
Definition flagsExclusive (h : Hook) : bool :=
  negb (isPlaying (session h) && isPaused (session h)).

(** ** Uninterrupted playback *)

(** The word-boundary events of one utterance, fired in order; the result
    lists the value of [session.currentPosition] after each. *)
Fixpoint boundaries (charIndexes : list Z) (h : Hook) : Hook * list Z :=
  match charIndexes with
  | [] => (h, [])
  | i :: rest =>
      let h1 := onboundary Word i h in
      let (h2, seen) := boundaries rest h1 in
      (h2, currentPosition (session h1) :: seen)
  end.

(** Playback with no call from outside: for each utterance in turn the
    engine fires the word boundaries of [script], then [onend], then the
    50 ms timer fires.  The result lists [session.currentPosition] after
    every event. *)
Fixpoint playback (cfg : SpeechSettings) (script : list (list Z)) (h : Hook)
  : list Z :=
  match script with
  | [] => []
  | charIndexes :: rest =>
      match nth_error (chunksRef h) (currentChunkIndexRef h) with
      | None => []
      | Some chunk =>
          let (h1, seen) := boundaries charIndexes h in
          let h2 := onend chunk h1 in
          let h3 := chunkTimer cfg h2 in
          seen ++ currentPosition (session h2) :: currentPosition (session h3)
               :: playback cfg rest h3
      end
  end.

(** [nonDecreasingFrom lo l]: [l] never decreases and starts at [lo] or
    above. *)
Fixpoint nonDecreasingFrom (lo : Z) (l : list Z) : Prop :=
  match l with
  | [] => True
  | x :: rest => lo <= x /\ nonDecreasingFrom x rest
  end.

(** The word boundaries an engine may report for a chunk: character
    indexes into the chunk, in reading order. *)
Definition boundariesOf (chunk : jsstring) (charIndexes : list Z) : Prop :=
  nonDecreasingFrom 0 charIndexes /\ Forall (fun i => i <= len chunk) charIndexes.

(** The positions observed from a [startReading] call on. *)
Definition positionsFrom (cfg : SpeechSettings) (content0 : jsstring)
  (fromPosition now : Z) (script : list (list Z)) (h : Hook) : list Z :=
  let h0 := startReading cfg content0 fromPosition now h in
  currentPosition (session h0) :: playback cfg script h0.

(** ** Sample states *)

Definition englishVoice : Voice :=
  {| voiceName := lit "Alice"; voiceLang := lit "en-US" |}.

(** A hook that reads ['Hello world'] with [englishVoice] selected. *)
Definition playingHook : Hook :=
  startReading
    {| rate := 1; pitch := 1; volume := 1; voice := Some englishVoice |}
    (lit "Hello world") 0 0
    (setSettings (fun prev =>
       {| rate := rate prev; pitch := pitch prev; volume := volume prev;
          voice := Some englishVoice |}) initial).

(** [{ voice: undefined }], what the voice menu passes when no voice
    matches the selected name. *)
Definition noVoice : PartialSettings :=
  {| newRate := None; newPitch := None; newVolume := None; newVoice := Some None |}.

(** [{ rate: 2 }] *)
Definition doubleRate : PartialSettings :=
  {| newRate := Some (Q2Qc 2); newPitch := None; newVolume := None;
     newVoice := None |}.

End Speech.

(* ================================================================== *)
(** * JavaScript [Map] with string keys *)
(* ================================================================== *)

(** A [Map<string, V>] keeps its entries in insertion order; [set] on a
    key that is present replaces the value in place. *)
Module JsMap.

Section WithValue.
Context {V : Type}.

Definition t := list (jsstring * V).

Fixpoint get (m : t) (key : jsstring) : option V :=
  match m with
  | [] => None
  | (k, v) :: m' => if Js.eqb k key then Some v else get m' key
  end.

Definition has (m : t) (key : jsstring) : bool :=
  match get m key with Some _ => true | None => false end.

Fixpoint set (m : t) (key : jsstring) (v : V) : t :=
  match m with
  | [] => [(key, v)]
  | (k, x) :: m' =>
      if Js.eqb k key then (k, v) :: m' else (k, x) :: set m' key v
  end.

Fixpoint delete (m : t) (key : jsstring) : t :=
  match m with
  | [] => []
  | (k, x) :: m' => if Js.eqb k key then m' else (k, x) :: delete m' key
  end.

Definition keys (m : t) : list jsstring := map fst m.
Definition values (m : t) : list V := map snd m.
Definition size (m : t) : Z := Z.of_nat (List.length m).

End WithValue.

Arguments t : clear implicits.

End JsMap.

(* ================================================================== *)
(** * [BlobUrlManager]: reference-counted object URLs *)
(* ================================================================== *)

Module BlobUrlManager.

(** The [refs] map and, oldest first, the URLs handed to
    [URL.revokeObjectURL]. *)
Record t := {
  refs : JsMap.t Z;
  revoked : list jsstring
}.

Definition empty : t := {| refs := []; revoked := [] |}.

(** [isBlobUrl(url)]; [None] stands for [null] and [undefined]. *)
Definition isBlobUrl (url : option jsstring) : bool :=
  match url with
  | Some u => negb (Js.eqb u []) && startsWith u (lit "blob:")
  | None => false
  end.

Definition register (url : jsstring) (b : t) : t :=
  if negb (isBlobUrl (Some url)) then b
  else
    let count := match JsMap.get (refs b) url with Some c => c | None => 0 end in
    {| refs := JsMap.set (refs b) url (count + 1); revoked := revoked b |}.

Definition retain (url : jsstring) (b : t) : t := register url b.

Definition release (url : jsstring) (b : t) : t :=
  if negb (isBlobUrl (Some url)) then b
  else
    match JsMap.get (refs b) url with
    | None => b
    | Some count =>
        if count <=? 1 then
          {| refs := JsMap.delete (refs b) url; revoked := revoked b ++ [url] |}
        else
          {| refs := JsMap.set (refs b) url (count - 1); revoked := revoked b |}
    end.

Definition revoke (url : jsstring) (b : t) : t :=
  if negb (isBlobUrl (Some url)) then b
  else {| refs := JsMap.delete (refs b) url; revoked := revoked b ++ [url] |}.

Definition revokeAll (b : t) : t :=
  {| refs := []; revoked := revoked b ++ JsMap.keys (refs b) |}.

(** Every tracked URL has a count of at least one. *)
Definition countsPositive (b : t) : Prop :=
  Forall (fun e => 1 <= snd e) (refs b).

End BlobUrlManager.

(* ================================================================== *)
(** * Files *)
(* ================================================================== *)

Module Files.

(** The attributes of a [File] the sources read: [file.name],
    [file.size], [file.type], and the bytes [file.arrayBuffer()] resolves
    to ([arrayBuffer] is taken to resolve).  [size] is kept beside
    [bytes] because the code reads the two independently. *)
Record File := {
  name : jsstring;
  size : Z;
  type : jsstring;
  bytes : list N
}.

(** [1024 * 1024].  The sources compare [file.size / (1024 * 1024)] with
    integer constants; dividing by a power of two is exact, so the
    comparisons are made on bytes. *)
Definition MB : Z := 1024 * 1024.

End Files.

(* ================================================================== *)
(** * [FileCache] *)
(* ================================================================== *)

Module FileCache.

Import Files.

Inductive ProcessingMethod := standard | chunked | worker | serverSide | ocr.

Record Metadata := {
  totalPages : option Z;
  extractedImages : option Z;
  fileType : option jsstring
}.

(** [processingTime] is [None] when the caller passes [undefined]. *)
Record CacheEntry := {
  id : jsstring;
  fileName : jsstring;
  fileSize : Z;
  fileHash : jsstring;
  content : jsstring;
  processingMethod : ProcessingMethod;
  processingTime : option Qc;
  timestamp : Z;
  accessCount : Z;
  lastAccessed : Z;
  metadata : option Metadata
}.

(** The private fields of the class, and the ['fileCache'] item of
    [localStorage] ([None] when the item is absent). *)
Record t := {
  cache : JsMap.t CacheEntry;
  hits : Z;
  misses : Z;
  storage : option (list (jsstring * CacheEntry) * (Z * Z))
}.

Definition maxEntries : Z := 50.
Definition maxSizeBytes : Z := 100 * 1024 * 1024.

Definition withCache (m : JsMap.t CacheEntry) (c : t) : t :=
  {| cache := m; hits := hits c; misses := misses c; storage := storage c |}.

(** [generateCacheKey] *)
Definition generateCacheKey (fileName0 : jsstring) (fileSize0 : Z)
  (fileHash0 : jsstring) : jsstring :=
  fileName0 ++ lit "_" ++ ofZ fileSize0 ++ lit "_" ++ substring0 fileHash0 16.

(** [getCurrentSize] *)
Definition getCurrentSize (c : t) : Z :=
  fold_left (fun totalSize entry => totalSize + len (content entry))
            (JsMap.values (cache c)) 0.

(** The comparator passed to [entries.sort]: negative, zero or positive. *)
Definition compareUsage (a b : CacheEntry) : Z :=
  if negb (accessCount a =? accessCount b) then accessCount a - accessCount b
  else lastAccessed a - lastAccessed b.

(** [Array.prototype.sort] is stable: equal entries keep their order. *)
Fixpoint insertSorted (x : jsstring * CacheEntry)
  (l : list (jsstring * CacheEntry)) : list (jsstring * CacheEntry) :=
  match l with
  | [] => [x]
  | y :: l' =>
      if compareUsage (snd x) (snd y) <=? 0 then x :: y :: l'
      else y :: insertSorted x l'
  end.

Definition sortByUsage (l : list (jsstring * CacheEntry))
  : list (jsstring * CacheEntry) :=
  fold_right insertSorted [] l.

(** The [for] loop of [evictLeastUsed]: [entries[i]] is destructured, which
    throws when [i] is out of range. *)
Fixpoint evictLoop (entries : list (jsstring * CacheEntry)) (i count : nat)
  (m : JsMap.t CacheEntry) : option (JsMap.t CacheEntry) :=
  match count with
  | O => Some m
  | S count' =>
      match nth_error entries i with
      | None => None
      | Some (key, _) => evictLoop entries (S i) count' (JsMap.delete m key)
      end
  end.

(** [evictLeastUsed]; [None] when it throws. *)
Definition evictLeastUsed (c : t) : option t :=
  let entries := sortByUsage (cache c) in
  let entriesToRemove := Z.max 1 (Z.of_nat (List.length entries) / 4) in
  option_map (fun m => withCache m c)
             (evictLoop entries 0%nat (Z.to_nat entriesToRemove) (cache c)).

(** [ensureSpace]; [None] when it throws. *)
Definition ensureSpace (newContentSize : Z) (c : t) : option t :=
  let currentSize := getCurrentSize c in
  let totalSize := currentSize + newContentSize in
  if (maxEntries <=? JsMap.size (cache c)) || (maxSizeBytes <? totalSize)
  then evictLeastUsed c
  else Some c.

(** [saveToStorage]: only entries under 50000 characters are written. *)
Definition saveToStorage (c : t) : t :=
  let filteredEntries :=
    filter (fun e => len (content (snd e)) <? 50000) (cache c) in
  {| cache := cache c; hits := hits c; misses := misses c;
     storage := Some (filteredEntries, (hits c, misses c)) |}.

(** [loadFromStorage], run by the constructor on an empty cache. *)
Definition loadFromStorage (stored : option (list (jsstring * CacheEntry) * (Z * Z)))
  : t :=
  match stored with
  | Some (entries, (hits0, misses0)) =>
      {| cache := fold_left (fun m e => JsMap.set m (fst e) (snd e)) entries [];
         hits := hits0; misses := misses0; storage := stored |}
  | None => {| cache := []; hits := 0; misses := 0; storage := None |}
  end.

(** [shouldCache] *)
Definition shouldCache (file : File) : bool :=
  (1 * MB <=? size file) && (size file <=? 50 * MB).

(** [cleanup]; [now] is [Date.now()]. *)
Definition cleanup (now : Z) (c : t) : t :=
  let maxAge := 7 * 24 * 60 * 60 * 1000 in
  saveToStorage
    (withCache (filter (fun e => negb (maxAge <? now - timestamp (snd e))) (cache c)) c).

(** [clear] *)
Definition clear (c : t) : t :=
  {| cache := []; hits := 0; misses := 0; storage := None |}.

Record CacheStats := {
  totalEntries : Z;
  totalSize : Z;
  hitRate : Qc;
  oldestEntry : Z;
  newestEntry : Z
}.

(** [getStats] *)
Definition getStats (c : t) : CacheStats :=
  let entries := JsMap.values (cache c) in
  let totalRequests := hits c + misses c in
  {| totalEntries := JsMap.size (cache c);
     totalSize := getCurrentSize c;
     hitRate := if 0 <? totalRequests
                then Q2Qc (inject_Z (hits c) / inject_Z totalRequests * 100)
                else 0%Qc;
     oldestEntry := match map timestamp entries with
                    | [] => 0
                    | x :: xs => fold_left Z.min xs x
                    end;
     newestEntry := match map timestamp entries with
                    | [] => 0
                    | x :: xs => fold_left Z.max xs x
                    end |}.

(** [entry.accessCount++; entry.lastAccessed = Date.now()] *)
Definition touched (now : Z) (entry : CacheEntry) : CacheEntry :=
  {| id := id entry; fileName := fileName entry; fileSize := fileSize entry;
     fileHash := fileHash entry; content := content entry;
     processingMethod := processingMethod entry;
     processingTime := processingTime entry; timestamp := timestamp entry;
     accessCount := accessCount entry + 1; lastAccessed := now;
     metadata := metadata entry |}.

(** The methods that hash the file.  [digest] is the hexadecimal SHA-256 of
    the bytes as [generateFileHash] computes it, or [None] when
    [crypto.subtle.digest] is unavailable or rejects.  Each method reads
    [Date.now()] as one value [now]. *)
Section Hashing.

Variable digest : list N -> option jsstring.

Definition generateFileHash (file : File) : option jsstring := digest (bytes file).

Definition keyOf (file : File) : option jsstring :=
  option_map (generateCacheKey (name file) (size file)) (generateFileHash file).

(** [has] *)
Definition has (file : File) (c : t) : bool :=
  match keyOf file with
  | Some key => JsMap.has (cache c) key
  | None => false
  end.

(** [get]: the entry returned, and the cache afterwards. *)
Definition get (now : Z) (file : File) (c : t) : option CacheEntry * t :=
  match keyOf file with
  | Some key =>
      match JsMap.get (cache c) key with
      | Some entry =>
          let entry' := touched now entry in
          (Some entry',
           {| cache := JsMap.set (cache c) key entry'; hits := hits c + 1;
              misses := misses c; storage := storage c |})
      | None =>
          (None, {| cache := cache c; hits := hits c; misses := misses c + 1;
                    storage := storage c |})
      end
  | None =>
      (None, {| cache := cache c; hits := hits c; misses := misses c + 1;
                storage := storage c |})
  end.

(** [set] *)
Definition set (now : Z) (file : File) (content0 : jsstring)
  (processingMethod0 : ProcessingMethod) (processingTime0 : option Qc)
  (metadata0 : option Metadata) (c : t) : t :=
  match generateFileHash file with
  | Some fileHash0 =>
      let key := generateCacheKey (name file) (size file) fileHash0 in
      let entry :=
        {| id := key; fileName := name file; fileSize := size file;
           fileHash := fileHash0; content := content0;
           processingMethod := processingMethod0;
           processingTime := processingTime0;
           timestamp := now; accessCount := 1; lastAccessed := now;
           metadata := metadata0 |} in
      match ensureSpace (len content0) c with
      | Some c1 => saveToStorage (withCache (JsMap.set (cache c1) key entry) c1)
      | None => c
      end
  | None => c
  end.

End Hashing.

(** A sample: a cache filled to [maxEntries] with short entries, the
    [i]-th stored and last read at time [i]. *)
Definition sampleEntry (i : Z) : CacheEntry :=
  {| id := ofZ i; fileName := ofZ i ++ lit ".pdf"; fileSize := 2 * MB;
     fileHash := ofZ i; content := lit "text";
     processingMethod := worker; processingTime := None;
     timestamp := i; accessCount := 1; lastAccessed := i;
     metadata := None |}.

Definition fullCache : t :=
  {| cache := map (fun i => (ofZ (Z.of_nat i), sampleEntry (Z.of_nat i)))
                  (seq 0 50);
     hits := 0; misses := 0; storage := None |}.

End FileCache.

(* ================================================================== *)
(** * PDF documents and the environment of the extraction code *)
(* ================================================================== *)

Module PdfJs.

(** A thrown value or rejection reason: an [Error] with its message, or
    another value with its [String(...)] rendering. *)
Inductive Thrown :=
| ErrorObject (message : jsstring)
| OtherValue (rendering : jsstring).

(** How a promise settles, or how a call returns. *)
Inductive Outcome (A : Type) :=
| Resolved (a : A)
| Rejected (e : Thrown).

Arguments Resolved {A} a.
Arguments Rejected {A} e.

(** [error instanceof Error ? error.message : fallback] *)
Definition messageOr (fallback : jsstring) (e : Thrown) : jsstring :=
  match e with
  | ErrorObject message => message
  | OtherValue _ => fallback
  end.

(** [error instanceof Error ? error.message : String(error)] *)
Definition messageOrString (e : Thrown) : jsstring :=
  match e with
  | ErrorObject message => message
  | OtherValue rendering => rendering
  end.

(** A loaded document: [pdf.numPages], and for each page number the [str]
    of the items of [page.getTextContent()], or [None] when [pdf.getPage]
    or [getTextContent] rejects. *)
Record PdfDocument := {
  numPages : Z;
  pageItems : Z -> option (list jsstring)
}.

(** The calls made on the file and on pdf.js, in the order they are made. *)
Inductive Io :=
| ReadFile
| LoadDocument
| GetPage (pageNum : Z)
| Recognize (pageNum : Z).

(** [`\n\n--- Page ${pageNum} ---\n${pageText}`] *)
Definition pageBlock (pageNum : Z) (pageText : jsstring) : jsstring :=
  NL ++ NL ++ lit "--- Page " ++ ofZ pageNum ++ lit " ---" ++ NL ++ pageText.

(** [`\n\n--- Page ${pageNum} (OCR) ---\n${ocrText}`] *)
Definition ocrBlock (pageNum : Z) (ocrText : jsstring) : jsstring :=
  NL ++ NL ++ lit "--- Page " ++ ofZ pageNum ++ lit " (OCR) ---" ++ NL ++ ocrText.

(** [`\n\n--- Page ${pageNum} (Error) ---\n[Content could not be extracted]`] *)
Definition errorBlock (pageNum : Z) : jsstring :=
  NL ++ NL ++ lit "--- Page " ++ ofZ pageNum ++ lit " (Error) ---" ++ NL
     ++ lit "[Content could not be extracted]".

(** The page numbers [startPage, startPage + 1, ..., endPage]. *)
Definition pagesFromTo (startPage endPage : Z) : list Z :=
  map (fun i => startPage + Z.of_nat i)
      (seq 0 (Z.to_nat (endPage - startPage + 1))).

End PdfJs.

(* ================================================================== *)
(** * [ChunkedFileProcessor] *)
(* ================================================================== *)

Module ChunkedFileProcessor.

Import Files PdfJs.

Definition DEFAULT_CHUNK_SIZE : Z := 1024 * 1024.
Definition DEFAULT_MAX_MEMORY : Z := 100 * 1024 * 1024.
Definition MAX_FILE_SIZE : Z := 500 * 1024 * 1024.

Record ProcessingResult := {
  content : jsstring;
  totalChunks : Z;
  processingTime : Qc;
  memoryUsed : Z
}.

(** The body of the closure [processPdfPageRange] creates for a page. *)
Definition pageResult (pdf : PdfDocument) (pageNum : Z) : jsstring :=
  match pageItems pdf pageNum with
  | Some items => pageBlock pageNum (join (lit " ") items)
  | None => errorBlock pageNum
  end.

(** [processPdfPageRange]: the joined page results, and the page requests
    in the order the closures issue them. *)
Definition processPdfPageRange (pdf : PdfDocument) (startPage endPage : Z)
  : jsstring * list Io :=
  let pages := pagesFromTo startPage endPage in
  (List.concat (map (pageResult pdf) pages), map GetPage pages).

(** The [for] loop of [processPdfInChunks] over the remaining chunk
    indexes; the state is [contentChunks] and [currentMemoryUsage]. *)
Fixpoint chunkLoop (pdf : PdfDocument) (pagesPerChunk totalPages maxMemoryUsage : Z)
  (chunkIndexes : list Z) (contentChunks : list jsstring)
  (currentMemoryUsage : Z) (io : list Io) : list jsstring * Z * list Io :=
  match chunkIndexes with
  | [] => (contentChunks, currentMemoryUsage, io)
  | chunkIndex :: rest =>
      let startPage := chunkIndex * pagesPerChunk + 1 in
      let endPage := Z.min ((chunkIndex + 1) * pagesPerChunk) totalPages in
      let (chunkContent, reads) := processPdfPageRange pdf startPage endPage in
      let currentMemoryUsage := currentMemoryUsage + len chunkContent * 2 in
      let currentMemoryUsage :=
        if maxMemoryUsage <? currentMemoryUsage then
          let totalLength :=
            fold_left (fun sum c => sum + len c) contentChunks 0 in
          totalLength * 2
        else currentMemoryUsage in
      chunkLoop pdf pagesPerChunk totalPages maxMemoryUsage rest
                (contentChunks ++ [chunkContent]) currentMemoryUsage (io ++ reads)
  end.

(** [processPdfInChunks].  [getDocument] is what
    [pdfjsLib.getDocument({ data, disableAutoFetch: true }).promise] settles
    to on the file's bytes; [startTime] and [endTime] are the two readings
    of [performance.now()].  The progress callbacks only report and are
    left out. *)
Definition processPdfInChunks (getDocument : list N -> Outcome PdfDocument)
  (startTime endTime : Qc) (maxMemoryUsage : Z) (file : File)
  : Outcome ProcessingResult * list Io :=
  if MAX_FILE_SIZE <? size file then
    (Rejected (ErrorObject
       (lit "File too large. Maximum size is "
          ++ ofZ (MAX_FILE_SIZE / (1024 * 1024)) ++ lit "MB")), [])
  else
    match getDocument (bytes file) with
    | Rejected error =>
        (Rejected (ErrorObject
           (lit "Chunked processing failed: "
              ++ messageOr (lit "Unknown error") error)),
         [ReadFile; LoadDocument])
    | Resolved pdf =>
        let totalPages := numPages pdf in
        let pagesPerChunk := Z.max 1 10 in
        (* Math.ceil(totalPages / pagesPerChunk) *)
        let pageChunks := (totalPages + pagesPerChunk - 1) / pagesPerChunk in
        let '(contentChunks, currentMemoryUsage, io) :=
          chunkLoop pdf pagesPerChunk totalPages maxMemoryUsage
                    (map Z.of_nat (seq 0 (Z.to_nat pageChunks)))
                    [] 0 [ReadFile; LoadDocument] in
        (Resolved {| content := List.concat contentChunks;
                     totalChunks := pageChunks;
                     processingTime := (endTime - startTime)%Qc;
                     memoryUsed := currentMemoryUsage |}, io)
    end.

(** [estimateMemoryUsage] *)
Definition estimateMemoryUsage (file : File) : Z :=
  let multiplier := if Js.eqb (type file) (lit "application/pdf") then 3 else 2 in
  size file * multiplier.

(** [canProcessSafely]; [availableMemory] defaults to 100 MB. *)
Definition canProcessSafely (file : File) (availableMemory : Z) : bool :=
  let estimatedUsage := estimateMemoryUsage file in
  (estimatedUsage <=? availableMemory) && (size file <=? MAX_FILE_SIZE).

Definition canProcessSafelyDefault (file : File) : bool :=
  canProcessSafely file (100 * 1024 * 1024).

End ChunkedFileProcessor.

(* ================================================================== *)
(** * The file-processing worker and [useWorkerFileProcessor] *)
(* ================================================================== *)

Module FileProcessorWorker.

Import Files PdfJs.

(** The options of a [PROCESS_PDF] message; [None] is [undefined].
    [extractImages] is never set by the callers and stays [false]. *)
Record Options := {
  chunkSize : option Z;
  maxPages : option Z
}.

(** The [SUCCESS] payload. *)
Record Success := {
  content : jsstring;
  totalPages : Z;
  fileName : jsstring
}.

(** The body of the closure created for a page. *)
Definition pageResult (pdf : PdfDocument) (pageNum : Z) : jsstring :=
  match pageItems pdf pageNum with
  | Some items => pageBlock pageNum (trim (join (lit " ") items))
  | None => errorBlock pageNum
  end.

(** [for (let startPage = 1; startPage <= totalPages; startPage += chunkSize)];
    [None] when the fuel runs out. *)
Fixpoint chunkLoop (fuel : nat) (pdf : PdfDocument) (chunkSize0 totalPages startPage : Z)
  : option (list jsstring * list Io) :=
  if startPage <=? totalPages then
    match fuel with
    | O => None
    | S fuel' =>
        let endPage := Z.min (startPage + chunkSize0 - 1) totalPages in
        let pages := pagesFromTo startPage endPage in
        let chunkContent := List.concat (map (pageResult pdf) pages) in
        option_map
          (fun r => (chunkContent :: fst r, map GetPage pages ++ snd r))
          (chunkLoop fuel' pdf chunkSize0 totalPages (startPage + chunkSize0))
    end
  else Some ([], []).

(** [processPdfInWorker]: the final message ([SUCCESS] payload or [ERROR]
    payload) and the calls made.  [None] when the page loop does not end.
    The [PROGRESS] and [CHUNK_PROCESSED] messages only report and are left
    out. *)
Definition processPdfInWorker (getDocument : list N -> Outcome PdfDocument)
  (fileData : list N) (fileName0 : jsstring) (options : Options)
  : option ((Success + jsstring) * list Io) :=
  let chunkSize0 := match chunkSize options with Some c => c | None => 5 end in
  let maxPages0 := match maxPages options with Some m => m | None => 1000 end in
  match getDocument fileData with
  | Rejected error =>
      Some (inr (lit "Chunked processing failed: " ++ messageOrString error),
            [LoadDocument])
  | Resolved pdf =>
      let totalPages0 := Z.min (numPages pdf) maxPages0 in
      option_map
        (fun r =>
           (inl {| content := List.concat (fst r); totalPages := totalPages0;
                   fileName := fileName0 |},
            LoadDocument :: snd r))
        (chunkLoop (Z.to_nat totalPages0) pdf chunkSize0 totalPages0 1)
  end.

(** [WorkerProcessingResult] as the hook resolves it: the [SUCCESS]
    payload, which carries no [processingTime]. *)
Record WorkerProcessingResult := {
  resultContent : jsstring;
  resultTotalPages : option Z;
  resultProcessingTime : option Qc;
  resultFileName : jsstring
}.

(** [shouldUseWorker] *)
Definition shouldUseWorker (file : File) : bool := 5 * MB <? size file.

(** [processPdfWithWorker] with the worker's answer.  [workerSupported]
    tells whether [new Worker(...)] succeeds. *)
Definition processPdfWithWorker (workerSupported : bool)
  (getDocument : list N -> Outcome PdfDocument) (file : File)
  (options : Options)
  : option (Outcome WorkerProcessingResult * list Io) :=
  if negb workerSupported then
    Some (Rejected (ErrorObject
            (lit "Web Worker not supported or failed to initialize")), [])
  else
    option_map
      (fun r =>
         match fst r with
         | inl payload =>
             (Resolved {| resultContent := content payload;
                          resultTotalPages := Some (totalPages payload);
                          resultProcessingTime := None;
                          resultFileName := fileName payload |},
              ReadFile :: snd r)
         | inr payload => (Rejected (ErrorObject payload), ReadFile :: snd r)
         end)
      (processPdfInWorker getDocument (bytes file) (name file) options).

End FileProcessorWorker.

(* ================================================================== *)
(** * [useContentExtraction] *)
(* ================================================================== *)

Module ContentExtraction.

Import Files PdfJs.

Inductive SourceType := webpage | file | text | pdf.

(** [ContentSource]; [extractedAt] holds the instant whose ISO rendering
    the source stores. *)
Record ContentSource := {
  id : jsstring;
  type : SourceType;
  title : jsstring;
  content : jsstring;
  url : option jsstring;
  filename : option jsstring;
  fileData : option jsstring;
  fileType : option jsstring;
  extractedAt : option Z
}.

(** [extractFromText]; [now] is [Date.now()]. *)
Definition extractFromText (now : Z) (text0 : jsstring) : ContentSource :=
  {| id := ofZ now; type := text; title := lit "Pasted Text";
     content := trim text0; url := None; filename := None; fileData := None;
     fileType := None; extractedAt := None |}.

(** What [extractFromPDF] reads from its surroundings during one call:
    the clock, the object URLs the browser hands out, the digest used by
    the cache, whether a worker can be created, what each pdf.js load
    settles to, and the OCR engine.  [directTask attempt] is the [attempt]th
    [getDocument] call of the retry loop: it throws, or returns a loading
    task whose promise settles as given.  [recognize pageNum] is the text
    the OCR engine reads from the rendered page, or [None] when the OCR
    worker cannot be created, no canvas context is available, or rendering
    or recognition throws - the cases in which [ocrText] stays empty or
    the page's [catch] runs. *)
Record Env := {
  now : Z;
  objectURL : jsstring;
  recoveryObjectURL : jsstring;
  digest : list N -> option jsstring;
  workerSupported : bool;
  workerDocument : list N -> Outcome PdfDocument;
  chunkedDocument : list N -> Outcome PdfDocument;
  recoveryDocument : list N -> Outcome PdfDocument;
  directTask : Z -> Outcome (Outcome PdfDocument);
  recognize : Z -> option jsstring;
  startTime : Qc;
  endTime : Qc
}.

(** The module-level singletons the hook works on, and the calls made on
    files and documents so far. *)
Record World := {
  fileCache : FileCache.t;
  blobUrls : BlobUrlManager.t;
  io : list Io
}.

Definition fileSource (env : Env) (f : File) (content0 fileData0 : jsstring)
  (stamped : bool) : ContentSource :=
  {| id := ofZ (now env); type := file; title := name f; content := content0;
     url := None; filename := Some (name f); fileData := Some fileData0;
     fileType := Some (Files.type f);
     extractedAt := if stamped then Some (now env) else None |}.

(** The body of the direct per-page loop, lines 326-381: the text appended
    to [fullText] and the calls made. *)
Definition directPage (env : Env) (pdf0 : PdfDocument) (pageNum : Z)
  : jsstring * list Io :=
  match pageItems pdf0 pageNum with
  | None => (errorBlock pageNum, [GetPage pageNum])
  | Some items =>
      let pageText := trim (join (lit " ") items) in
      if Js.eqb pageText [] || (len pageText <? 5) then
        let ocrText :=
          match recognize env pageNum with
          | Some recognized => trim recognized
          | None => []
          end in
        (if negb (Js.eqb ocrText []) && (0 <? len ocrText)
         then ocrBlock pageNum ocrText
         else errorBlock pageNum,
         [GetPage pageNum; Recognize pageNum])
      else (pageBlock pageNum pageText, [GetPage pageNum])
  end.

(** The loop [for (pageNum = 1; pageNum <= totalPages; pageNum++)]. *)
Definition directPages (env : Env) (pdf0 : PdfDocument) : jsstring * list Io :=
  fold_left
    (fun acc pageNum =>
       let (block, calls) := directPage env pdf0 pageNum in
       (fst acc ++ block, snd acc ++ calls))
    (pagesFromTo 1 (numPages pdf0)) ([], []).

(** The retry loop, lines 296-311, from attempt [attempt] on.
    [remaining] bounds the iterations left; the loop leaves by [break] or
    by [throw] at attempt [maxAttempts], before the bound is used up. *)
Fixpoint loadWithRetries (env : Env) (maxAttempts attempt : Z) (remaining : nat)
  : Outcome (Outcome PdfDocument) * list Io :=
  match remaining with
  | O => (Rejected (OtherValue []), [])
  | S remaining' =>
      match directTask env attempt with
      | Resolved loadingTask => (Resolved loadingTask, [ReadFile; LoadDocument])
      | Rejected attemptError =>
          if attempt =? maxAttempts
          then (Rejected attemptError, [ReadFile; LoadDocument])
          else
            let (r, calls) :=
              loadWithRetries env maxAttempts (attempt + 1) remaining' in
            (r, [ReadFile; LoadDocument] ++ calls)
      end
  end.

(** The chain of lines 457-475, which assigns [errorMessage] in every
    branch; [message] is the lower-cased message, [original] the message
    as thrown and [errorMessage] the value before the chain. *)
Definition classifyError (message original errorMessage : jsstring) : jsstring :=
  if includes message (lit "invalid pdf") || includes message (lit "corrupted")
     || includes message (lit "not a pdf") then
    lit "The file appears to be corrupted or is not a valid PDF"
  else if includes message (lit "password") || includes message (lit "encrypted") then
    lit "This PDF is password-protected. Please provide an unprotected version"
  else if includes message (lit "worker") || includes message (lit "script")
          || includes message (lit "loading failed") then
    lit "PDF processing engine failed to load. Please refresh the page and try again"
  else if includes message (lit "network") || includes message (lit "fetch")
          || includes message (lit "connection") then
    lit "Network error occurred. Please check your internet connection and try again"
  else if includes message (lit "attempts") || includes message (lit "incompatible") then
    lit "This PDF format is not supported or the file is corrupted"
  else if includes message (lit "no text content") then
    lit "This PDF contains no extractable text. It may be image-based or scanned"
  else if includes message (lit "memory") then
    lit "PDF processing failed due to memory constraints: " ++ original
      ++ lit ". Try processing a smaller file or restart the application."
  else if includes message (lit "timeout") then
    lit "PDF processing timed out: " ++ original
      ++ lit ". Try processing a smaller file or check your internet connection."
  else lit "PDF processing failed: " ++ original.

Definition addIo (calls : list Io) (w : World) : World :=
  {| fileCache := fileCache w; blobUrls := blobUrls w; io := io w ++ calls |}.

Definition registerUrl (u : jsstring) (w : World) : World :=
  {| fileCache := fileCache w;
     blobUrls := BlobUrlManager.register u (blobUrls w); io := io w |}.

(** [if (fileCache.shouldCache(file)) await fileCache.set(...)].  [set]
    starts with [generateFileHash], which reads the file through
    [file.arrayBuffer()]. *)
Definition cacheResult (env : Env) (f : File) (content0 : jsstring)
  (method : FileCache.ProcessingMethod) (time : option Qc)
  (meta : FileCache.Metadata) (w : World) : World :=
  if FileCache.shouldCache f then
    {| fileCache := FileCache.set (digest env) (now env) f content0 method time
                      (Some meta) (fileCache w);
       blobUrls := blobUrls w; io := io w ++ [ReadFile] |}
  else w.

(** The [catch] block of lines 400-478. *)
Definition handleError (env : Env) (f : File) (err : Thrown) (w : World)
  : Outcome ContentSource * World :=
  let errorMessage := lit "Failed to extract text from PDF" in
  match err with
  | OtherValue _ => (Rejected (ErrorObject errorMessage), w)
  | ErrorObject original =>
      let message := toLowerCase original in
      if includes message (lit "worker") || includes message (lit "memory")
         || includes message (lit "timeout") then
        let w := registerUrl (recoveryObjectURL env) w in
        let (r, calls) :=
          ChunkedFileProcessor.processPdfInChunks (recoveryDocument env)
            (startTime env) (endTime env)
            ChunkedFileProcessor.DEFAULT_MAX_MEMORY f in
        let w := addIo calls w in
        match r with
        | Resolved result =>
            let content0 := ChunkedFileProcessor.content result in
            let w := cacheResult env f content0 FileCache.chunked
                       (Some (ChunkedFileProcessor.processingTime result))
                       {| FileCache.totalPages := None;
                          FileCache.extractedImages := None;
                          FileCache.fileType := Some (Files.type f) |} w in
            (Resolved (fileSource env f content0 (recoveryObjectURL env) true), w)
        | Rejected recoveryError =>
            let errorMessage :=
              lit "Primary extraction failed, recovery also failed: "
                ++ messageOr (lit "Unknown error") recoveryError in
            let errorMessage := classifyError message original errorMessage in
            (Rejected (ErrorObject errorMessage), w)
        end
      else
        let errorMessage := classifyError message original errorMessage in
        (Rejected (ErrorObject errorMessage), w)
  end.

(** The direct path, lines 292-399. *)
Definition extractDirect (env : Env) (f : File) (w : World)
  : Outcome ContentSource * World :=
  let (task, calls) := loadWithRetries env 3 1 3%nat in
  let w := addIo calls w in
  match task with
  | Rejected attemptError => handleError env f attemptError w
  | Resolved (Rejected err) => handleError env f err w
  | Resolved (Resolved pdf0) =>
      let (fullText, calls) := directPages env pdf0 in
      (Resolved (fileSource env f (trim fullText) (objectURL env) false),
       addIo calls w)
  end.

(** The chunked path, lines 243-290, falling through to the direct path. *)
Definition extractChunked (env : Env) (f : File) (w : World)
  : Outcome ContentSource * World :=
  let (r, calls) :=
    ChunkedFileProcessor.processPdfInChunks (chunkedDocument env)
      (startTime env) (endTime env) ChunkedFileProcessor.DEFAULT_MAX_MEMORY f in
  let w := addIo calls w in
  match r with
  | Resolved result =>
      let content0 := ChunkedFileProcessor.content result in
      let w := cacheResult env f content0 FileCache.chunked
                 (Some (ChunkedFileProcessor.processingTime result))
                 {| FileCache.totalPages := None;
                    FileCache.extractedImages := None;
                    FileCache.fileType := Some (Files.type f) |} w in
      (Resolved (fileSource env f content0 (objectURL env) true), w)
  | Rejected _ => extractDirect env f w
  end.

(** The worker call of lines 199-210.  The default branch is never
    taken, see [workerCall_runs]. *)
Definition workerCall (env : Env) (f : File)
  : Outcome FileProcessorWorker.WorkerProcessingResult * list Io :=
  match FileProcessorWorker.processPdfWithWorker (workerSupported env)
          (workerDocument env) f
          {| FileProcessorWorker.chunkSize := Some 3;
             FileProcessorWorker.maxPages := Some 500 |} with
  | Some r => r
  | None => (Rejected (OtherValue []), [])
  end.

(** [extractFromPDF] from line 181 on: after a cache miss, or for a file
    that is not cached. *)
Definition extractUncached (env : Env) (f : File) (w : World)
  : Outcome ContentSource * World :=
  let w := registerUrl (objectURL env) w in
  let useWorkerProcessing := FileProcessorWorker.shouldUseWorker f in
  let useChunkedProcessing := (10 * MB <? size f) && (size f <=? 25 * MB) in
  let useWorkerForVeryLarge := 25 * MB <? size f in
  let preferWorker := useWorkerForVeryLarge || useChunkedProcessing
                      || useWorkerProcessing || (10 * MB <=? size f) in
  let continue (w : World) :=
    if useChunkedProcessing || useWorkerForVeryLarge || preferWorker
    then extractChunked env f w
    else extractDirect env f w in
  if preferWorker then
    let (r, calls) := workerCall env f in
    let w := addIo calls w in
    match r with
    | Resolved result =>
        let content0 := FileProcessorWorker.resultContent result in
        let w := cacheResult env f content0 FileCache.worker
                   (FileProcessorWorker.resultProcessingTime result)
                   {| FileCache.totalPages :=
                        FileProcessorWorker.resultTotalPages result;
                      FileCache.extractedImages := None;
                      FileCache.fileType := Some (Files.type f) |} w in
        (Resolved (fileSource env f content0 (objectURL env) true), w)
    | Rejected _ => continue w
    end
  else continue w.

(** [extractFromPDF].  The React state it sets ([isExtracting],
    [progress], [isUsingOCR]) only drives the progress display and is left
    out.  The lookup [fileCache.get(file)] starts with [generateFileHash],
    which reads the file through [file.arrayBuffer()]. *)
Definition extractFromPDF (env : Env) (f : File) (w : World)
  : Outcome ContentSource * World :=
  if FileCache.shouldCache f then
    let (cachedEntry, cache') :=
      FileCache.get (digest env) (now env) f (fileCache w) in
    let w := {| fileCache := cache'; blobUrls := blobUrls w;
                io := io w ++ [ReadFile] |} in
    match cachedEntry with
    | Some entry =>
        let w := registerUrl (objectURL env) w in
        (Resolved (fileSource env f (FileCache.content entry) (objectURL env) true),
         w)
    | None => extractUncached env f w
    end
  else extractUncached env f w.

(** ** Sample inputs *)

(** A one-page document whose page holds the two characters ['ab']. *)
Definition scannedPdf : PdfDocument :=
  {| numPages := 1;
     pageItems := fun pageNum => if pageNum =? 1 then Some [lit "ab"] else None |}.

(** A one-page document with ordinary text. *)
Definition textPdf : PdfDocument :=
  {| numPages := 1;
     pageItems := fun pageNum =>
       if pageNum =? 1 then Some [lit "Hello"; lit "world"] else None |}.

(** An environment in which every load resolves to [pdf0] and the OCR
    engine reads ['Recovered text'] from every page. *)
Definition sampleEnv (pdf0 : PdfDocument) : Env :=
  {| now := 1000;
     objectURL := lit "blob:1";
     recoveryObjectURL := lit "blob:2";
     digest := fun _ => Some (lit "0123456789abcdef0123456789abcdef");
     workerSupported := true;
     workerDocument := fun _ => Resolved pdf0;
     chunkedDocument := fun _ => Resolved pdf0;
     recoveryDocument := fun _ => Resolved pdf0;
     directTask := fun _ => Resolved (Resolved pdf0);
     recognize := fun _ => Some (lit "Recovered text");
     startTime := 0;
     endTime := 1 |}.

(** An environment without workers in which every load fails with
    [message]. *)
Definition failingEnv (message : jsstring) : Env :=
  {| now := 1000;
     objectURL := lit "blob:1";
     recoveryObjectURL := lit "blob:2";
     digest := fun _ => Some (lit "0123456789abcdef0123456789abcdef");
     workerSupported := false;
     workerDocument := fun _ => Rejected (ErrorObject message);
     chunkedDocument := fun _ => Rejected (ErrorObject message);
     recoveryDocument := fun _ => Rejected (ErrorObject message);
     directTask := fun _ => Resolved (Rejected (ErrorObject message));
     recognize := fun _ => None;
     startTime := 0;
     endTime := 1 |}.

Definition sampleFile (sizeMB : Z) : File :=
  {| name := lit "a.pdf"; size := sizeMB * MB; Files.type := lit "application/pdf";
     bytes := [37; 80; 68; 70]%N |}.

Definition emptyWorld : World :=
  {| fileCache := FileCache.loadFromStorage None;
     blobUrls := BlobUrlManager.empty; io := [] |}.

End ContentExtraction.

(* ================================================================== *)
(** * Properties of the string operations *)
(* ================================================================== *)

Module JsFacts.

Lemma len_nonneg (s : jsstring) : 0 <= len s.
Proof. unfold len. lia. Qed.

Lemma len_app (a b : jsstring) : len (a ++ b) = len a + len b.
Proof. unfold len. rewrite length_app. lia. Qed.

Lemma len_nil_iff (s : jsstring) : len s = 0 <-> s = [].
Proof.
  unfold len. destruct s; simpl; split; intro H; try reflexivity; try discriminate.
Qed.

Lemma eqb_true_iff (a b : jsstring) : Js.eqb a b = true <-> a = b.
Proof.
  unfold Js.eqb. destruct (list_eq_dec N.eq_dec a b); split; congruence.
Qed.

Lemma eqb_refl (a : jsstring) : Js.eqb a a = true.
Proof. apply eqb_true_iff. reflexivity. Qed.

Lemma eqb_false_iff (a b : jsstring) : Js.eqb a b = false <-> a <> b.
Proof.
  unfold Js.eqb. destruct (list_eq_dec N.eq_dec a b); split; congruence.
Qed.

Lemma slice_inrange (s : jsstring) (a b : Z) :
  0 <= a <= b -> b <= len s ->
  slice s a b = firstn (Z.to_nat (b - a)) (skipn (Z.to_nat a) s).
Proof.
  intros Hab Hb. unfold slice, clampIndex.
  destruct (a <? 0) eqn:Ha; [apply Z.ltb_lt in Ha; lia|].
  destruct (b <? 0) eqn:Hb0; [apply Z.ltb_lt in Hb0; lia|].
  rewrite !Z.min_l by lia. reflexivity.
Qed.

Lemma slice_skipn (s : jsstring) (a b : Z) :
  0 <= a <= b -> b <= len s ->
  slice s a b ++ skipn (Z.to_nat b) s = skipn (Z.to_nat a) s.
Proof.
  intros Hab Hb. rewrite slice_inrange by assumption.
  replace (Z.to_nat b) with (Z.to_nat (b - a) + Z.to_nat a)%nat by lia.
  rewrite <- skipn_skipn. apply firstn_skipn.
Qed.

Lemma len_slice (s : jsstring) (a b : Z) :
  0 <= a <= b -> b <= len s -> len (slice s a b) = b - a.
Proof.
  intros Hab Hb. rewrite slice_inrange by assumption.
  unfold len in *. rewrite length_firstn, length_skipn. lia.
Qed.

Lemma sliceFrom_zero (s : jsstring) : sliceFrom s 0 = s.
Proof.
  unfold sliceFrom. rewrite slice_inrange by (pose proof (len_nonneg s); lia).
  simpl. unfold len. rewrite Z.sub_0_r, Nat2Z.id. apply firstn_all.
Qed.

Lemma len_sliceFrom (s : jsstring) (a : Z) :
  0 <= a <= len s -> len (sliceFrom s a) = len s - a.
Proof. intro H. unfold sliceFrom. apply len_slice; lia. Qed.

Lemma trimStart_split (s : jsstring) :
  exists l, s = l ++ trimStart s /\ allWhite l.
Proof.
  induction s as [|c s IH]; simpl.
  - exists []. split; reflexivity.
  - destruct (isWhiteSpace c) eqn:Hc.
    + destruct IH as [l [Hs Hl]]. exists (c :: l). split.
      * simpl. congruence.
      * unfold allWhite in *. simpl. rewrite Hc, Hl. reflexivity.
    + exists []. split; reflexivity.
Qed.

Lemma allWhite_app (a b : jsstring) : allWhite a -> allWhite b -> allWhite (a ++ b).
Proof. unfold allWhite. intros Ha Hb. rewrite forallb_app, Ha, Hb. reflexivity. Qed.

Lemma allWhite_rev (a : jsstring) : allWhite a -> allWhite (rev a).
Proof.
  unfold allWhite. rewrite !forallb_forall. intros H x Hx.
  apply H. apply in_rev. assumption.
Qed.

Lemma trimEnd_split (s : jsstring) :
  exists r, s = trimEnd s ++ r /\ allWhite r.
Proof.
  unfold trimEnd. destruct (trimStart_split (rev s)) as [l [Hs Hl]].
  exists (rev l). split.
  - rewrite <- rev_app_distr, <- Hs, rev_involutive. reflexivity.
  - apply allWhite_rev. assumption.
Qed.

(** [trim] removes a run of white space at each end and nothing else. *)
Lemma trim_split (s : jsstring) :
  exists l r, s = l ++ trim s ++ r /\ allWhite l /\ allWhite r.
Proof.
  unfold trim. destruct (trimStart_split s) as [l [Hs Hl]].
  destruct (trimEnd_split (trimStart s)) as [r [Ht Hr]].
  exists l, r. split; [|split; assumption].
  rewrite <- Ht. assumption.
Qed.

Lemma len_trim_le (s : jsstring) : len (trim s) <= len s.
Proof.
  destruct (trim_split s) as [l [r [Hs _]]].
  rewrite Hs at 2. rewrite !len_app.
  pose proof (len_nonneg l). pose proof (len_nonneg r). lia.
Qed.

Lemma trim_nil_allWhite (s : jsstring) : trim s = [] -> allWhite s.
Proof.
  intro H. destruct (trim_split s) as [l [r [Hs [Hl Hr]]]].
  rewrite H in Hs. rewrite Hs. simpl. apply allWhite_app; assumption.
Qed.

Lemma lastIndexOf_scan_bounds (c : N) (s : jsstring) (i limit found : Z) :
  -1 <= found <= limit -> 0 <= i ->
  -1 <= lastIndexOf_scan c s i limit found <= limit.
Proof.
  revert i found. induction s as [|x s IH]; intros i found Hf Hi; simpl.
  - assumption.
  - apply IH; [|lia].
    destruct ((x =? c)%N && (i <=? limit)) eqn:E; [|assumption].
    apply andb_prop in E. destruct E as [_ E]. apply Z.leb_le in E. lia.
Qed.

(** [lastIndexOf] answers [-1] or an index not beyond the position. *)
Lemma lastIndexOf_bounds (s : jsstring) (c : N) (position : Z) :
  -1 <= lastIndexOf s c position <= Z.max position 0.
Proof. unfold lastIndexOf. apply lastIndexOf_scan_bounds; lia. Qed.

Lemma lastIndexOf_scan_lt (c : N) (s : jsstring) (i limit found : Z) :
  found < i + len s -> lastIndexOf_scan c s i limit found < i + len s.
Proof.
  revert i found. induction s as [|x s IH]; intros i found Hf; simpl.
  - assumption.
  - replace (i + len (x :: s)) with ((i + 1) + len s)
      by (unfold len; simpl List.length; lia).
    apply IH.
    pose proof (len_nonneg s).
    destruct ((x =? c)%N && (i <=? limit)); [lia|].
    unfold len in Hf. simpl List.length in Hf. unfold len. lia.
Qed.

Lemma trimStart_head (s : jsstring) (c : N) (t : jsstring) :
  trimStart s = c :: t -> isWhiteSpace c = false.
Proof.
  induction s as [|x s IH]; simpl; intro H; [discriminate|].
  destruct (isWhiteSpace x) eqn:Hx; [auto|].
  injection H as -> _. exact Hx.
Qed.

Lemma trimStart_fixed (s : jsstring) :
  match s with [] => True | c :: _ => isWhiteSpace c = false end ->
  trimStart s = s.
Proof. destruct s as [|c s]; simpl; intro H; [reflexivity|]. rewrite H. reflexivity. Qed.

Lemma trimStart_idempotent (s : jsstring) : trimStart (trimStart s) = trimStart s.
Proof.
  apply trimStart_fixed. destruct (trimStart s) as [|c t] eqn:E; [trivial|].
  exact (trimStart_head s c t E).
Qed.

Lemma trimEnd_idempotent (s : jsstring) : trimEnd (trimEnd s) = trimEnd s.
Proof.
  unfold trimEnd. rewrite rev_involutive, trimStart_idempotent. reflexivity.
Qed.

(** [trim] of a trimmed string changes nothing. *)
Lemma trim_idempotent (s : jsstring) : trim (trim s) = trim s.
Proof.
  unfold trim.
  assert (H : trimStart (trimEnd (trimStart s)) = trimEnd (trimStart s)).
  { apply trimStart_fixed.
    destruct (trimEnd_split (trimStart s)) as [r [Ht _]].
    destruct (trimEnd (trimStart s)) as [|c u] eqn:E; [trivial|].
    simpl in Ht. exact (trimStart_head s c _ Ht). }
  rewrite H. apply trimEnd_idempotent.
Qed.

End JsFacts.

(* ================================================================== *)
(** * Properties of [chunkTextForSpeech] *)
(* ================================================================== *)

Module ChunkerFacts.

Import JsFacts.

Lemma chunkEnd_bounds (text : jsstring) (N cur : Z) :
  0 < N -> 0 <= cur < len text ->
  cur < chunkEnd text N cur <= len text /\ chunkEnd text N cur <= cur + N + 1.
Proof.
  intros HN Hcur. unfold chunkEnd. cbv zeta.
  set (e0 := Z.min (cur + N) (len text)).
  pose proof (lastIndexOf_bounds text DOT e0) as Hd.
  pose proof (lastIndexOf_bounds text QUESTION e0) as Hq.
  pose proof (lastIndexOf_bounds text EXCLAMATION e0) as He.
  pose proof (lastIndexOf_bounds text SPACE e0) as Hs.
  assert (He0 : cur < e0 <= len text /\ e0 <= cur + N) by (unfold e0; lia).
  destruct (Z.ltb_spec e0 (len text)); [|lia].
  rewrite !Z.gtb_ltb.
  destruct (Z.ltb_spec (2 * cur + N)
              (2 * Z.max (Z.max (lastIndexOf text DOT e0)
                                (lastIndexOf text QUESTION e0))
                         (lastIndexOf text EXCLAMATION e0))); [lia|].
  destruct (Z.ltb_spec (2 * cur + N) (2 * lastIndexOf text SPACE e0)); lia.
Qed.

Lemma skipn_len (text : jsstring) : skipn (Z.to_nat (len text)) text = [].
Proof. unfold len. rewrite Nat2Z.id. apply skipn_all. Qed.

(** The loop cuts the rest of the text into consecutive pieces and pushes
    the trimmed pieces. *)
Lemma chunkLoop_pieces (fuel : nat) (text : jsstring) (N cur : Z) :
  0 < N -> 0 <= cur <= len text -> (Z.to_nat (len text - cur) <= fuel)%nat ->
  exists pieces,
    chunkLoop fuel text N cur = Some (map trim pieces)
    /\ List.concat pieces = skipn (Z.to_nat cur) text
    /\ Forall (fun p => len p <= N + 1) pieces.
Proof.
  intro HN. revert cur. induction fuel as [|fuel IH]; intros cur Hcur Hfuel.
  - assert (cur = len text) by lia. subst cur.
    exists []. simpl. rewrite Z.ltb_irrefl, skipn_len. auto.
  - simpl. destruct (Z.ltb_spec cur (len text)) as [Hlt|Hge].
    + destruct (chunkEnd_bounds text N cur HN (conj (proj1 Hcur) Hlt)) as [He HeN].
      destruct (IH (chunkEnd text N cur)) as [pieces [Hloop [Hcat Hall]]];
        [lia|lia|].
      exists (slice text cur (chunkEnd text N cur) :: pieces).
      rewrite Hloop. simpl. split; [reflexivity|]. split.
      * rewrite Hcat. apply slice_skipn; lia.
      * constructor; [|assumption]. rewrite len_slice; lia.
    + assert (cur = len text) by lia. subst cur.
      exists []. simpl. rewrite skipn_len. auto.
Qed.

Lemma Stitched_prepend (gap : jsstring) (chunks : list jsstring) (text : jsstring) :
  allWhite gap -> Stitched chunks text -> Stitched chunks (gap ++ text).
Proof.
  intros Hg H. destruct H as [g Hw | g c cs rest Hw Hrest].
  - constructor. apply allWhite_app; assumption.
  - rewrite app_assoc. constructor; [apply allWhite_app|]; assumption.
Qed.

Lemma Stitched_pieces (pieces : list jsstring) :
  Stitched (filter (fun chunk => 0 <? len chunk) (map trim pieces))
           (List.concat pieces).
Proof.
  induction pieces as [|p pieces IH]; simpl.
  - constructor. reflexivity.
  - destruct (trim_split p) as [l [r [Hp [Hl Hr]]]].
    destruct (Z.ltb_spec 0 (len (trim p))) as [Hpos|Hzero].
    + rewrite Hp at 2. rewrite <- !app_assoc.
      constructor; [assumption|]. apply Stitched_prepend; assumption.
    + apply Stitched_prepend; [|assumption].
      apply trim_nil_allWhite. apply len_nil_iff.
      pose proof (len_nonneg (trim p)). lia.
Qed.

Lemma nonWhite_app (a b : jsstring) : nonWhite (a ++ b) = nonWhite a ++ nonWhite b.
Proof. unfold nonWhite. apply filter_app. Qed.

Lemma nonWhite_allWhite (g : jsstring) : allWhite g -> nonWhite g = [].
Proof.
  unfold allWhite, nonWhite. induction g as [|c g IH]; simpl; intro H.
  - reflexivity.
  - apply andb_prop in H. destruct H as [Hc Hg]. rewrite Hc. simpl. auto.
Qed.

Lemma Stitched_nonWhite (chunks : list jsstring) (text : jsstring) :
  Stitched chunks text -> nonWhite (List.concat chunks) = nonWhite text.
Proof.
  induction 1 as [g Hg | g c cs rest Hg Hrest IH]; simpl.
  - symmetry. apply nonWhite_allWhite. assumption.
  - rewrite !nonWhite_app, (nonWhite_allWhite g Hg), IH. reflexivity.
Qed.

Lemma Stitched_len (chunks : list jsstring) (text : jsstring) :
  Stitched chunks text -> len (List.concat chunks) <= len text.
Proof.
  induction 1 as [g Hg | g c cs rest Hg Hrest IH]; simpl.
  - apply len_nonneg.
  - rewrite !len_app. pose proof (len_nonneg g). lia.
Qed.

Lemma Stitched_single (text : jsstring) : Stitched [text] text.
Proof.
  replace text with ([] ++ text ++ []) at 2 by (simpl; apply app_nil_r).
  constructor; [reflexivity|]. constructor. reflexivity.
Qed.

(** With a positive maximum the function returns, and what it returns. *)
Lemma chunkTextForSpeech_spec (text : jsstring) (N : Z) :
  0 < N ->
  exists chunks,
    chunkTextForSpeech text N = Some chunks
    /\ Stitched chunks text
    /\ Forall (fun c => len c <= N + 1) chunks.
Proof.
  intro HN. unfold chunkTextForSpeech.
  destruct (Z.leb_spec (len text) N) as [Hle|Hgt].
  - exists [text]. split; [reflexivity|]. split; [apply Stitched_single|].
    constructor; [lia|constructor].
  - destruct (chunkLoop_pieces (List.length text) text N 0 HN) as
        [pieces [Hloop [Hcat Hall]]].
    + pose proof (len_nonneg text). lia.
    + unfold len. lia.
    + rewrite Hloop. simpl.
      exists (filter (fun chunk => 0 <? len chunk) (map trim pieces)).
      split; [reflexivity|]. split.
      * simpl in Hcat. rewrite <- Hcat. apply Stitched_pieces.
      * apply Forall_forall. intros c Hc.
        apply filter_In in Hc. destruct Hc as [Hc _].
        apply in_map_iff in Hc. destruct Hc as [p [Hp Hin]]. subst c.
        rewrite Forall_forall in Hall. specialize (Hall p Hin).
        pose proof (len_trim_le p). lia.
Qed.

(** With the default maximum the function always returns. *)
Lemma chunkTextForSpeechDefault_eq (text : jsstring) :
  chunkTextForSpeech text defaultMaxChunkSize
  = Some (chunkTextForSpeechDefault text).
Proof.
  unfold chunkTextForSpeechDefault.
  destruct (chunkTextForSpeech_spec text defaultMaxChunkSize) as [chunks [H _]].
  - reflexivity.
  - rewrite H. reflexivity.
Qed.

Lemma chunkTextForSpeechDefault_Stitched (text : jsstring) :
  Stitched (chunkTextForSpeechDefault text) text.
Proof.
  destruct (chunkTextForSpeech_spec text defaultMaxChunkSize) as [chunks [H [Hs _]]].
  - reflexivity.
  - rewrite chunkTextForSpeechDefault_eq in H. injection H as H. subst. assumption.
Qed.

(** C2: for a positive maximum [N] the function returns a chunk list; the
    text is these chunks in order, separated and surrounded by runs of
    white space only (the white space [trim] removed at the two ends of
    every piece, the ends of the text included); hence the concatenation
    of the chunks has the same characters other than white space as the
    text, in the same order and number. *)
Theorem chunkTextForSpeech_round_trip (text : jsstring) (N : Z) :
  0 < N ->
  exists chunks,
    chunkTextForSpeech text N = Some chunks
    /\ Stitched chunks text
    /\ nonWhite (List.concat chunks) = nonWhite text.
Proof.
  intro HN. destruct (chunkTextForSpeech_spec text N HN) as [chunks [H [Hs _]]].
  exists chunks. split; [assumption|]. split; [assumption|].
  apply Stitched_nonWhite. assumption.
Qed.

Lemma chunkTextForSpeech_round_trip_witness :
  exists chunks,
    chunkTextForSpeech (lit "One two.  Three four. Five") 12 = Some chunks
    /\ Stitched chunks (lit "One two.  Three four. Five")
    /\ nonWhite (List.concat chunks) = nonWhite (lit "One two.  Three four. Five").
Proof.
  apply (chunkTextForSpeech_round_trip (lit "One two.  Three four. Five") 12).
  reflexivity.
Defined.

(** C1 fails: with a maximum of 6 the text ['abcd. .'] comes back as one
    chunk of 7 characters, although no token of it is longer than 6 and a
    sentence end (index 4) and a space (index 5) lie in the back half of
    the window.  [lastIndexOf('.', chunkEnd)] also looks at index
    [chunkEnd] itself, finds the final stop there, and the chunk is cut
    after it. *)
Theorem chunk_exceeds_maximum :
  chunkTextForSpeech (lit "abcd. .") 6 = Some [lit "abcd. ."]
  /\ len (lit "abcd. .") = 7
  /\ nth_error (lit "abcd. .") 4 = Some DOT
  /\ nth_error (lit "abcd. .") 5 = Some SPACE
  /\ lastIndexOf (lit "abcd. .") DOT 6 = 6.
Proof. repeat split; reflexivity. Qed.

(** X1: for a positive maximum [N] the function returns, and no chunk is
    longer than [N + 1] characters, whatever the text. *)
Theorem chunk_length_bound (text : jsstring) (N : Z) :
  0 < N ->
  exists chunks,
    chunkTextForSpeech text N = Some chunks
    /\ Forall (fun c => len c <= N + 1) chunks.
Proof.
  intro HN. destruct (chunkTextForSpeech_spec text N HN) as [chunks [H [_ Hb]]].
  exists chunks. auto.
Qed.

Lemma chunk_length_bound_witness :
  exists chunks,
    chunkTextForSpeech (lit "abcdefghij klm") 4 = Some chunks
    /\ Forall (fun c => len c <= 4 + 1) chunks.
Proof. apply (chunk_length_bound (lit "abcdefghij klm") 4). reflexivity. Defined.

Lemma chunkEnd_zero (text : jsstring) : 0 < len text -> chunkEnd text 0 0 = 0.
Proof.
  intro H. unfold chunkEnd. cbv zeta.
  replace (Z.min (0 + 0) (len text)) with 0 by lia.
  pose proof (lastIndexOf_bounds text DOT 0) as Hd.
  pose proof (lastIndexOf_bounds text QUESTION 0) as Hq.
  pose proof (lastIndexOf_bounds text EXCLAMATION 0) as He.
  pose proof (lastIndexOf_bounds text SPACE 0) as Hs.
  destruct (Z.ltb_spec 0 (len text)); [|lia].
  rewrite !Z.gtb_ltb.
  destruct (Z.ltb_spec (2 * 0 + 0)
              (2 * Z.max (Z.max (lastIndexOf text DOT 0)
                                (lastIndexOf text QUESTION 0))
                         (lastIndexOf text EXCLAMATION 0))); [lia|].
  destruct (Z.ltb_spec (2 * 0 + 0) (2 * lastIndexOf text SPACE 0)); [lia|].
  reflexivity.
Qed.

(** X2: with [maxChunkSize = 0] and a non-empty text the [while] loop
    makes no progress - [chunkEnd] stays at [currentIndex = 0] - so the
    call never returns: the loop is still running after any number of
    iterations. *)
Theorem chunk_zero_never_returns (text : jsstring) :
  0 < len text ->
  (forall fuel, chunkLoop fuel text 0 0 = None)
  /\ chunkTextForSpeech text 0 = None.
Proof.
  intro H.
  assert (L : forall fuel, chunkLoop fuel text 0 0 = None).
  { induction fuel as [|fuel IH]; simpl.
    - destruct (Z.ltb_spec 0 (len text)); [reflexivity|lia].
    - destruct (Z.ltb_spec 0 (len text)); [|lia].
      rewrite (chunkEnd_zero text H), IH. reflexivity. }
  split; [exact L|].
  unfold chunkTextForSpeech.
  destruct (Z.leb_spec (len text) 0); [lia|]. rewrite L. reflexivity.
Qed.

Lemma chunk_zero_never_returns_witness :
  (forall fuel, chunkLoop fuel (lit "abc") 0 0 = None)
  /\ chunkTextForSpeech (lit "abc") 0 = None.
Proof. apply (chunk_zero_never_returns (lit "abc")). reflexivity. Defined.

(** X3: when the text is longer than a positive maximum, every chunk
    returned is non-empty and has no white space at either end. *)
Theorem cut_chunks_are_trimmed (text : jsstring) (N : Z) :
  0 < N -> N < len text ->
  exists chunks,
    chunkTextForSpeech text N = Some chunks
    /\ Forall (fun c => 0 < len c /\ trim c = c) chunks.
Proof.
  intros HN Hlong. unfold chunkTextForSpeech.
  destruct (Z.leb_spec (len text) N); [lia|].
  destruct (chunkLoop_pieces (List.length text) text N 0 HN)
    as [pieces [Hloop _]].
  - pose proof (len_nonneg text). lia.
  - unfold len. lia.
  - rewrite Hloop. simpl.
    exists (filter (fun chunk => 0 <? len chunk) (map trim pieces)).
    split; [reflexivity|].
    apply Forall_forall. intros c Hc.
    apply filter_In in Hc. destruct Hc as [Hc Hpos].
    apply in_map_iff in Hc. destruct Hc as [p [Hp _]]. subst c.
    split; [apply Z.ltb_lt; exact Hpos|apply trim_idempotent].
Qed.

Lemma cut_chunks_are_trimmed_witness :
  exists chunks,
    chunkTextForSpeech (lit "One two.  Three four. Five") 12 = Some chunks
    /\ Forall (fun c => 0 < len c /\ trim c = c) chunks.
Proof.
  apply (cut_chunks_are_trimmed (lit "One two.  Three four. Five") 12);
    reflexivity.
Defined.

End ChunkerFacts.

(* ================================================================== *)
(** * Properties of the playback state machine *)
(* ================================================================== *)

Module SpeechFacts.

Import JsFacts ChunkerFacts Speech.

(** ** [startReading] on the empty string *)

(** C10: [startReading('', p)] returns the hook state it was given: no
    session field changes, nothing is cancelled or spoken, and the chunk
    list, the cursors and the flags are untouched; the same holds when the
    call is made through the returned function during playback. *)
Theorem startReading_empty_noop (cfg : SpeechSettings) (fromPosition now : Z) (h : Hook) :
  startReading cfg [] fromPosition now h = h
  /\ step (StartReading (lit "") fromPosition now) h = h.
Proof. split; reflexivity. Qed.

(** ** What [speakNextChunk] does *)

Lemma speakNextChunk_some (cfg : SpeechSettings) (h : Hook) (chunk : jsstring) :
  nth_error (chunksRef h) (currentChunkIndexRef h) = Some chunk ->
  speakNextChunk cfg h
  = call (Speak (mkUtterance cfg chunk))
         (setUtteranceRef (Some (mkUtterance cfg chunk)) h).
Proof. intro H. unfold speakNextChunk. rewrite H. reflexivity. Qed.

Lemma speakNextChunk_none (cfg : SpeechSettings) (h : Hook) :
  nth_error (chunksRef h) (currentChunkIndexRef h) = None ->
  speakNextChunk cfg h
  = setIsChunkedPlaybackRef false
      (setSession (fun prev =>
         {| content := content prev;
            currentPosition := totalCharacters prev;
            isPlaying := false; isPaused := false;
            totalCharacters := totalCharacters prev |}) h).
Proof. intro H. unfold speakNextChunk. rewrite H. reflexivity. Qed.

Lemma speakNextChunk_flags (cfg : SpeechSettings) (h : Hook) :
  flagsExclusive h = true -> flagsExclusive (speakNextChunk cfg h) = true.
Proof.
  intro H. unfold speakNextChunk.
  destruct (nth_error (chunksRef h) (currentChunkIndexRef h)); [exact H|reflexivity].
Qed.

Lemma startReading_flags (cfg : SpeechSettings) (content0 : jsstring)
  (fromPosition now : Z) (h : Hook) :
  flagsExclusive h = true ->
  flagsExclusive (startReading cfg content0 fromPosition now h) = true.
Proof.
  intro H. unfold startReading. destruct content0; [exact H|].
  apply speakNextChunk_flags. reflexivity.
Qed.

Lemma speakNextChunk_settings (cfg : SpeechSettings) (h : Hook) :
  settings (speakNextChunk cfg h) = settings h.
Proof.
  unfold speakNextChunk.
  destruct (nth_error (chunksRef h) (currentChunkIndexRef h)); reflexivity.
Qed.

Lemma startReading_settings (cfg : SpeechSettings) (content0 : jsstring)
  (fromPosition now : Z) (h : Hook) :
  settings (startReading cfg content0 fromPosition now h) = settings h.
Proof.
  unfold startReading. destruct content0; [reflexivity|].
  cbv zeta. rewrite speakNextChunk_settings. reflexivity.
Qed.

Lemma loadVoices_session (voices : list Voice) (cfg : SpeechSettings) (h : Hook) :
  session (loadVoices voices cfg h) = session h.
Proof.
  unfold loadVoices.
  destruct (find _ voices); [destruct (voice cfg)|]; reflexivity.
Qed.

Lemma settingsEffect_flags (cfg : SpeechSettings) (ses : ReadingSession)
  (now : Z) (h : Hook) :
  flagsExclusive h = true -> flagsExclusive (settingsEffect cfg ses now h) = true.
Proof.
  intro H. unfold settingsEffect.
  destruct (isPlaying ses && negb (isPaused ses)); [|exact H].
  apply startReading_flags. exact H.
Qed.

Lemma commitEffects_flags (voices : list Voice) (now : Z)
  (prev : SpeechSettings) (h : Hook) :
  flagsExclusive h = true -> flagsExclusive (commitEffects voices now prev h) = true.
Proof.
  intro H. unfold commitEffects.
  assert (H1 : flagsExclusive
                 (if voiceDepSame (voice prev) (voice (settings h)) then h
                  else loadVoices voices (settings h) h) = true).
  { destruct (voiceDepSame _ _); [exact H|].
    unfold flagsExclusive. rewrite loadVoices_session. exact H. }
  destruct (settingsDepsSame prev (settings h)); [exact H1|].
  apply settingsEffect_flags. exact H1.
Qed.

(** C9: every transition of the engine - a call of [startReading],
    [pauseReading], [resumeReading], [stopReading] or [updateSettings]
    (with the renders and effects it causes), a timer, a [voiceschanged]
    event, or an utterance callback - keeps [session.isPlaying] and
    [session.isPaused] from being true together. *)
Theorem step_flagsExclusive (e : Event) (h : Hook) :
  flagsExclusive h = true -> flagsExclusive (step e h) = true.
Proof.
  intro H. destruct e; simpl step.
  - apply startReading_flags. exact H.
  - unfold pauseReading. destruct (actionLockRef h); [exact H|reflexivity].
  - unfold pauseFallbackTimer. destruct (negb paused && speaking); exact H.
  - unfold resumeReading.
    destruct (isPaused (session h) && (0 <? List.length (chunksRef h))%nat);
      [|exact H].
    destruct (actionLockRef h); [exact H|reflexivity].
  - exact H.
  - reflexivity.
  - exact H.
  - unfold updateSettingsAndRender.
    apply commitEffects_flags, commitEffects_flags. exact H.
  - unfold voicesChanged. apply commitEffects_flags.
    unfold flagsExclusive. rewrite loadVoices_session. exact H.
  - destruct name; exact H.
  - exact H.
  - unfold chunkTimer. destruct (isChunkedPlaybackRef h); [|exact H].
    apply speakNextChunk_flags. exact H.
  - unfold onerror.
    destruct (Js.eqb error (lit "interrupted")
              && (isStoppingRef h || (now - lastCancelAtRef h <? 1000)));
      [exact H|].
    destruct (negb (isStoppingRef (setIsChunkedPlaybackRef false h))
              && negb (now - lastCancelAtRef h <? 1000)); [reflexivity|exact H].
Qed.

Lemma step_flagsExclusive_witness :
  flagsExclusive (step (StartReading (lit "Hello world") 0 0) initial) = true.
Proof.
  apply (step_flagsExclusive (StartReading (lit "Hello world") 0 0) initial).
  reflexivity.
Defined.

(** ** Stopping *)

Lemma completions_gated (es : list Event) (h : Hook) :
  forallb isCompletion es = true -> isChunkedPlaybackRef h = false ->
  session (run es h) = session h /\ synth (run es h) = synth h
  /\ chunksRef (run es h) = chunksRef h
  /\ utteranceRef (run es h) = utteranceRef h
  /\ isChunkedPlaybackRef (run es h) = false.
Proof.
  revert h. induction es as [|e es IH]; intros h Hes Hflag.
  - simpl. auto.
  - simpl in Hes. apply andb_prop in Hes. destruct Hes as [He Hes].
    unfold run in *. simpl fold_left.
    destruct e; try discriminate He.
    + destruct (IH (step (OnEnd chunk) h) Hes Hflag) as [A [B [C [D E]]]].
      repeat split; assumption.
    + assert (Hs : step (ChunkTimer cfg) h = h)
        by (simpl; unfold chunkTimer; rewrite Hflag; reflexivity).
      rewrite Hs. apply IH; assumption.
Qed.

Lemma completions_cursors (es : list Event) (h : Hook) :
  forallb isCompletion es = true -> isChunkedPlaybackRef h = false ->
  run es h
  = setCurrentChunkIndexRef (currentChunkIndexRef h + endedChunks es)%nat
      (setAccumulatedCharactersRef
         (accumulatedCharactersRef h + endedCharacters es) h).
Proof.
  revert h. induction es as [|e es IH]; intros h Hes Hflag.
  - simpl. rewrite Nat.add_0_r, Z.add_0_r. destruct h; reflexivity.
  - simpl in Hes. apply andb_prop in Hes. destruct Hes as [He Hes].
    unfold run in *. simpl fold_left.
    destruct e; try discriminate He.
    + rewrite (IH (step (OnEnd chunk) h) Hes Hflag).
      destruct h. cbn. unfold setCurrentChunkIndexRef, setAccumulatedCharactersRef.
      cbn. f_equal; lia.
    + assert (Hs : step (ChunkTimer cfg) h = h)
        by (simpl; unfold chunkTimer; rewrite Hflag; reflexivity).
      rewrite Hs. apply IH; assumption.
Qed.

Lemma startReading_forgets_cursors (cfg : SpeechSettings) (content0 : jsstring)
  (fromPosition now : Z) (n : nat) (a : Z) (h : Hook) :
  content0 <> [] ->
  startReading cfg content0 fromPosition now
    (setCurrentChunkIndexRef n (setAccumulatedCharactersRef a h))
  = startReading cfg content0 fromPosition now h.
Proof.
  intro Hne. unfold startReading.
  destruct content0 as [|c cs]; [contradiction Hne; reflexivity|].
  reflexivity.
Qed.

(** C3 (amended): from any state [stopReading] issues one [cancel], leaves
    [currentPosition = 0] and both flags false, empties the chunk list,
    zeroes both cursors and clears the chunked-playback flag.  Whatever
    stale completion callbacks ([onend] and its 50 ms timer) fire after
    it, in any number and order, the session stays as [stopReading] left
    it, nothing more is said to [speechSynthesis], the chunk list stays
    empty and the flag stays cleared: the flag stops each timer before
    [speakNextChunk].  The two cursors are not gated: each stale [onend]
    still increments [currentChunkIndexRef] and adds its chunk's length to
    [accumulatedCharactersRef].  The next [startReading] on text resets
    them, and ends in the state it would reach had no stale callback
    fired. *)
Theorem stopReading_resets (now : Z) (h : Hook) (stale : list Event) :
  forallb isCompletion stale = true ->
  currentPosition (session (stopReading now h)) = 0
  /\ isPlaying (session (stopReading now h)) = false
  /\ isPaused (session (stopReading now h)) = false
  /\ chunksRef (stopReading now h) = []
  /\ currentChunkIndexRef (stopReading now h) = 0%nat
  /\ accumulatedCharactersRef (stopReading now h) = 0
  /\ isChunkedPlaybackRef (stopReading now h) = false
  /\ synth (stopReading now h) = synth h ++ [Cancel]
  /\ session (run stale (stopReading now h)) = session (stopReading now h)
  /\ synth (run stale (stopReading now h)) = synth (stopReading now h)
  /\ chunksRef (run stale (stopReading now h)) = []
  /\ isChunkedPlaybackRef (run stale (stopReading now h)) = false
  /\ currentChunkIndexRef (run stale (stopReading now h)) = endedChunks stale
  /\ accumulatedCharactersRef (run stale (stopReading now h))
     = endedCharacters stale
  /\ (forall (cfg : SpeechSettings) (content0 : jsstring) (fromPosition now' : Z),
        content0 <> [] ->
        startReading cfg content0 fromPosition now' (run stale (stopReading now h))
        = startReading cfg content0 fromPosition now' (stopReading now h)).
Proof.
  intro Hstale.
  destruct (completions_gated stale (stopReading now h) Hstale eq_refl)
    as [A [B [C [_ E]]]].
  pose proof (completions_cursors stale (stopReading now h) Hstale eq_refl) as R.
  do 8 (split; [reflexivity|]).
  do 4 (split; [assumption|]).
  split; [rewrite R; reflexivity|].
  split; [rewrite R; reflexivity|].
  intros cfg content0 fromPosition now' Hne.
  rewrite R. apply startReading_forgets_cursors. exact Hne.
Qed.

Lemma stopReading_resets_witness :
  currentPosition (session (stopReading 5 (startReading (settings initial)
     (lit "Hello world") 0 0 initial))) = 0
  /\ session (run [OnEnd (lit "Hello world"); ChunkTimer (settings initial)]
        (stopReading 5 (startReading (settings initial) (lit "Hello world") 0 0 initial)))
     = session (stopReading 5 (startReading (settings initial)
         (lit "Hello world") 0 0 initial))
  /\ currentChunkIndexRef
       (run [OnEnd (lit "Hello world"); ChunkTimer (settings initial)]
          (stopReading 5 (startReading (settings initial) (lit "Hello world") 0 0 initial)))
     = endedChunks [OnEnd (lit "Hello world"); ChunkTimer (settings initial)].
Proof.
  pose proof (stopReading_resets 5
    (startReading (settings initial) (lit "Hello world") 0 0 initial)
    [OnEnd (lit "Hello world"); ChunkTimer (settings initial)] eq_refl) as H.
  split; [apply H|]. split; apply H.
Defined.

(** C3, counterexample to the claim as stated: playback of
    ['Hello world'] is stopped and the stale [onend] of its only chunk,
    with the timer it sets, fires afterwards.  The cursors, zero right
    after [stopReading], are then 1 and 11; the chunked-playback flag did
    not gate them. *)
Lemma stale_onend_moves_cursors :
  currentChunkIndexRef
    (stopReading 5 (startReading (settings initial) (lit "Hello world") 0 0 initial))
  = 0%nat
  /\ accumulatedCharactersRef
       (stopReading 5 (startReading (settings initial) (lit "Hello world") 0 0 initial))
     = 0
  /\ isChunkedPlaybackRef
       (stopReading 5 (startReading (settings initial) (lit "Hello world") 0 0 initial))
     = false
  /\ currentChunkIndexRef
       (run [OnEnd (lit "Hello world"); ChunkTimer (settings initial)]
          (stopReading 5 (startReading (settings initial) (lit "Hello world") 0 0 initial)))
     = 1%nat
  /\ accumulatedCharactersRef
       (run [OnEnd (lit "Hello world"); ChunkTimer (settings initial)]
          (stopReading 5 (startReading (settings initial) (lit "Hello world") 0 0 initial)))
     = 11.
Proof.
  repeat split; vm_compute; reflexivity.
Qed.

(** ** [startReading] on text *)

Lemma startReading_speaks (cfg : SpeechSettings) (content0 : jsstring)
  (fromPosition now : Z) (h : Hook) (chunk : jsstring) (rest : list jsstring) :
  0 < len content0 ->
  chunkTextForSpeechDefault (sliceFrom content0 fromPosition) = chunk :: rest ->
  startReading cfg content0 fromPosition now h
  = {| session := {| content := content0; currentPosition := fromPosition;
                     isPlaying := true; isPaused := false;
                     totalCharacters := len content0 |};
       settings := settings h;
       availableVoices := availableVoices h;
       utteranceRef := Some (mkUtterance cfg chunk);
       chunksRef := chunk :: rest;
       currentChunkIndexRef := 0%nat;
       accumulatedCharactersRef := fromPosition;
       isChunkedPlaybackRef := true;
       isStoppingRef := false;
       lastCancelAtRef := now;
       actionLockRef := actionLockRef h;
       synth := (synth h ++ [Cancel]) ++ [Speak (mkUtterance cfg chunk)] |}.
Proof.
  intros Hlen Hchunks. unfold startReading.
  destruct content0 as [|c cs]; [discriminate Hlen|].
  cbv zeta. rewrite Hchunks. reflexivity.
Qed.

Lemma startReading_exhausted (cfg : SpeechSettings) (content0 : jsstring)
  (fromPosition now : Z) (h : Hook) :
  0 < len content0 ->
  chunkTextForSpeechDefault (sliceFrom content0 fromPosition) = [] ->
  startReading cfg content0 fromPosition now h
  = {| session := {| content := content0; currentPosition := len content0;
                     isPlaying := false; isPaused := false;
                     totalCharacters := len content0 |};
       settings := settings h;
       availableVoices := availableVoices h;
       utteranceRef := utteranceRef h;
       chunksRef := [];
       currentChunkIndexRef := 0%nat;
       accumulatedCharactersRef := fromPosition;
       isChunkedPlaybackRef := false;
       isStoppingRef := false;
       lastCancelAtRef := now;
       actionLockRef := actionLockRef h;
       synth := synth h ++ [Cancel] |}.
Proof.
  intros Hlen Hchunks. unfold startReading.
  destruct content0 as [|c cs]; [discriminate Hlen|].
  cbv zeta. rewrite Hchunks. reflexivity.
Qed.

Lemma hasText_not_allWhite (s : jsstring) : hasText s = true -> ~ allWhite s.
Proof.
  unfold hasText, allWhite. induction s as [|c s IH]; simpl; intros H A.
  - discriminate.
  - apply andb_prop in A. destruct A as [Ac As].
    rewrite Ac in H. simpl in H. exact (IH H As).
Qed.

(** Text that holds more than white space yields at least one chunk. *)
Lemma hasText_chunks (text : jsstring) :
  hasText text = true ->
  exists chunk rest, chunkTextForSpeechDefault text = chunk :: rest.
Proof.
  intro H. pose proof (chunkTextForSpeechDefault_Stitched text) as S.
  destruct (chunkTextForSpeechDefault text) as [|chunk rest].
  - exfalso. inversion S as [g Hg E1 E2|]. subst.
    exact (hasText_not_allWhite text H Hg).
  - exists chunk, rest. reflexivity.
Qed.

Lemma sliceFrom_nil (p : Z) : sliceFrom [] p = [].
Proof. unfold sliceFrom, slice. rewrite skipn_nil, firstn_nil. reflexivity. Qed.

(** ** Changing the settings during playback *)

Lemma voiceEqb_refl (v : Voice) : voiceEqb v v = true.
Proof. unfold voiceEqb. rewrite !eqb_refl. reflexivity. Qed.

Lemma voiceDepSame_refl (v : option Voice) : voiceDepSame v v = true.
Proof. destruct v; simpl; [apply voiceEqb_refl|reflexivity]. Qed.

Lemma Qc_eq_bool_refl (q : Qc) : Qc_eq_bool q q = true.
Proof. unfold Qc_eq_bool. destruct (Qc_eq_dec q q); congruence. Qed.

Lemma settingsDepsSame_refl (s : SpeechSettings) : settingsDepsSame s s = true.
Proof.
  unfold settingsDepsSame. rewrite voiceDepSame_refl, !Qc_eq_bool_refl. reflexivity.
Qed.

Lemma loadVoices_settled (voices : list Voice) (cfg : SpeechSettings) (h : Hook) :
  voiceSettled voices cfg = true ->
  loadVoices voices cfg h = setAvailableVoices voices h.
Proof.
  unfold voiceSettled, loadVoices. intro H. cbv zeta.
  destruct (voice cfg); destruct (find _ voices); try reflexivity; discriminate.
Qed.

(** A render whose settings equal the previous render's runs no effect. *)
Lemma commitEffects_stable (voices : list Voice) (now : Z) (h : Hook) :
  commitEffects voices now (settings h) h = h.
Proof.
  unfold commitEffects. rewrite voiceDepSame_refl, settingsDepsSame_refl. reflexivity.
Qed.

Lemma commitEffects_settled (voices : list Voice) (now : Z)
  (prev : SpeechSettings) (h : Hook) :
  settings h = prev -> commitEffects voices now prev h = h.
Proof. intro H. subst prev. apply commitEffects_stable. Qed.

(** C8, amended: while the engine is playing and text is left from the
    current position on, a single [updateSettings] call that changes one of
    rate, pitch, volume and voice, and after which no default voice is
    waiting to be filled in (the new settings name a voice, or the browser
    offers no English voice), causes exactly one restart: the settings
    effect cancels once and calls [startReading(session.content, p)] once
    with the new settings, [p] being the position before the call; that
    call cancels once more and speaks the first chunk.  Afterwards
    [isPlaying] is true, [isPaused] false and [currentPosition] is [p].
    (When the voice is among the changes, the voice-loading effect has
    refreshed [availableVoices] before the restart.) *)
Theorem updateSettings_one_restart (newSettings : PartialSettings)
  (voices : list Voice) (now1 now2 : Z) (h : Hook) :
  isPlaying (session h) = true -> isPaused (session h) = false ->
  settingsDepsSame (settings h) (mergeSettings (settings h) newSettings) = false ->
  voiceSettled voices (mergeSettings (settings h) newSettings) = true ->
  hasText (sliceFrom (content (session h)) (currentPosition (session h))) = true ->
  updateSettingsAndRender newSettings voices now1 now2 h
  = startReading (mergeSettings (settings h) newSettings)
      (content (session h)) (currentPosition (session h)) now1
      (cancelForRestart now1
         (if voiceDepSame (voice (settings h))
                          (voice (mergeSettings (settings h) newSettings))
          then updateSettings newSettings h
          else setAvailableVoices voices (updateSettings newSettings h)))
  /\ (exists chunk,
        synth (updateSettingsAndRender newSettings voices now1 now2 h)
        = synth h ++ [Cancel; Cancel;
                      Speak (mkUtterance (mergeSettings (settings h) newSettings) chunk)])
  /\ isPlaying (session (updateSettingsAndRender newSettings voices now1 now2 h)) = true
  /\ isPaused (session (updateSettingsAndRender newSettings voices now1 now2 h)) = false
  /\ currentPosition (session (updateSettingsAndRender newSettings voices now1 now2 h))
     = currentPosition (session h)
  /\ settings (updateSettingsAndRender newSettings voices now1 now2 h)
     = mergeSettings (settings h) newSettings.
Proof.
  intros Hplay Hpause Hchanged Hsettled Htext.
  destruct (hasText_chunks _ Htext) as [chunk [rest Hchunks]].
  assert (Hlen : 0 < len (content (session h))).
  { destruct (content (session h)) as [|c cs] eqn:E.
    - rewrite sliceFrom_nil in Htext. discriminate.
    - reflexivity. }
  set (new := mergeSettings (settings h) newSettings) in *.
  set (h1 := if voiceDepSame (voice (settings h)) (voice new)
             then updateSettings newSettings h
             else setAvailableVoices voices (updateSettings newSettings h)).
  assert (Hh1 : settings h1 = new /\ session h1 = session h /\ synth h1 = synth h).
  { unfold h1. destruct (voiceDepSame (voice (settings h)) (voice new));
      repeat split; reflexivity. }
  destruct Hh1 as [Hset1 [Hses1 Hsyn1]].
  assert (Hfirst :
    commitEffects voices now1 (settings h) (updateSettings newSettings h)
    = startReading new (content (session h)) (currentPosition (session h)) now1
        (cancelForRestart now1 h1)).
  { unfold commitEffects.
    change (settings (updateSettings newSettings h)) with new.
    rewrite Hchanged.
    rewrite (loadVoices_settled voices new (updateSettings newSettings h) Hsettled).
    fold h1. unfold settingsEffect.
    change (session (updateSettings newSettings h)) with (session h).
    rewrite Hplay, Hpause. reflexivity. }
  assert (Hall : updateSettingsAndRender newSettings voices now1 now2 h
    = startReading new (content (session h)) (currentPosition (session h)) now1
        (cancelForRestart now1 h1)).
  { unfold updateSettingsAndRender. cbv zeta. rewrite Hfirst.
    apply commitEffects_settled.
    rewrite startReading_settings. exact Hset1. }
  rewrite Hall.
  rewrite (startReading_speaks _ _ _ _ _ chunk rest Hlen Hchunks).
  split; [reflexivity|]. split.
  - exists chunk. cbn [synth cancelForRestart setIsChunkedPlaybackRef
      setIsStoppingRef call setLastCancelAtRef].
    rewrite Hsyn1, <- !app_assoc. reflexivity.
  - cbn [session settings isPlaying isPaused currentPosition cancelForRestart
      setIsChunkedPlaybackRef setIsStoppingRef call setLastCancelAtRef].
    rewrite Hset1. repeat split; reflexivity.
Qed.

Lemma updateSettings_one_restart_witness :
  updateSettingsAndRender doubleRate [englishVoice] 1 2 playingHook
  = startReading (mergeSettings (settings playingHook) doubleRate)
      (content (session playingHook)) (currentPosition (session playingHook)) 1
      (cancelForRestart 1 (updateSettings doubleRate playingHook))
  /\ isPlaying (session (updateSettingsAndRender doubleRate [englishVoice] 1 2
                           playingHook)) = true.
Proof.
  pose proof (updateSettings_one_restart doubleRate [englishVoice] 1 2 playingHook
                eq_refl eq_refl eq_refl eq_refl eq_refl) as H.
  split; [apply H|apply H].
Defined.

(** C8 as stated fails: with an English voice on offer, the single call
    [updateSettings({ voice: undefined })] during playback restarts twice.
    The settings effect restarts for the cleared voice, the voice-loading
    effect fills in the English voice, and the settings effect restarts
    again for that change. *)
Lemma updateSettings_two_restarts :
  isPlaying (session playingHook) = true
  /\ isPaused (session playingHook) = false
  /\ synth (updateSettingsAndRender noVoice [englishVoice] 1 2 playingHook)
     = synth playingHook
       ++ [Cancel; Cancel;
           Speak (mkUtterance {| rate := 1; pitch := 1; volume := 1; voice := None |}
                    (lit "Hello world"));
           Cancel; Cancel;
           Speak (mkUtterance {| rate := 1; pitch := 1; volume := 1;
                                 voice := Some englishVoice |}
                    (lit "Hello world"))].
Proof. repeat split; reflexivity. Qed.

(** ** Positions during uninterrupted playback *)

Lemma nonDecreasingFrom_weaken (lo lo' : Z) (l : list Z) :
  lo' <= lo -> nonDecreasingFrom lo l -> nonDecreasingFrom lo' l.
Proof. destruct l; simpl; intros; [trivial|]. intuition lia. Qed.

Lemma boundaries_cons (i : Z) (rest : list Z) (h : Hook) :
  boundaries (i :: rest) h
  = (fst (boundaries rest (onboundary Word i h)),
     currentPosition (session (onboundary Word i h))
       :: snd (boundaries rest (onboundary Word i h))).
Proof.
  cbn [boundaries]. destruct (boundaries rest (onboundary Word i h)). reflexivity.
Qed.

Lemma boundaries_spec (charIndexes : list Z) :
  forall (h : Hook) (lo L : Z),
  nonDecreasingFrom lo charIndexes -> Forall (fun i => i <= L) charIndexes ->
  lo <= L ->
  currentPosition (session h) <= accumulatedCharactersRef h + lo ->
  chunksRef (fst (boundaries charIndexes h)) = chunksRef h
  /\ currentChunkIndexRef (fst (boundaries charIndexes h)) = currentChunkIndexRef h
  /\ accumulatedCharactersRef (fst (boundaries charIndexes h))
     = accumulatedCharactersRef h
  /\ isChunkedPlaybackRef (fst (boundaries charIndexes h)) = isChunkedPlaybackRef h
  /\ totalCharacters (session (fst (boundaries charIndexes h)))
     = totalCharacters (session h)
  /\ currentPosition (session (fst (boundaries charIndexes h)))
     <= accumulatedCharactersRef h + L
  /\ forall tail,
       nonDecreasingFrom
         (currentPosition (session (fst (boundaries charIndexes h)))) tail ->
       nonDecreasingFrom (currentPosition (session h))
         (snd (boundaries charIndexes h) ++ tail).
Proof.
  induction charIndexes as [|i rest IH]; intros h lo L Hsorted Hall HloL Hpos.
  - simpl. do 5 (split; [reflexivity|]). split; [lia|]. intros tail H. exact H.
  - simpl in Hsorted. destruct Hsorted as [Hlo Hrest].
    inversion Hall as [|? ? HiL Hall']. subst.
    specialize (IH (onboundary Word i h) i L Hrest Hall' HiL).
    rewrite boundaries_cons. cbn [fst snd].
    destruct IH as [A [B [C [D [T [P Q]]]]]]; [simpl; lia|].
    do 6 (split; [assumption|]).
    intros tail Htail. rewrite <- app_comm_cons.
    split; [simpl; lia|]. apply Q. exact Htail.
Qed.

Lemma playback_cons (cfg : SpeechSettings) (charIndexes : list Z)
  (rest : list (list Z)) (h : Hook) (chunk : jsstring) :
  nth_error (chunksRef h) (currentChunkIndexRef h) = Some chunk ->
  playback cfg (charIndexes :: rest) h
  = snd (boundaries charIndexes h)
    ++ currentPosition (session (onend chunk (fst (boundaries charIndexes h))))
    :: currentPosition
         (session (chunkTimer cfg (onend chunk (fst (boundaries charIndexes h)))))
    :: playback cfg rest
         (chunkTimer cfg (onend chunk (fst (boundaries charIndexes h)))).
Proof.
  intro H. cbn [playback]. rewrite H. destruct (boundaries charIndexes h). reflexivity.
Qed.

Lemma skipn_cons_nth {A : Type} (l : list A) (i : nat) (x : A) (m : list A) :
  skipn i l = x :: m -> nth_error l i = Some x /\ skipn (S i) l = m.
Proof.
  revert l. induction i as [|i IH]; intros l H.
  - destruct l; simpl in H; [discriminate|]. injection H as -> ->. auto.
  - destruct l; simpl in H; [discriminate|]. apply IH in H. exact H.
Qed.

Lemma skipn_nil_nth {A : Type} (l : list A) (i : nat) :
  skipn i l = [] -> nth_error l i = None.
Proof.
  revert l. induction i as [|i IH]; intros l H.
  - destruct l; simpl in H; [reflexivity|discriminate].
  - destruct l; simpl in H; [reflexivity|]. simpl. apply IH. exact H.
Qed.

Lemma playback_spec (cfg : SpeechSettings) (chunks : list jsstring) :
  forall (script : list (list Z)) (h : Hook) (i : nat),
  script <> [] ->
  chunksRef h = chunks ->
  currentChunkIndexRef h = i ->
  isChunkedPlaybackRef h = true ->
  Forall2 (fun charIndexes chunk => boundariesOf chunk charIndexes)
          script (skipn i chunks) ->
  currentPosition (session h) <= accumulatedCharactersRef h ->
  accumulatedCharactersRef h + len (List.concat (skipn i chunks))
    <= totalCharacters (session h) ->
  nonDecreasingFrom (currentPosition (session h)) (playback cfg script h)
  /\ exists front, playback cfg script h = front ++ [totalCharacters (session h)].
Proof.
  induction script as [|charIndexes rest IH];
    intros h i Hne Hchunks Hi Hflag Hfit Hpos Htotal.
  - congruence.
  - inversion Hfit as [|? chunk ? more [Hsorted Hall] Hfit' E1 E2]. subst.
    symmetry in E2. destruct (skipn_cons_nth _ _ _ _ E2) as [Hnth Hmore].
    rewrite E2 in Htotal. simpl List.concat in Htotal. rewrite len_app in Htotal.
    rewrite (playback_cons cfg charIndexes rest h chunk Hnth).
    pose proof (boundaries_spec charIndexes h 0 (len chunk) Hsorted Hall
                  (len_nonneg chunk)) as B.
    set (h1 := fst (boundaries charIndexes h)) in *.
    set (seen := snd (boundaries charIndexes h)) in *.
    destruct B as [B1 [B2 [B3 [B4 [B5 [B6 B7]]]]]]; [lia|].
    set (h2 := onend chunk h1).
    assert (Hflag2 : isChunkedPlaybackRef h2 = true) by (simpl; congruence).
    assert (Hs2 : session h2 = session h1) by reflexivity.
    assert (Hc2 : chunksRef h2 = chunksRef h) by exact B1.
    assert (Hi2 : currentChunkIndexRef h2 = S (currentChunkIndexRef h))
      by (simpl; congruence).
    assert (Ha2 : accumulatedCharactersRef h2
                  = accumulatedCharactersRef h + len chunk)
      by (simpl; congruence).
    unfold chunkTimer. rewrite Hflag2.
    pose proof (len_nonneg (List.concat more)) as Hmorelen.
    destruct more as [|chunk2 more'].
    + inversion Hfit'. subst.
      assert (Hnone : nth_error (chunksRef h2) (currentChunkIndexRef h2) = None).
      { rewrite Hc2, Hi2. apply skipn_nil_nth. exact Hmore. }
      rewrite (speakNextChunk_none cfg h2 Hnone).
      cbn [playback session setIsChunkedPlaybackRef setSession currentPosition].
      rewrite Hs2, B5. split.
      * apply B7. simpl. split; [lia|]. split; [|trivial].
        change (len (List.concat [])) with 0 in Htotal. lia.
      * exists (seen ++ [currentPosition (session h1)]).
        rewrite <- app_assoc. reflexivity.
    + inversion Hfit' as [|charIndexes2 ? rest' ? Hfit2 Hfit'' E3 E4]. subst.
      destruct (skipn_cons_nth _ _ _ _ Hmore) as [Hnth2 _].
      assert (Hsome : nth_error (chunksRef h2) (currentChunkIndexRef h2) = Some chunk2).
      { rewrite Hc2, Hi2. exact Hnth2. }
      rewrite (speakNextChunk_some cfg h2 chunk2 Hsome).
      set (h3 := call (Speak (mkUtterance cfg chunk2))
                   (setUtteranceRef (Some (mkUtterance cfg chunk2)) h2)).
      assert (Hs3 : session h3 = session h1) by reflexivity.
      destruct (IH h3 (S (currentChunkIndexRef h))) as [IH1 [front IH2]].
      * discriminate.
      * exact Hc2.
      * exact Hi2.
      * exact Hflag2.
      * rewrite Hmore. exact Hfit'.
      * rewrite Hs3. change (accumulatedCharactersRef h3)
          with (accumulatedCharactersRef h2). rewrite Ha2. exact B6.
      * rewrite Hs3, Hmore. change (accumulatedCharactersRef h3)
          with (accumulatedCharactersRef h2). rewrite Ha2, B5. lia.
      * rewrite Hs3 in IH1, IH2. rewrite B5 in IH2. rewrite Hs2, Hs3. split.
        -- apply B7. simpl. split; [lia|]. split; [lia|]. exact IH1.
        -- exists (seen ++ currentPosition (session h1)
                        :: currentPosition (session h1) :: front).
           rewrite IH2. rewrite <- app_assoc. reflexivity.
Qed.

(** C4, amended: let playback be started by one [startReading(content, p)]
    call with non-empty [content] and [0 <= p <= content.length], and let
    nothing but the utterances' own events follow - for each chunk in
    turn, word boundaries whose [charIndex] values lie within the chunk and
    do not decrease, then [onend], then the 50 ms timer.  Then the
    values [session.currentPosition] takes never decrease, starting at
    [p], and the last one is [totalCharacters]. *)
Theorem playback_position_monotone (cfg : SpeechSettings) (content0 : jsstring)
  (fromPosition now : Z) (script : list (list Z)) (h : Hook) :
  0 < len content0 ->
  0 <= fromPosition <= len content0 ->
  Forall2 (fun charIndexes chunk => boundariesOf chunk charIndexes) script
          (chunkTextForSpeechDefault (sliceFrom content0 fromPosition)) ->
  nonDecreasingFrom fromPosition
    (positionsFrom cfg content0 fromPosition now script h)
  /\ exists front,
       positionsFrom cfg content0 fromPosition now script h
       = front ++ [len content0].
Proof.
  intros Hlen Hfrom Hfit. unfold positionsFrom. cbv zeta.
  pose proof (chunkTextForSpeechDefault_Stitched (sliceFrom content0 fromPosition)) as S.
  apply Stitched_len in S. rewrite len_sliceFrom in S by assumption.
  destruct (chunkTextForSpeechDefault (sliceFrom content0 fromPosition))
    as [|chunk more] eqn:Hchunks.
  - inversion Hfit. subst.
    rewrite (startReading_exhausted cfg content0 fromPosition now h Hlen Hchunks).
    simpl. split; [lia|]. exists []. reflexivity.
  - rewrite (startReading_speaks cfg content0 fromPosition now h chunk more Hlen Hchunks).
    match goal with
    | |- context [playback cfg script ?r] =>
        destruct (playback_spec cfg (chunk :: more) script r 0%nat)
          as [P1 [front P2]]
    end.
    + inversion Hfit. discriminate.
    + reflexivity.
    + reflexivity.
    + reflexivity.
    + exact Hfit.
    + simpl. lia.
    + simpl skipn. simpl accumulatedCharactersRef. simpl totalCharacters. lia.
    + simpl in P1, P2. simpl. split; [split; [lia|exact P1]|].
      exists (fromPosition :: front). rewrite P2. reflexivity.
Qed.

Lemma playback_position_monotone_witness :
  nonDecreasingFrom 0
    (positionsFrom (settings initial) (lit "Hello world") 0 0 [[0; 6]] initial)
  /\ exists front,
       positionsFrom (settings initial) (lit "Hello world") 0 0 [[0; 6]] initial
       = front ++ [len (lit "Hello world")].
Proof.
  apply (playback_position_monotone (settings initial) (lit "Hello world") 0 0
           [[0; 6]] initial).
  - reflexivity.
  - vm_compute. split; discriminate.
  - vm_compute. repeat constructor; discriminate.
Defined.

(** C4 as stated fails: started beyond the end of the content, the
    position begins at [fromPosition] and falls back to [totalCharacters]
    when the (empty) chunk list is exhausted. *)
Lemma playback_position_decreases :
  positionsFrom (settings initial) (lit "abc") 10 0 [[]] initial = [10; 10; 3].
Proof. reflexivity. Qed.

(** ** Pausing, resuming and errors *)

(** X4: a second [pauseReading] call made before the 120 ms timer has
    released the action lock changes nothing: pausing twice is pausing
    once, from any state. *)
Theorem pauseReading_twice (h : Hook) :
  pauseReading (pauseReading h) = pauseReading h.
Proof.
  unfold pauseReading. destruct (actionLockRef h) eqn:E.
  - rewrite E. reflexivity.
  - reflexivity.
Qed.

(** X5: pausing, letting the 120 ms fallback timer fire, and resuming
    restarts playback where it was paused: the session has the same
    content, the position held at the pause, [isPlaying] true and
    [isPaused] false, and the chunk list is rebuilt from that position
    on.  This needs a free action lock, a non-empty chunk list and text
    left from the position on. *)
Theorem pause_then_resume (cfg : SpeechSettings) (paused speaking : bool)
  (now1 now2 : Z) (h : Hook) :
  actionLockRef h = false ->
  (0 <? List.length (chunksRef h))%nat = true ->
  hasText (sliceFrom (content (session h)) (currentPosition (session h))) = true ->
  session (resumeReading cfg now2
             (pauseFallbackTimer paused speaking now1 (pauseReading h)))
  = {| content := content (session h);
       currentPosition := currentPosition (session h);
       isPlaying := true; isPaused := false;
       totalCharacters := len (content (session h)) |}
  /\ chunksRef (resumeReading cfg now2
                  (pauseFallbackTimer paused speaking now1 (pauseReading h)))
     = chunkTextForSpeechDefault
         (sliceFrom (content (session h)) (currentPosition (session h)))
  /\ accumulatedCharactersRef
       (resumeReading cfg now2
          (pauseFallbackTimer paused speaking now1 (pauseReading h)))
     = currentPosition (session h).
Proof.
  intros Hlock Hchunks Htext.
  destruct (hasText_chunks _ Htext) as [chunk [rest Hc]].
  assert (Hlen : 0 < len (content (session h))).
  { destruct (content (session h)) as [|c cs] eqn:E.
    - rewrite sliceFrom_nil in Htext. discriminate.
    - reflexivity. }
  unfold pauseReading. rewrite Hlock.
  unfold resumeReading, pauseFallbackTimer.
  destruct (negb paused && speaking); cbn [session isPaused setSession
    setActionLockRef setIsChunkedPlaybackRef call setIsStoppingRef
    setLastCancelAtRef chunksRef actionLockRef content currentPosition];
    rewrite Hchunks; cbn [andb];
    rewrite (startReading_speaks _ _ _ _ _ chunk rest Hlen Hc);
    rewrite Hc; repeat split; reflexivity.
Qed.

Lemma pause_then_resume_witness :
  session (resumeReading (settings playingHook) 300
             (pauseFallbackTimer true false 200 (pauseReading playingHook)))
  = {| content := content (session playingHook);
       currentPosition := currentPosition (session playingHook);
       isPlaying := true; isPaused := false;
       totalCharacters := len (content (session playingHook)) |}.
Proof.
  apply (pause_then_resume (settings playingHook) true false 200 300 playingHook);
    reflexivity.
Defined.

(** X6: the default voice.  When no voice is selected and the browser
    reports voices on a [voiceschanged] event, the first voice whose
    language starts with ['en'] becomes the selected voice, whether the
    engine is idle or playing, and rate, pitch and volume keep their
    values. *)
Theorem voicesChanged_sets_default (voices : list Voice) (now : Z) (h : Hook)
  (englishVoice0 : Voice) :
  voice (settings h) = None ->
  find (fun v => startsWith (voiceLang v) (lit "en")) voices = Some englishVoice0 ->
  settings (voicesChanged voices now h)
  = {| rate := rate (settings h); pitch := pitch (settings h);
       volume := volume (settings h); voice := Some englishVoice0 |}.
Proof.
  intros Hvoice Hfind. unfold voicesChanged.
  assert (L : loadVoices voices (settings h) h
              = setSettings (fun prev =>
                  {| rate := rate prev; pitch := pitch prev; volume := volume prev;
                     voice := Some englishVoice0 |})
                  (setAvailableVoices voices h)).
  { unfold loadVoices. cbv zeta. rewrite Hfind, Hvoice. reflexivity. }
  rewrite L. unfold commitEffects.
  cbn [settings setSettings setAvailableVoices voice]. rewrite Hvoice.
  cbn [voiceDepSame].
  assert (L2 : forall h1, loadVoices voices
                 {| rate := rate (settings h); pitch := pitch (settings h);
                    volume := volume (settings h); voice := Some englishVoice0 |} h1
               = setAvailableVoices voices h1).
  { intro h1. unfold loadVoices. cbv zeta. rewrite Hfind. reflexivity. }
  rewrite L2.
  unfold settingsDepsSame. cbn [voice]. rewrite Hvoice. cbn [voiceDepSame andb].
  unfold settingsEffect.
  match goal with
  | |- context [if ?b then _ else _] => destruct b
  end.
  - rewrite startReading_settings. reflexivity.
  - reflexivity.
Qed.

Lemma voicesChanged_sets_default_witness :
  settings (voicesChanged [englishVoice] 5 initial)
  = {| rate := rate (settings initial); pitch := pitch (settings initial);
       volume := volume (settings initial); voice := Some englishVoice |}.
Proof.
  apply (voicesChanged_sets_default [englishVoice] 5 initial englishVoice);
    reflexivity.
Defined.

(** X7: while [stopReading]'s 500 ms window is open, no [onerror] event
    of a cancelled utterance - whatever its error code and time - changes
    the session: position 0 and both flags false stay as [stopReading]
    left them, and nothing is spoken. *)
Theorem error_after_stop (error : jsstring) (now1 now2 : Z) (h : Hook) :
  session (onerror error now2 (stopReading now1 h)) = session (stopReading now1 h)
  /\ synth (onerror error now2 (stopReading now1 h)) = synth (stopReading now1 h)
  /\ isChunkedPlaybackRef (onerror error now2 (stopReading now1 h)) = false.
Proof.
  unfold onerror.
  destruct (Js.eqb error (lit "interrupted")
            && (isStoppingRef (stopReading now1 h)
                || (now2 - lastCancelAtRef (stopReading now1 h) <? 1000))).
  - repeat split; reflexivity.
  - repeat split; reflexivity.
Qed.

(** X8: an error event that arrives less than one second after
    [startReading] is treated as the echo of its [cancel], whatever the
    error code: chunked playback is switched off, but the session keeps
    [isPlaying = true], so the hook reports playback that has stopped. *)
Theorem error_soon_after_start (cfg : SpeechSettings) (content0 error : jsstring)
  (fromPosition now1 now2 : Z) (h : Hook) :
  hasText (sliceFrom content0 fromPosition) = true ->
  now2 - now1 < 1000 ->
  isPlaying (session (onerror error now2
                        (startReading cfg content0 fromPosition now1 h))) = true
  /\ isChunkedPlaybackRef (onerror error now2
                             (startReading cfg content0 fromPosition now1 h)) = false
  /\ session (onerror error now2 (startReading cfg content0 fromPosition now1 h))
     = session (startReading cfg content0 fromPosition now1 h).
Proof.
  intros Htext Hsoon.
  destruct (hasText_chunks _ Htext) as [chunk [rest Hc]].
  assert (Hlen : 0 < len content0).
  { destruct content0 as [|c cs].
    - rewrite sliceFrom_nil in Htext. discriminate.
    - reflexivity. }
  rewrite (startReading_speaks _ _ _ _ _ chunk rest Hlen Hc).
  unfold onerror. cbn [isStoppingRef lastCancelAtRef setIsChunkedPlaybackRef].
  apply Z.ltb_lt in Hsoon. rewrite Hsoon.
  destruct (Js.eqb error (lit "interrupted")); repeat split; reflexivity.
Qed.

Lemma error_soon_after_start_witness :
  isPlaying (session (onerror (lit "synthesis-failed") 400
                        (startReading (settings initial) (lit "Hello world") 0 0
                           initial))) = true.
Proof.
  apply (error_soon_after_start (settings initial) (lit "Hello world")
           (lit "synthesis-failed") 0 0 400 initial); reflexivity.
Defined.

(** ** Settings changes that restart nothing *)

Lemma loadVoices_synth (voices : list Voice) (cfg : SpeechSettings) (h : Hook) :
  synth (loadVoices voices cfg h) = synth h.
Proof.
  unfold loadVoices.
  destruct (find _ voices); [destruct (voice cfg)|]; reflexivity.
Qed.

(** X9: an [updateSettings] call that leaves rate, pitch, volume and
    voice at their values (for instance [{ rate: 1 }] at rate 1) only
    replaces the settings object: no effect runs, nothing is cancelled or
    restarted, whether the engine is playing or not. *)
Theorem updateSettings_same_values (newSettings : PartialSettings)
  (voices : list Voice) (now1 now2 : Z) (h : Hook) :
  settingsDepsSame (settings h) (mergeSettings (settings h) newSettings) = true ->
  updateSettingsAndRender newSettings voices now1 now2 h
  = updateSettings newSettings h.
Proof.
  intro Hsame. unfold updateSettingsAndRender. cbv zeta.
  assert (Hfirst :
    commitEffects voices now1 (settings h) (updateSettings newSettings h)
    = updateSettings newSettings h).
  { unfold commitEffects.
    change (settings (updateSettings newSettings h))
      with (mergeSettings (settings h) newSettings).
    rewrite Hsame. unfold settingsDepsSame in Hsame.
    destruct (voiceDepSame (voice (settings h))
                (voice (mergeSettings (settings h) newSettings)));
      [reflexivity|discriminate]. }
  rewrite Hfirst. apply commitEffects_stable.
Qed.

Lemma updateSettings_same_values_witness :
  updateSettingsAndRender
    {| newRate := Some (Q2Qc 1); newPitch := None; newVolume := None;
       newVoice := None |} [englishVoice] 1 2 playingHook
  = updateSettings
      {| newRate := Some (Q2Qc 1); newPitch := None; newVolume := None;
         newVoice := None |} playingHook.
Proof.
  apply (updateSettings_same_values
           {| newRate := Some (Q2Qc 1); newPitch := None; newVolume := None;
              newVoice := None |} [englishVoice] 1 2 playingHook).
  reflexivity.
Defined.

Lemma commitEffects_idle (voices : list Voice) (now : Z) (prev : SpeechSettings)
  (h : Hook) :
  isPlaying (session h) && negb (isPaused (session h)) = false ->
  session (commitEffects voices now prev h) = session h
  /\ synth (commitEffects voices now prev h) = synth h.
Proof.
  intro Hidle. unfold commitEffects, settingsEffect. rewrite Hidle.
  rewrite Tauto.if_same.
  destruct (voiceDepSame (voice prev) (voice (settings h))).
  - split; reflexivity.
  - split; [apply loadVoices_session|apply loadVoices_synth].
Qed.

(** X10: while the engine is not playing (stopped or paused), an
    [updateSettings] call - whatever it changes - leaves the session as it
    is and makes no [cancel], [pause] or [speak] call on
    [speechSynthesis]. *)
Theorem updateSettings_while_idle (newSettings : PartialSettings)
  (voices : list Voice) (now1 now2 : Z) (h : Hook) :
  isPlaying (session h) && negb (isPaused (session h)) = false ->
  session (updateSettingsAndRender newSettings voices now1 now2 h) = session h
  /\ synth (updateSettingsAndRender newSettings voices now1 now2 h) = synth h.
Proof.
  intro Hidle. unfold updateSettingsAndRender. cbv zeta.
  destruct (commitEffects_idle voices now1 (settings h)
              (updateSettings newSettings h) Hidle) as [S1 Y1].
  change (session (updateSettings newSettings h)) with (session h) in S1.
  change (synth (updateSettings newSettings h)) with (synth h) in Y1.
  destruct (commitEffects_idle voices now2
              (settings (updateSettings newSettings h))
              (commitEffects voices now1 (settings h)
                 (updateSettings newSettings h))) as [S2 Y2].
  - rewrite S1. exact Hidle.
  - rewrite S2, Y2, S1, Y1. split; reflexivity.
Qed.

Lemma updateSettings_while_idle_witness :
  session (updateSettingsAndRender doubleRate [englishVoice] 1 2
             (pauseReading playingHook))
  = session (pauseReading playingHook).
Proof.
  apply (updateSettings_while_idle doubleRate [englishVoice] 1 2
           (pauseReading playingHook)).
  reflexivity.
Defined.

(** X11: a [voiceschanged] event never replaces a voice that is already
    selected: with a voice in the settings the event only stores the
    reported voices in [availableVoices]; settings, session, refs and the
    [speechSynthesis] log stay as they were, whatever voices the browser
    reports and whether the engine is playing or not. *)
Theorem voicesChanged_keeps_voice (voices : list Voice) (now : Z) (h : Hook)
  (selected : Voice) :
  voice (settings h) = Some selected ->
  voicesChanged voices now h = setAvailableVoices voices h.
Proof.
  intro H. unfold voicesChanged.
  assert (L : loadVoices voices (settings h) h = setAvailableVoices voices h).
  { apply loadVoices_settled. unfold voiceSettled. rewrite H. reflexivity. }
  rewrite L. apply commitEffects_settled. reflexivity.
Qed.

Lemma voicesChanged_keeps_voice_witness :
  voicesChanged [{| voiceName := lit "Bob"; voiceLang := lit "en-GB" |}] 5
    playingHook
  = setAvailableVoices [{| voiceName := lit "Bob"; voiceLang := lit "en-GB" |}]
      playingHook.
Proof.
  apply (voicesChanged_keeps_voice
           [{| voiceName := lit "Bob"; voiceLang := lit "en-GB" |}] 5
           playingHook englishVoice).
  reflexivity.
Defined.

End SpeechFacts.

(* ================================================================== *)
(** * Properties of [Map], [BlobUrlManager] and [FileCache] *)
(* ================================================================== *)

Module JsMapFacts.

Import JsFacts.

Section WithValue.
Context {V : Type}.
Implicit Types (m : JsMap.t V) (k : jsstring) (v : V).

Lemma get_set_same m k v : JsMap.get (JsMap.set m k v) k = Some v.
Proof.
  induction m as [|[k0 x] m IH]; simpl.
  - rewrite eqb_refl. reflexivity.
  - destruct (Js.eqb k0 k) eqn:E; simpl; rewrite E; [reflexivity|exact IH].
Qed.

Lemma get_set_other m k k' v :
  k <> k' -> JsMap.get (JsMap.set m k v) k' = JsMap.get m k'.
Proof.
  intro Hne. induction m as [|[k0 x] m IH]; simpl.
  - apply eqb_false_iff in Hne. rewrite Hne. reflexivity.
  - destruct (Js.eqb k0 k) eqn:E; simpl.
    + apply eqb_true_iff in E. subst k0.
      apply eqb_false_iff in Hne. rewrite Hne. reflexivity.
    + rewrite IH. reflexivity.
Qed.

Lemma keys_set_present m k v x :
  JsMap.get m k = Some x -> JsMap.keys (JsMap.set m k v) = JsMap.keys m.
Proof.
  unfold JsMap.keys. induction m as [|[k0 y] m IH]; simpl; intro H.
  - discriminate.
  - destruct (Js.eqb k0 k) eqn:E; simpl; [reflexivity|].
    rewrite IH by exact H. reflexivity.
Qed.

Lemma get_none_notin m k : JsMap.get m k = None -> ~ In k (JsMap.keys m).
Proof.
  unfold JsMap.keys. induction m as [|[k0 y] m IH]; simpl; intro H.
  - intros [].
  - intros [E|E].
    + subst k0. rewrite eqb_refl in H. discriminate.
    + destruct (Js.eqb k0 k); [discriminate|]. exact (IH H E).
Qed.

Lemma notin_get_none m k : ~ In k (JsMap.keys m) -> JsMap.get m k = None.
Proof.
  unfold JsMap.keys. induction m as [|[k0 y] m IH]; simpl; intro H.
  - reflexivity.
  - destruct (Js.eqb k0 k) eqn:E.
    + apply eqb_true_iff in E. subst. exfalso. apply H. left. reflexivity.
    + apply IH. intro I. apply H. right. exact I.
Qed.

Lemma set_absent m k v :
  JsMap.get m k = None -> JsMap.set m k v = m ++ [(k, v)].
Proof.
  induction m as [|[k0 y] m IH]; simpl; intro H.
  - reflexivity.
  - destruct (Js.eqb k0 k); [discriminate|]. rewrite IH by exact H. reflexivity.
Qed.

Lemma length_set_le m k v :
  (List.length (JsMap.set m k v) <= S (List.length m))%nat.
Proof.
  induction m as [|[k0 y] m IH]; simpl.
  - lia.
  - destruct (Js.eqb k0 k); simpl; lia.
Qed.

Lemma length_delete_le m k : (List.length (JsMap.delete m k) <= List.length m)%nat.
Proof.
  induction m as [|[k0 y] m IH]; simpl.
  - lia.
  - destruct (Js.eqb k0 k); simpl; lia.
Qed.

Lemma length_delete_present m k :
  In k (JsMap.keys m) -> S (List.length (JsMap.delete m k)) = List.length m.
Proof.
  unfold JsMap.keys. induction m as [|[k0 y] m IH]; simpl; intro H.
  - contradiction.
  - destruct (Js.eqb k0 k) eqn:E; simpl.
    + reflexivity.
    + destruct H as [H|H].
      * subst. rewrite eqb_refl in E. discriminate.
      * rewrite IH by exact H. reflexivity.
Qed.

Lemma set_get_same m k v : JsMap.get m k = Some v -> JsMap.set m k v = m.
Proof.
  induction m as [|[k0 y] m IH]; simpl; intro H.
  - discriminate.
  - destruct (Js.eqb k0 k) eqn:E.
    + injection H as ->. reflexivity.
    + rewrite IH by exact H. reflexivity.
Qed.

Lemma set_set m k v v' : JsMap.set (JsMap.set m k v) k v' = JsMap.set m k v'.
Proof.
  induction m as [|[k0 y] m IH]; simpl.
  - rewrite eqb_refl. reflexivity.
  - destruct (Js.eqb k0 k) eqn:E; simpl; rewrite E; [reflexivity|].
    rewrite IH. reflexivity.
Qed.

Lemma delete_set_absent m k v :
  JsMap.get m k = None -> JsMap.delete (JsMap.set m k v) k = m.
Proof.
  induction m as [|[k0 y] m IH]; simpl; intro H.
  - rewrite eqb_refl. reflexivity.
  - destruct (Js.eqb k0 k) eqn:E; [discriminate|].
    simpl. rewrite E, IH by exact H. reflexivity.
Qed.

End WithValue.

End JsMapFacts.

Module BlobUrlManagerFacts.

Import JsFacts JsMapFacts BlobUrlManager.

Lemma Forall_set (m : JsMap.t Z) (k : jsstring) (v : Z) :
  Forall (fun e => 1 <= snd e) m -> 1 <= v ->
  Forall (fun e => 1 <= snd e) (JsMap.set m k v).
Proof.
  intros Hm Hv. induction m as [|[k0 y] m IH]; simpl.
  - constructor; [exact Hv|constructor].
  - inversion Hm as [|? ? Hy Hm']. subst.
    destruct (Js.eqb k0 k); constructor; auto.
Qed.

Lemma Forall_delete (m : JsMap.t Z) (k : jsstring) :
  Forall (fun e => 1 <= snd e) m ->
  Forall (fun e => 1 <= snd e) (JsMap.delete m k).
Proof.
  intro Hm. induction m as [|[k0 y] m IH]; simpl.
  - constructor.
  - inversion Hm as [|? ? Hy Hm']. subst.
    destruct (Js.eqb k0 k); [assumption|constructor; auto].
Qed.

Lemma Forall_get (m : JsMap.t Z) (k : jsstring) (c : Z) :
  Forall (fun e => 1 <= snd e) m -> JsMap.get m k = Some c -> 1 <= c.
Proof.
  intros Hm. induction m as [|[k0 y] m IH]; simpl; intro H.
  - discriminate.
  - inversion Hm as [|? ? Hy Hm']. subst.
    destruct (Js.eqb k0 k); [injection H as <-; exact Hy|auto].
Qed.

(** X12: no operation of the manager leaves a tracked URL with a count
    below one: [register], [retain], [release], [revoke] and [revokeAll]
    all keep every count in [refs] at one or more. *)
Theorem counts_stay_positive (url : jsstring) (b : t) :
  countsPositive b ->
  countsPositive (register url b) /\ countsPositive (retain url b)
  /\ countsPositive (release url b) /\ countsPositive (revoke url b)
  /\ countsPositive (revokeAll b).
Proof.
  intro H. unfold countsPositive in *.
  assert (R : Forall (fun e => 1 <= snd e) (refs (register url b))).
  { unfold register. destruct (negb (isBlobUrl (Some url))); [exact H|].
    simpl. apply Forall_set; [exact H|].
    destruct (JsMap.get (refs b) url) as [c|] eqn:E; [|lia].
    pose proof (Forall_get _ _ _ H E). lia. }
  split; [exact R|]. split; [exact R|]. split; [|split].
  - unfold release. destruct (negb (isBlobUrl (Some url))); [exact H|].
    destruct (JsMap.get (refs b) url) as [c|] eqn:E; [|exact H].
    destruct (Z.leb_spec c 1); simpl.
    + apply Forall_delete. exact H.
    + apply Forall_set; [exact H|lia].
  - unfold revoke. destruct (negb (isBlobUrl (Some url))); [exact H|].
    simpl. apply Forall_delete. exact H.
  - simpl. constructor.
Qed.

Lemma counts_stay_positive_witness :
  countsPositive (release (lit "blob:1") (register (lit "blob:1") empty)).
Proof.
  apply (counts_stay_positive (lit "blob:1") (register (lit "blob:1") empty)).
  apply (counts_stay_positive (lit "blob:1") empty). constructor.
Defined.

(** X13: [release] undoes [register]: for a blob URL, registering and
    then releasing leaves the reference counts exactly as they were (given
    that they were all positive), and revokes the URL only if it was not
    tracked before. *)
Theorem register_then_release (url : jsstring) (b : t) :
  countsPositive b -> isBlobUrl (Some url) = true ->
  refs (release url (register url b)) = refs b
  /\ revoked (release url (register url b))
     = revoked b ++ (if JsMap.has (refs b) url then [] else [url]).
Proof.
  intros Hpos Hblob. unfold release, register, JsMap.has.
  rewrite Hblob. simpl negb. cbn iota.
  cbn [refs revoked]. rewrite get_set_same.
  destruct (JsMap.get (refs b) url) as [c|] eqn:E.
  - pose proof (Forall_get _ _ _ Hpos E) as Hc.
    destruct (Z.leb_spec (c + 1) 1); [lia|].
    cbn [refs revoked]. rewrite set_set.
    replace (c + 1 - 1) with c by lia.
    rewrite (set_get_same _ _ _ E), app_nil_r. split; reflexivity.
  - simpl Z.leb. cbn iota. cbn [refs revoked].
    rewrite (delete_set_absent _ _ _ E). split; reflexivity.
Qed.

Lemma register_then_release_witness :
  refs (release (lit "blob:2") (register (lit "blob:2")
          (register (lit "blob:1") empty)))
  = refs (register (lit "blob:1") empty).
Proof.
  apply (register_then_release (lit "blob:2") (register (lit "blob:1") empty)).
  - repeat constructor. discriminate.
  - reflexivity.
Defined.

(** X14: a URL that does not start with ['blob:'] is never tracked or
    revoked: [register], [retain], [release] and [revoke] return the
    manager unchanged. *)
Theorem non_blob_ignored (url : jsstring) (b : t) :
  isBlobUrl (Some url) = false ->
  register url b = b /\ retain url b = b /\ release url b = b /\ revoke url b = b.
Proof.
  intro H. unfold retain, register, release, revoke. rewrite H.
  repeat split; reflexivity.
Qed.

Lemma non_blob_ignored_witness :
  register (lit "https://example.com/a.pdf") empty = empty.
Proof.
  apply (non_blob_ignored (lit "https://example.com/a.pdf") empty). reflexivity.
Defined.

End BlobUrlManagerFacts.

Module FileCacheFacts.

Import JsFacts JsMapFacts Files FileCache.

Lemma length_insertSorted (x : jsstring * CacheEntry) (l : list (jsstring * CacheEntry)) :
  List.length (insertSorted x l) = S (List.length l).
Proof.
  induction l as [|y l IH]; simpl; [reflexivity|].
  destruct (compareUsage (snd x) (snd y) <=? 0); simpl; [reflexivity|].
  rewrite IH. reflexivity.
Qed.

Lemma length_sortByUsage (l : list (jsstring * CacheEntry)) :
  List.length (sortByUsage l) = List.length l.
Proof.
  induction l as [|x l IH]; simpl; [reflexivity|].
  rewrite length_insertSorted, IH. reflexivity.
Qed.

Lemma In_insertSorted (x y : jsstring * CacheEntry) (l : list (jsstring * CacheEntry)) :
  In y (insertSorted x l) <-> y = x \/ In y l.
Proof.
  induction l as [|z l IH]; simpl.
  - intuition.
  - destruct (compareUsage (snd x) (snd z) <=? 0); simpl; [intuition|].
    rewrite IH. intuition.
Qed.

Lemma In_sortByUsage (y : jsstring * CacheEntry) (l : list (jsstring * CacheEntry)) :
  In y (sortByUsage l) <-> In y l.
Proof.
  induction l as [|x l IH]; simpl; [reflexivity|].
  rewrite In_insertSorted, IH. intuition.
Qed.

Lemma evictLoop_some (entries : list (jsstring * CacheEntry)) (count i : nat)
  (m : JsMap.t CacheEntry) :
  (i + count <= List.length entries)%nat ->
  exists m', evictLoop entries i count m = Some m'
             /\ (List.length m' <= List.length m)%nat.
Proof.
  revert i m. induction count as [|count IH]; intros i m H; simpl.
  - exists m. auto.
  - destruct (nth_error entries i) as [[key e]|] eqn:E.
    + destruct (IH (S i) (JsMap.delete m key)) as [m' [Hm' Hlen]]; [lia|].
      exists m'. split; [exact Hm'|].
      pose proof (length_delete_le m key). lia.
    + apply nth_error_None in E. lia.
Qed.

Lemma evictLoop_S (entries : list (jsstring * CacheEntry)) (count i : nat)
  (m : JsMap.t CacheEntry) :
  evictLoop entries i (S count) m
  = match nth_error entries i with
    | None => None
    | Some (key, _) => evictLoop entries (S i) count (JsMap.delete m key)
    end.
Proof. reflexivity. Qed.

Lemma evictLeastUsed_some (c : t) :
  cache c <> [] ->
  exists c', evictLeastUsed c = Some c'
             /\ hits c' = hits c /\ misses c' = misses c
             /\ storage c' = storage c
             /\ (S (List.length (cache c')) <= List.length (cache c))%nat.
Proof.
  intro Hne. unfold evictLeastUsed. cbv zeta.
  set (entries := sortByUsage (cache c)).
  assert (Hlen : List.length entries = List.length (cache c))
    by apply length_sortByUsage.
  assert (Hpos : (1 <= List.length (cache c))%nat)
    by (destruct (cache c); [congruence|simpl; lia]).
  set (k := Z.to_nat (Z.max 1 (Z.of_nat (List.length entries) / 4))).
  assert (Hk : (1 <= k <= List.length entries)%nat).
  { unfold k. rewrite Hlen.
    pose proof (Z.div_le_upper_bound (Z.of_nat (List.length (cache c))) 4
                  (Z.of_nat (List.length (cache c)))).
    assert (Z.of_nat (List.length (cache c)) / 4
            <= Z.of_nat (List.length (cache c))) by (apply H; lia).
    lia. }
  destruct k as [|k']; [lia|].
  rewrite evictLoop_S.
  destruct (nth_error entries 0) as [[key e]|] eqn:E.
  - destruct (evictLoop_some entries k' 1 (JsMap.delete (cache c) key))
      as [m' [Hm' Hle]]; [lia|].
    rewrite Hm'. simpl. eexists. split; [reflexivity|].
    simpl. repeat split; try reflexivity.
    assert (Hin : In key (JsMap.keys (cache c))).
    { apply nth_error_In in E. unfold entries in E.
      apply (proj1 (In_sortByUsage _ _)) in E.
      unfold JsMap.keys. apply in_map_iff. exists (key, e). auto. }
    pose proof (length_delete_present (cache c) key Hin). lia.
  - apply nth_error_None in E. lia.
Qed.

Lemma getCurrentSize_empty (c : t) : cache c = [] -> getCurrentSize c = 0.
Proof. intro H. unfold getCurrentSize. rewrite H. reflexivity. Qed.

(** [ensureSpace] succeeds whenever the new content alone fits the byte
    budget; it keeps the counters and never adds an entry. *)
Lemma ensureSpace_some (newContentSize : Z) (c : t) :
  newContentSize <= maxSizeBytes ->
  exists c', ensureSpace newContentSize c = Some c'
             /\ hits c' = hits c /\ misses c' = misses c
             /\ (List.length (cache c') <= List.length (cache c))%nat
             /\ (maxEntries <= JsMap.size (cache c) ->
                 (S (List.length (cache c')) <= List.length (cache c))%nat).
Proof.
  intro Hfit. unfold ensureSpace. cbv zeta.
  destruct ((maxEntries <=? JsMap.size (cache c))
            || (maxSizeBytes <? getCurrentSize c + newContentSize)) eqn:E.
  - assert (Hne : cache c <> []).
    { intro Hnil. rewrite (getCurrentSize_empty c Hnil) in E.
      unfold JsMap.size in E. rewrite Hnil in E. simpl in E.
      apply Z.ltb_lt in E. lia. }
    destruct (evictLeastUsed_some c Hne) as [c' [H1 [H2 [H3 [_ H4]]]]].
    exists c'. repeat split; try assumption; lia.
  - exists c. apply orb_false_elim in E. destruct E as [E1 _].
    apply Z.leb_gt in E1. repeat split; try reflexivity; lia.
Qed.

(** What [set] leaves under the file's key. *)
Lemma set_stores (digest : list N -> option jsstring) (now : Z) (f : File)
  (content0 : jsstring) (method : ProcessingMethod) (time : option Qc)
  (meta : option Metadata) (c : t) (fileHash0 : jsstring) :
  digest (bytes f) = Some fileHash0 ->
  len content0 <= maxSizeBytes ->
  JsMap.get (cache (set digest now f content0 method time meta c))
            (generateCacheKey (name f) (size f) fileHash0)
  = Some {| id := generateCacheKey (name f) (size f) fileHash0;
            fileName := name f; fileSize := size f; fileHash := fileHash0;
            content := content0; processingMethod := method;
            processingTime := time; timestamp := now; accessCount := 1;
            lastAccessed := now; metadata := meta |}.
Proof.
  intros Hd Hfit. unfold set, generateFileHash. rewrite Hd.
  destruct (ensureSpace_some (len content0) c Hfit) as [c1 [H1 _]].
  rewrite H1. simpl. apply get_set_same.
Qed.

Lemma keyOf_some (digest : list N -> option jsstring) (f : File) (fileHash0 : jsstring) :
  digest (bytes f) = Some fileHash0 ->
  keyOf digest f = Some (generateCacheKey (name f) (size f) fileHash0).
Proof. intro H. unfold keyOf, generateFileHash. rewrite H. reflexivity. Qed.

Lemma get_hit (digest : list N -> option jsstring) (now : Z) (f : File) (c : t)
  (key : jsstring) (entry : CacheEntry) :
  keyOf digest f = Some key -> JsMap.get (cache c) key = Some entry ->
  get digest now f c
  = (Some (touched now entry),
     {| cache := JsMap.set (cache c) key (touched now entry);
        hits := hits c + 1; misses := misses c; storage := storage c |}).
Proof. intros Hk Hg. unfold get. rewrite Hk, Hg. reflexivity. Qed.

Lemma get_miss (digest : list N -> option jsstring) (now : Z) (f : File) (c : t)
  (key : jsstring) :
  keyOf digest f = Some key -> JsMap.get (cache c) key = None ->
  get digest now f c
  = (None, {| cache := cache c; hits := hits c; misses := misses c + 1;
              storage := storage c |}).
Proof. intros Hk Hg. unfold get. rewrite Hk, Hg. reflexivity. Qed.

(** X15: a lookup that follows a store finds the stored text.  After
    [set(file, content, ...)], [get] on a file with the same name, size
    and bytes returns an entry with that content, an access count of 2 and
    the time of the lookup as [lastAccessed], provided the digest is
    available and the content alone fits the 100 MB budget. *)
Theorem get_after_set (digest : list N -> option jsstring) (now1 now2 : Z)
  (f : File) (content0 : jsstring) (method : ProcessingMethod)
  (time : option Qc) (meta : option Metadata) (c : t) (fileHash0 : jsstring) :
  digest (bytes f) = Some fileHash0 ->
  len content0 <= maxSizeBytes ->
  fst (get digest now2 f (set digest now1 f content0 method time meta c))
  = Some {| id := generateCacheKey (name f) (size f) fileHash0;
            fileName := name f; fileSize := size f; fileHash := fileHash0;
            content := content0; processingMethod := method;
            processingTime := time; timestamp := now1; accessCount := 2;
            lastAccessed := now2; metadata := meta |}.
Proof.
  intros Hd Hfit.
  rewrite (get_hit digest now2 f _ _ _ (keyOf_some digest f fileHash0 Hd)
             (set_stores digest now1 f content0 method time meta c fileHash0 Hd Hfit)).
  reflexivity.
Qed.

Lemma get_after_set_witness :
  fst (get (fun _ => Some (lit "0123456789abcdef0123")) 7
         (ContentExtraction.sampleFile 6)
         (set (fun _ => Some (lit "0123456789abcdef0123")) 5
            (ContentExtraction.sampleFile 6) (lit "text") worker None None
            (loadFromStorage None)))
  = Some {| id := generateCacheKey (name (ContentExtraction.sampleFile 6))
                    (size (ContentExtraction.sampleFile 6))
                    (lit "0123456789abcdef0123");
            fileName := name (ContentExtraction.sampleFile 6);
            fileSize := size (ContentExtraction.sampleFile 6);
            fileHash := lit "0123456789abcdef0123";
            content := lit "text"; processingMethod := worker;
            processingTime := None; timestamp := 5; accessCount := 2;
            lastAccessed := 7; metadata := None |}.
Proof.
  apply (get_after_set (fun _ => Some (lit "0123456789abcdef0123")) 5 7
           (ContentExtraction.sampleFile 6) (lit "text") worker None None
           (loadFromStorage None) (lit "0123456789abcdef0123")).
  - reflexivity.
  - discriminate.
Defined.

(** X16: the cache key holds only the first 16 characters of the digest.
    Two files with the same name and size whose digests agree on these 16
    characters share one entry: after [set] for the first file, [get] for
    the second returns the text stored for the first. *)
Theorem get_other_file_same_prefix (digest : list N -> option jsstring)
  (now1 now2 : Z) (a b : File) (content0 : jsstring) (method : ProcessingMethod)
  (time : option Qc) (meta : option Metadata) (c : t) (hashA hashB : jsstring) :
  name a = name b -> size a = size b ->
  digest (bytes a) = Some hashA -> digest (bytes b) = Some hashB ->
  substring0 hashA 16 = substring0 hashB 16 ->
  len content0 <= maxSizeBytes ->
  option_map content
    (fst (get digest now2 b (set digest now1 a content0 method time meta c)))
  = Some content0.
Proof.
  intros Hn Hs Ha Hb Hp Hfit.
  assert (Hk : keyOf digest b
               = Some (generateCacheKey (name a) (size a) hashA)).
  { rewrite (keyOf_some digest b hashB Hb). unfold generateCacheKey.
    rewrite Hn, Hs, Hp. reflexivity. }
  rewrite (get_hit digest now2 b _ _ _ Hk
             (set_stores digest now1 a content0 method time meta c hashA Ha Hfit)).
  reflexivity.
Qed.

Lemma get_other_file_same_prefix_witness :
  option_map content
    (fst (get (fun bs => match bs with
                         | [] => Some (lit "0123456789abcdefAAAA")
                         | _ => Some (lit "0123456789abcdefBBBB")
                         end) 7
            {| name := lit "a.pdf"; size := 2 * MB; type := lit "application/pdf";
               bytes := [1%N] |}
            (set (fun bs => match bs with
                            | [] => Some (lit "0123456789abcdefAAAA")
                            | _ => Some (lit "0123456789abcdefBBBB")
                            end) 5
               {| name := lit "a.pdf"; size := 2 * MB;
                  type := lit "application/pdf"; bytes := [] |}
               (lit "first") worker None None (loadFromStorage None))))
  = Some (lit "first").
Proof.
  apply (get_other_file_same_prefix _ 5 7
           {| name := lit "a.pdf"; size := 2 * MB; type := lit "application/pdf";
              bytes := [] |}
           {| name := lit "a.pdf"; size := 2 * MB; type := lit "application/pdf";
              bytes := [1%N] |}
           (lit "first") worker None None (loadFromStorage None)
           (lit "0123456789abcdefAAAA") (lit "0123456789abcdefBBBB"));
    try reflexivity.
  discriminate.
Defined.

(** Whenever [ensureSpace] returns it has added no entry, and it has
    removed at least one from a cache that was full. *)
Lemma ensureSpace_shrinks (newContentSize : Z) (c c1 : t) :
  ensureSpace newContentSize c = Some c1 ->
  (List.length (cache c1) <= List.length (cache c))%nat
  /\ (maxEntries <= JsMap.size (cache c) ->
      (S (List.length (cache c1)) <= List.length (cache c))%nat).
Proof.
  unfold ensureSpace. cbv zeta.
  destruct ((maxEntries <=? JsMap.size (cache c))
            || (maxSizeBytes <? getCurrentSize c + newContentSize)) eqn:E;
    intro H.
  - destruct (cache c) as [|x m] eqn:Hc.
    + unfold evictLeastUsed in H. rewrite Hc in H. discriminate H.
    + assert (Hne : cache c <> []) by (rewrite Hc; discriminate).
      destruct (evictLeastUsed_some c Hne) as [c' [H1 [_ [_ [_ H4]]]]].
      rewrite H1 in H. injection H as <-. rewrite Hc in H4. split; [lia|].
      intros _. exact H4.
  - injection H as <-. apply orb_false_elim in E. destruct E as [E1 _].
    apply Z.leb_gt in E1. split; [lia|]. intro F. lia.
Qed.

(** X17: [set] never lets the cache grow beyond [maxEntries]: a cache of
    at most 50 entries has at most 50 entries afterwards, whatever is
    stored, because a full cache evicts at least one entry before the new
    one is added (and a [set] that throws leaves the cache as it was). *)
Theorem set_keeps_entry_limit (digest : list N -> option jsstring) (now : Z)
  (f : File) (content0 : jsstring) (method : ProcessingMethod)
  (time : option Qc) (meta : option Metadata) (c : t) :
  JsMap.size (cache c) <= maxEntries ->
  JsMap.size (cache (set digest now f content0 method time meta c)) <= maxEntries.
Proof.
  intros Hsize. unfold set, generateFileHash.
  destruct (digest (bytes f)) as [fileHash0|]; [|exact Hsize].
  destruct (ensureSpace (len content0) c) as [c1|] eqn:H1; [|exact Hsize].
  destruct (ensureSpace_shrinks _ _ _ H1) as [Hle Hfull].
  simpl. unfold JsMap.size in *.
  match goal with
  | |- Z.of_nat (List.length (JsMap.set ?m ?k ?v)) <= _ =>
      pose proof (length_set_le m k v)
  end.
  destruct (Z.leb_spec maxEntries (Z.of_nat (List.length (cache c)))) as [F|F].
  - specialize (Hfull F). lia.
  - lia.
Qed.

Lemma set_keeps_entry_limit_witness :
  JsMap.size (cache fullCache) = maxEntries
  /\ JsMap.size (cache (set (fun _ => Some (lit "0123456789abcdef0123")) 99
                          (ContentExtraction.sampleFile 6) (lit "text") worker
                          None None fullCache))
     <= maxEntries
  /\ JsMap.size (cache (set (fun _ => Some (lit "0123456789abcdef0123")) 99
                          (ContentExtraction.sampleFile 6) (lit "text") worker
                          None None fullCache))
     = 39.
Proof.
  split; [reflexivity|]. split.
  - apply (set_keeps_entry_limit (fun _ => Some (lit "0123456789abcdef0123")) 99
             (ContentExtraction.sampleFile 6) (lit "text") worker None None
             fullCache).
    vm_compute. discriminate.
  - vm_compute. reflexivity.
Defined.

Lemma map_set_present {B : Type} (g : CacheEntry -> B) (m : JsMap.t CacheEntry)
  (k : jsstring) (e v : CacheEntry) :
  JsMap.get m k = Some e -> g v = g e ->
  map (fun x => g (snd x)) (JsMap.set m k v) = map (fun x => g (snd x)) m.
Proof.
  intros Hg Hv. induction m as [|[k0 y] m IH]; simpl in *.
  - discriminate.
  - destruct (Js.eqb k0 k) eqn:E; simpl.
    + injection Hg as ->. rewrite Hv. reflexivity.
    + rewrite IH by exact Hg. reflexivity.
Qed.

(** X18: [get] changes access statistics only: whether it hits or
    misses, the cache holds the same keys in the same order with the same
    texts afterwards, and the stored item in [localStorage] is not
    written. *)
Theorem get_keeps_contents (digest : list N -> option jsstring) (now : Z)
  (f : File) (c : t) :
  JsMap.keys (cache (snd (get digest now f c))) = JsMap.keys (cache c)
  /\ map (fun e => content (snd e)) (cache (snd (get digest now f c)))
     = map (fun e => content (snd e)) (cache c)
  /\ storage (snd (get digest now f c)) = storage c.
Proof.
  unfold get. destruct (keyOf digest f) as [key|]; [|repeat split; reflexivity].
  destruct (JsMap.get (cache c) key) as [entry|] eqn:E;
    [|repeat split; reflexivity].
  simpl. split; [|split; [|reflexivity]].
  - exact (keys_set_present _ _ _ _ E).
  - exact (map_set_present content _ _ entry (touched now entry) E eq_refl).
Qed.

Lemma NoDup_keys_filter (p : jsstring * CacheEntry -> bool)
  (l : list (jsstring * CacheEntry)) :
  NoDup (JsMap.keys l) -> NoDup (JsMap.keys (filter p l)).
Proof.
  unfold JsMap.keys. induction l as [|x l IH]; simpl; intro H.
  - constructor.
  - inversion H as [|? ? Hx Hl]. subst.
    destruct (p x); simpl; [constructor|]; auto.
    intro I. apply Hx. apply in_map_iff in I. destruct I as [y [Ey Iy]].
    apply filter_In in Iy. apply in_map_iff. exists y. tauto.
Qed.

Lemma fold_set_fresh (l acc : list (jsstring * CacheEntry)) :
  NoDup (JsMap.keys l) ->
  (forall k, In k (JsMap.keys l) -> ~ In k (JsMap.keys acc)) ->
  fold_left (fun m e => JsMap.set m (fst e) (snd e)) l acc = acc ++ l.
Proof.
  revert acc. induction l as [|[k v] l IH]; intros acc Hnd Hfresh; simpl.
  - rewrite app_nil_r. reflexivity.
  - unfold JsMap.keys in Hnd. simpl in Hnd.
    inversion Hnd as [|? ? Hk Hl]. subst.
    rewrite (set_absent acc k v).
    + rewrite IH.
      * rewrite <- app_assoc. reflexivity.
      * exact Hl.
      * intros k' Hk' I. unfold JsMap.keys in I. rewrite map_app in I.
        apply in_app_or in I. destruct I as [I|I].
        -- apply (Hfresh k'); [right; exact Hk'|exact I].
        -- simpl in I. destruct I as [I|[]]. subst. exact (Hk Hk').
    + apply notin_get_none. apply Hfresh. left. reflexivity.
Qed.

(** X19: what survives a reload.  The cache rebuilt by [loadFromStorage]
    from what [saveToStorage] wrote holds exactly the entries whose text
    is shorter than 50000 characters, in their order, and the same hit and
    miss counters (the keys of a [Map] are distinct). *)
Theorem reload_keeps_small_entries (c : t) :
  NoDup (JsMap.keys (cache c)) ->
  cache (loadFromStorage (storage (saveToStorage c)))
  = filter (fun e => len (content (snd e)) <? 50000) (cache c)
  /\ hits (loadFromStorage (storage (saveToStorage c))) = hits c
  /\ misses (loadFromStorage (storage (saveToStorage c))) = misses c.
Proof.
  intro Hnd. simpl. split; [|split; reflexivity].
  rewrite fold_set_fresh.
  - reflexivity.
  - apply NoDup_keys_filter. exact Hnd.
  - intros k _ [].
Qed.

Lemma reload_keeps_small_entries_witness :
  cache (loadFromStorage (storage (saveToStorage
           (set (fun _ => Some (lit "0123456789abcdef0123")) 5
              (ContentExtraction.sampleFile 6) (lit "text") worker None None
              (loadFromStorage None)))))
  = filter (fun e => len (content (snd e)) <? 50000)
      (cache (set (fun _ => Some (lit "0123456789abcdef0123")) 5
                (ContentExtraction.sampleFile 6) (lit "text") worker None None
                (loadFromStorage None))).
Proof.
  apply (reload_keeps_small_entries
           (set (fun _ => Some (lit "0123456789abcdef0123")) 5
              (ContentExtraction.sampleFile 6) (lit "text") worker None None
              (loadFromStorage None))).
  vm_compute. constructor; [intros []|constructor].
Defined.

(** ** Eviction *)

Lemma Permutation_insertSorted (x : jsstring * CacheEntry)
  (l : list (jsstring * CacheEntry)) :
  Permutation (insertSorted x l) (x :: l).
Proof.
  induction l as [|y l IH]; simpl.
  - apply Permutation_refl.
  - destruct (compareUsage (snd x) (snd y) <=? 0).
    + apply Permutation_refl.
    + apply Permutation_trans with (y :: x :: l).
      * apply perm_skip. exact IH.
      * apply perm_swap.
Qed.

Lemma Permutation_sortByUsage (l : list (jsstring * CacheEntry)) :
  Permutation (sortByUsage l) l.
Proof.
  induction l as [|x l IH]; simpl.
  - apply Permutation_refl.
  - apply Permutation_trans with (x :: sortByUsage l).
    + apply Permutation_insertSorted.
    + apply perm_skip. exact IH.
Qed.

Lemma In_keys_delete_other (m : JsMap.t CacheEntry) (key k : jsstring) :
  k <> key -> In k (JsMap.keys m) -> In k (JsMap.keys (JsMap.delete m key)).
Proof.
  unfold JsMap.keys. intros Hne. induction m as [|[k0 y] m IH]; simpl; intro H.
  - contradiction.
  - destruct (Js.eqb k0 key) eqn:E.
    + apply eqb_true_iff in E. subst k0.
      destruct H as [H|H]; [congruence|exact H].
    + simpl. destruct H as [H|H]; [left; exact H|right; exact (IH H)].
Qed.

Lemma skipn_nth_cons {A : Type} (l : list A) (i : nat) (x : A) :
  nth_error l i = Some x -> skipn i l = x :: skipn (S i) l.
Proof.
  revert l. induction i as [|i IH]; intros l H; destruct l; simpl in *;
    try discriminate.
  - injection H as ->. reflexivity.
  - apply IH. exact H.
Qed.

Lemma evictLoop_length (entries : list (jsstring * CacheEntry)) (count : nat) :
  forall (i : nat) (m : JsMap.t CacheEntry),
  NoDup (map fst (skipn i entries)) ->
  (forall e, In e (skipn i entries) -> In (fst e) (JsMap.keys m)) ->
  (i + count <= List.length entries)%nat ->
  exists m', evictLoop entries i count m = Some m'
             /\ (List.length m' + count = List.length m)%nat.
Proof.
  induction count as [|count IH]; intros i m Hnd Hin Hlen.
  - exists m. split; [reflexivity|lia].
  - rewrite evictLoop_S.
    destruct (nth_error entries i) as [[key e]|] eqn:E.
    + pose proof (skipn_nth_cons entries i (key, e) E) as Hs.
      rewrite Hs in Hnd, Hin. simpl in Hnd.
      inversion Hnd as [|? ? Hfresh Hnd']. subst.
      assert (Hkey : In key (JsMap.keys m)) by (apply (Hin (key, e)); left; reflexivity).
      destruct (IH (S i) (JsMap.delete m key)) as [m' [Hm' Hl]].
      * exact Hnd'.
      * intros e' He'. apply In_keys_delete_other.
        -- intro Heq. apply Hfresh. rewrite <- Heq. apply in_map. exact He'.
        -- apply Hin. right. exact He'.
      * lia.
      * exists m'. split; [exact Hm'|].
        pose proof (length_delete_present m key Hkey). lia.
    + apply nth_error_None in E. lia.
Qed.

(** X21: [evictLeastUsed] on a cache of [n >= 1] entries removes exactly
    [max(1, floor(n / 4))] of them (the keys of a [Map] are distinct),
    and leaves the hit and miss counters alone. *)
Theorem evictLeastUsed_count (c : t) :
  NoDup (JsMap.keys (cache c)) -> cache c <> [] ->
  exists c',
    evictLeastUsed c = Some c'
    /\ JsMap.size (cache c')
       = JsMap.size (cache c) - Z.max 1 (JsMap.size (cache c) / 4)
    /\ hits c' = hits c /\ misses c' = misses c.
Proof.
  intros Hnd Hne. unfold evictLeastUsed. cbv zeta.
  rewrite length_sortByUsage.
  assert (Hpos : (1 <= List.length (cache c))%nat)
    by (destruct (cache c); [congruence|simpl; lia]).
  assert (Hk : 1 <= Z.max 1 (Z.of_nat (List.length (cache c)) / 4)
               <= Z.of_nat (List.length (cache c))).
  { pose proof (Z.div_le_upper_bound (Z.of_nat (List.length (cache c))) 4
                  (Z.of_nat (List.length (cache c)))).
    assert (Z.of_nat (List.length (cache c)) / 4
            <= Z.of_nat (List.length (cache c))) by (apply H; lia).
    lia. }
  destruct (evictLoop_length (sortByUsage (cache c))
              (Z.to_nat (Z.max 1 (Z.of_nat (List.length (cache c)) / 4)))
              0%nat (cache c)) as [m' [Hm' Hl]].
  - simpl. apply (Permutation_NoDup (l := map fst (cache c))); [|exact Hnd].
    apply Permutation_map. apply Permutation_sym. apply Permutation_sortByUsage.
  - intros e He. simpl in He. apply (proj1 (In_sortByUsage _ _)) in He.
    unfold JsMap.keys. apply in_map. exact He.
  - rewrite length_sortByUsage. lia.
  - rewrite Hm'. simpl. eexists. split; [reflexivity|].
    simpl. unfold JsMap.size. repeat split; try reflexivity. lia.
Qed.

Lemma evictLeastUsed_count_witness :
  exists c',
    evictLeastUsed (set (fun _ => Some (lit "0123456789abcdef0123")) 5
                      (ContentExtraction.sampleFile 6) (lit "text") worker None
                      None (loadFromStorage None)) = Some c'
    /\ JsMap.size (cache c')
       = JsMap.size (cache (set (fun _ => Some (lit "0123456789abcdef0123")) 5
                              (ContentExtraction.sampleFile 6) (lit "text")
                              worker None None (loadFromStorage None)))
         - Z.max 1 (JsMap.size
                      (cache (set (fun _ => Some (lit "0123456789abcdef0123")) 5
                                (ContentExtraction.sampleFile 6) (lit "text")
                                worker None None (loadFromStorage None))) / 4)
    /\ hits c' = hits (set (fun _ => Some (lit "0123456789abcdef0123")) 5
                         (ContentExtraction.sampleFile 6) (lit "text") worker
                         None None (loadFromStorage None))
    /\ misses c' = misses (set (fun _ => Some (lit "0123456789abcdef0123")) 5
                             (ContentExtraction.sampleFile 6) (lit "text") worker
                             None None (loadFromStorage None)).
Proof.
  apply (evictLeastUsed_count
           (set (fun _ => Some (lit "0123456789abcdef0123")) 5
              (ContentExtraction.sampleFile 6) (lit "text") worker None None
              (loadFromStorage None))).
  - vm_compute. constructor; [intros []|constructor].
  - vm_compute. discriminate.
Defined.

(** A text longer than the whole cache budget (100 MB of
    characters) offered to an empty cache is not stored: [ensureSpace]
    asks for an eviction, [evictLeastUsed] throws on the empty entry list,
    and [set] swallows the error - the cache and [localStorage] stay as
    they were. *)
Theorem set_oversize_on_empty (digest : list N -> option jsstring) (now : Z)
  (f : File) (content0 : jsstring) (method : ProcessingMethod)
  (time : option Qc) (meta : option Metadata) (c : t) :
  cache c = [] -> maxSizeBytes < len content0 ->
  set digest now f content0 method time meta c = c.
Proof.
  intros Hempty Hbig. unfold set.
  destruct (generateFileHash digest f); [|reflexivity].
  unfold ensureSpace. cbv zeta.
  rewrite (getCurrentSize_empty c Hempty).
  apply Z.ltb_lt in Hbig. rewrite Z.add_0_l, Hbig, orb_true_r.
  unfold evictLeastUsed. rewrite Hempty. reflexivity.
Qed.

End FileCacheFacts.

(* ================================================================== *)
(** * Properties of the chunked processor and the worker *)
(* ================================================================== *)

Module ProcessorFacts.

Import JsFacts Files PdfJs.

Lemma pagesFromTo_empty (a b : Z) : b < a -> pagesFromTo a b = [].
Proof.
  intro H. unfold pagesFromTo.
  replace (Z.to_nat (b - a + 1)) with 0%nat by lia. reflexivity.
Qed.

Lemma seq_offset (a n : nat) : seq a n = map (Nat.add a) (seq 0 n).
Proof.
  revert a. induction n as [|n IH]; intro a; simpl.
  - reflexivity.
  - rewrite Nat.add_0_r. f_equal.
    rewrite (IH (S a)), <- seq_shift, map_map.
    apply map_ext. intro i. lia.
Qed.

Lemma pagesFromTo_app (a b c : Z) :
  a <= b + 1 -> b <= c ->
  pagesFromTo a b ++ pagesFromTo (b + 1) c = pagesFromTo a c.
Proof.
  intros Hab Hbc. unfold pagesFromTo.
  replace (Z.to_nat (c - a + 1))
    with (Z.to_nat (b - a + 1) + Z.to_nat (c - (b + 1) + 1))%nat by lia.
  rewrite seq_app, map_app. f_equal.
  rewrite Nat.add_0_l, (seq_offset (Z.to_nat (b - a + 1))), map_map.
  apply map_ext. intro i. lia.
Qed.

Lemma fold_sum_len (l : list jsstring) (a : Z) :
  fold_left (fun sum c => sum + len c) l a = a + len (List.concat l).
Proof.
  revert a. induction l as [|c l IH]; intro a; simpl.
  - unfold len. simpl. lia.
  - rewrite IH, len_app. lia.
Qed.

Lemma concat_snoc (l : list jsstring) (x : jsstring) :
  List.concat (l ++ [x]) = List.concat l ++ x.
Proof. rewrite concat_app. simpl. rewrite app_nil_r. reflexivity. Qed.

(** ** [ChunkedFileProcessor] *)

Import ChunkedFileProcessor.

(** The chunk loop appends, for each chunk index, the pages of its range. *)
Lemma chunkLoop_spec (pdf : PdfDocument) (P n M : Z) (indexes : list Z) :
  forall (cc : list jsstring) (mem : Z) (io : list Io),
  0 <= mem <= 2 * len (List.concat cc) ->
  let r := chunkLoop pdf P n M indexes cc mem io in
  List.concat (fst (fst r))
  = List.concat cc
    ++ List.concat (map (pageResult pdf)
         (List.concat (map (fun k => pagesFromTo (k * P + 1) (Z.min ((k + 1) * P) n))
                           indexes)))
  /\ snd r
     = io ++ map GetPage
         (List.concat (map (fun k => pagesFromTo (k * P + 1) (Z.min ((k + 1) * P) n))
                           indexes))
  /\ 0 <= snd (fst r) <= 2 * len (List.concat (fst (fst r))).
Proof.
  induction indexes as [|k rest IH]; intros cc mem io Hmem; cbv zeta.
  - simpl. rewrite !app_nil_r. auto.
  - cbn [chunkLoop]. unfold processPdfPageRange. cbv zeta.
    set (pages := pagesFromTo (k * P + 1) (Z.min ((k + 1) * P) n)).
    set (chunk := List.concat (map (pageResult pdf) pages)).
    set (mem1 := mem + len chunk * 2).
    set (mem2 := if M <? mem1
                 then fold_left (fun sum c => sum + len c) cc 0 * 2 else mem1).
    assert (Hmem2 : 0 <= mem2 <= 2 * len (List.concat (cc ++ [chunk]))).
    { rewrite concat_snoc, len_app. unfold mem2, mem1.
      pose proof (len_nonneg chunk). pose proof (len_nonneg (List.concat cc)).
      destruct (M <? mem + len chunk * 2); [rewrite fold_sum_len|]; lia. }
    specialize (IH (cc ++ [chunk]) mem2 (io ++ map GetPage pages) Hmem2).
    cbv zeta in IH. destruct IH as [I1 [I2 I3]].
    split; [|split].
    + etransitivity; [exact I1|]. rewrite concat_snoc. cbn [map List.concat].
      rewrite map_app, concat_app, <- app_assoc. reflexivity.
    + etransitivity; [exact I2|]. cbn [map List.concat].
      rewrite map_app, <- app_assoc. reflexivity.
    + exact I3.
Qed.

(** Consecutive ranges of [P] pages cover the pages [1..n]. *)
Lemma ranges_cover (P n : Z) (j : nat) :
  1 <= P -> 0 <= n -> (Z.of_nat j - 1) * P < n \/ j = 0%nat ->
  List.concat (map (fun k => pagesFromTo (k * P + 1) (Z.min ((k + 1) * P) n))
                   (map Z.of_nat (seq 0 j)))
  = pagesFromTo 1 (Z.min (Z.of_nat j * P) n).
Proof.
  intros HP Hn. induction j as [|j IH]; intro Hj.
  - simpl. rewrite pagesFromTo_empty; [reflexivity|lia].
  - rewrite seq_S, !map_app, concat_app. cbn [map List.concat].
    rewrite app_nil_r, Nat.add_0_l.
    assert (Hlt : Z.of_nat j * P < n) by lia.
    rewrite IH.
    + rewrite Z.min_l by lia.
      replace ((Z.of_nat j + 1) * P) with (Z.of_nat (S j) * P) by lia.
      apply pagesFromTo_app; nia.
    + destruct j; [right; reflexivity|left; nia].
Qed.

(** X20: once the document has loaded, [processPdfInChunks] answers with
    the page blocks of pages 1 to [numPages], each page once and in
    order, whatever the grouping into chunks of 10; the pages are
    requested in that order too; a page that cannot be read contributes
    its error block and does not fail the call; and the chunk count is
    [ceil(numPages / 10)]. *)
Theorem processPdfInChunks_pages (getDocument : list N -> Outcome PdfDocument)
  (startTime0 endTime0 : Qc) (maxMemoryUsage : Z) (f : File) (pdf : PdfDocument) :
  size f <= MAX_FILE_SIZE ->
  getDocument (bytes f) = Resolved pdf ->
  0 <= numPages pdf ->
  exists result,
    processPdfInChunks getDocument startTime0 endTime0 maxMemoryUsage f
    = (Resolved result,
       [ReadFile; LoadDocument] ++ map GetPage (pagesFromTo 1 (numPages pdf)))
    /\ content result
       = List.concat (map (pageResult pdf) (pagesFromTo 1 (numPages pdf)))
    /\ totalChunks result = (numPages pdf + 9) / 10
    /\ 0 <= memoryUsed result <= 2 * len (content result).
Proof.
  intros Hsize Hdoc Hn. unfold processPdfInChunks.
  destruct (Z.ltb_spec MAX_FILE_SIZE (size f)); [lia|].
  rewrite Hdoc. cbv zeta.
  change (Z.max 1 10) with 10. change (10 - 1) with 9.
  set (K := (numPages pdf + 10 - 1) / 10).
  assert (HK : (K - 1) * 10 < numPages pdf <= K * 10).
  { unfold K. pose proof (Z.div_mod (numPages pdf + 10 - 1) 10).
    pose proof (Z.mod_pos_bound (numPages pdf + 10 - 1) 10). lia. }
  pose proof (chunkLoop_spec pdf 10 (numPages pdf) maxMemoryUsage
                (map Z.of_nat (seq 0 (Z.to_nat K))) [] 0 [ReadFile; LoadDocument])
    as L.
  cbv zeta in L.
  destruct (chunkLoop pdf 10 (numPages pdf) maxMemoryUsage
              (map Z.of_nat (seq 0 (Z.to_nat K))) [] 0 [ReadFile; LoadDocument])
    as [[cc mem] io].
  cbn [fst snd] in L. destruct L as [L1 [L2 L3]].
  { simpl. unfold len. simpl. lia. }
  assert (Hcover :
    List.concat (map (fun k => pagesFromTo (k * 10 + 1)
                                 (Z.min ((k + 1) * 10) (numPages pdf)))
                     (map Z.of_nat (seq 0 (Z.to_nat K))))
    = pagesFromTo 1 (numPages pdf)).
  { rewrite ranges_cover; [|lia|lia|].
    - f_equal. lia.
    - destruct (Z.to_nat K) eqn:E; [right; reflexivity|left; lia]. }
  rewrite Hcover in L1, L2. simpl in L1.
  eexists. split; [rewrite L2; reflexivity|].
  cbn [content totalChunks memoryUsed].
  split; [exact L1|]. split; [unfold K; f_equal; lia|exact L3].
Qed.

Lemma processPdfInChunks_pages_witness :
  exists result,
    processPdfInChunks (fun _ => Resolved ContentExtraction.textPdf) 0 1
      DEFAULT_MAX_MEMORY (ContentExtraction.sampleFile 12)
    = (Resolved result,
       [ReadFile; LoadDocument]
         ++ map GetPage (pagesFromTo 1 (numPages ContentExtraction.textPdf)))
    /\ content result
       = List.concat (map (pageResult ContentExtraction.textPdf)
                        (pagesFromTo 1 (numPages ContentExtraction.textPdf)))
    /\ totalChunks result = (numPages ContentExtraction.textPdf + 9) / 10
    /\ 0 <= memoryUsed result <= 2 * len (content result).
Proof.
  apply (processPdfInChunks_pages (fun _ => Resolved ContentExtraction.textPdf)
           0 1 DEFAULT_MAX_MEMORY (ContentExtraction.sampleFile 12)
           ContentExtraction.textPdf).
  - discriminate.
  - reflexivity.
  - discriminate.
Defined.

(** A file that [canProcessSafely] accepts is never turned away by
    the size check of [processPdfInChunks]: the call goes on to read the
    file and load the document, so its call log is not empty. *)
Theorem safe_file_passes_size_check (getDocument : list N -> Outcome PdfDocument)
  (startTime0 endTime0 : Qc) (maxMemoryUsage availableMemory : Z) (f : File) :
  canProcessSafely f availableMemory = true ->
  snd (processPdfInChunks getDocument startTime0 endTime0 maxMemoryUsage f) <> [].
Proof.
  intro H. unfold canProcessSafely in H. cbv zeta in H.
  apply andb_prop in H. destruct H as [_ H]. apply Z.leb_le in H.
  unfold processPdfInChunks.
  destruct (Z.ltb_spec MAX_FILE_SIZE (size f)); [lia|].
  destruct (getDocument (bytes f)) as [pdf|e]; [|discriminate].
  cbv zeta.
  pose proof (chunkLoop_spec pdf (Z.max 1 10) (numPages pdf) maxMemoryUsage
                (map Z.of_nat (seq 0 (Z.to_nat
                   ((numPages pdf + Z.max 1 10 - 1) / Z.max 1 10))))
                [] 0 [ReadFile; LoadDocument]) as L.
  cbv zeta in L.
  destruct (chunkLoop pdf (Z.max 1 10) (numPages pdf) maxMemoryUsage _ [] 0
              [ReadFile; LoadDocument]) as [[cc mem] io].
  cbn [fst snd] in *. destruct L as [_ [L2 _]].
  { simpl. unfold len. simpl. lia. }
  rewrite L2. discriminate.
Qed.

(** ** The worker *)

Lemma worker_chunkLoop_spec (pdf : PdfDocument) (cs n : Z) (fuel : nat) :
  forall startPage,
  1 <= cs -> 1 <= startPage ->
  (Z.to_nat (n - startPage + 1) <= fuel)%nat ->
  exists chunks,
    FileProcessorWorker.chunkLoop fuel pdf cs n startPage
    = Some (chunks, map GetPage (pagesFromTo startPage n))
    /\ List.concat chunks
       = List.concat (map (FileProcessorWorker.pageResult pdf)
                        (pagesFromTo startPage n)).
Proof.
  induction fuel as [|fuel IH]; intros startPage Hcs Hstart Hfuel.
  - simpl. destruct (Z.leb_spec startPage n); [lia|].
    exists []. rewrite pagesFromTo_empty by lia. auto.
  - cbn [FileProcessorWorker.chunkLoop].
    destruct (Z.leb_spec startPage n) as [Hle|Hgt].
    + cbv zeta.
      set (endPage := Z.min (startPage + cs - 1) n).
      destruct (IH (startPage + cs)) as [chunks [Hloop Hcat]]; [lia|lia|lia|].
      rewrite Hloop. cbn [option_map fst snd].
      assert (Hsplit : pagesFromTo startPage endPage
                       ++ pagesFromTo (startPage + cs) n
                       = pagesFromTo startPage n).
      { unfold endPage. destruct (Z.le_ge_cases (startPage + cs - 1) n).
        - rewrite Z.min_l by lia.
          rewrite <- (pagesFromTo_app startPage (startPage + cs - 1) n) by lia.
          do 2 f_equal. lia.
        - rewrite Z.min_r by lia.
          rewrite (pagesFromTo_empty (startPage + cs) n) by lia.
          apply app_nil_r. }
      eexists. split.
      * rewrite <- map_app, Hsplit. reflexivity.
      * cbn [List.concat]. rewrite Hcat, <- concat_app, <- map_app, Hsplit.
        reflexivity.
    + exists []. rewrite pagesFromTo_empty by lia. auto.
Qed.

(** X22: the worker reads pages 1 to [min(numPages, maxPages)] and
    nothing beyond: for every chunk size of at least one, the content is
    the page blocks of exactly these pages, each once and in order, and
    [totalPages] is that minimum - pages past [maxPages] are left out
    without notice, and the chunk size has no effect on the content. *)
Theorem worker_reads_capped_pages (getDocument : list N -> Outcome PdfDocument)
  (fileData : list N) (fileName0 : jsstring) (cs mp : Z) (pdf : PdfDocument) :
  getDocument fileData = Resolved pdf ->
  1 <= cs ->
  FileProcessorWorker.processPdfInWorker getDocument fileData fileName0
    {| FileProcessorWorker.chunkSize := Some cs;
       FileProcessorWorker.maxPages := Some mp |}
  = Some (inl {| FileProcessorWorker.content :=
                   List.concat (map (FileProcessorWorker.pageResult pdf)
                                  (pagesFromTo 1 (Z.min (numPages pdf) mp)));
                 FileProcessorWorker.totalPages := Z.min (numPages pdf) mp;
                 FileProcessorWorker.fileName := fileName0 |},
          LoadDocument :: map GetPage (pagesFromTo 1 (Z.min (numPages pdf) mp))).
Proof.
  intros Hdoc Hcs. unfold FileProcessorWorker.processPdfInWorker.
  cbn [FileProcessorWorker.chunkSize FileProcessorWorker.maxPages].
  rewrite Hdoc. cbv zeta.
  destruct (worker_chunkLoop_spec pdf cs (Z.min (numPages pdf) mp)
              (Z.to_nat (Z.min (numPages pdf) mp)) 1 Hcs)
    as [chunks [Hloop Hcat]]; [lia|lia|].
  rewrite Hloop. cbn [option_map fst snd]. rewrite Hcat. reflexivity.
Qed.

Lemma worker_reads_capped_pages_witness :
  FileProcessorWorker.processPdfInWorker
    (fun _ => Resolved ContentExtraction.textPdf) [] (lit "a.pdf")
    {| FileProcessorWorker.chunkSize := Some 3;
       FileProcessorWorker.maxPages := Some 500 |}
  = Some (inl {| FileProcessorWorker.content :=
                   List.concat
                     (map (FileProcessorWorker.pageResult ContentExtraction.textPdf)
                        (pagesFromTo 1
                           (Z.min (numPages ContentExtraction.textPdf) 500)));
                 FileProcessorWorker.totalPages :=
                   Z.min (numPages ContentExtraction.textPdf) 500;
                 FileProcessorWorker.fileName := lit "a.pdf" |},
          LoadDocument
            :: map GetPage
                 (pagesFromTo 1 (Z.min (numPages ContentExtraction.textPdf) 500))).
Proof.
  apply (worker_reads_capped_pages (fun _ => Resolved ContentExtraction.textPdf)
           [] (lit "a.pdf") 3 500 ContentExtraction.textPdf).
  - reflexivity.
  - discriminate.
Defined.

(** With a chunk size of at least one the worker always answers. *)
Lemma processPdfInWorker_answers (getDocument : list N -> Outcome PdfDocument)
  (fileData : list N) (fileName0 : jsstring) (cs mp : Z) :
  1 <= cs ->
  exists r,
    FileProcessorWorker.processPdfInWorker getDocument fileData fileName0
      {| FileProcessorWorker.chunkSize := Some cs;
         FileProcessorWorker.maxPages := Some mp |} = Some r.
Proof.
  intro Hcs. unfold FileProcessorWorker.processPdfInWorker.
  cbn [FileProcessorWorker.chunkSize FileProcessorWorker.maxPages].
  destruct (getDocument fileData) as [pdf|e]; [|eexists; reflexivity].
  cbv zeta.
  destruct (worker_chunkLoop_spec pdf cs (Z.min (numPages pdf) mp)
              (Z.to_nat (Z.min (numPages pdf) mp)) 1 Hcs)
    as [chunks [Hloop _]]; [lia|lia|].
  rewrite Hloop. eexists. reflexivity.
Qed.

End ProcessorFacts.

(* ================================================================== *)
(** * Properties of the extraction pipeline *)
(* ================================================================== *)

Module ExtractionFacts.

Import JsFacts JsMapFacts FileCacheFacts ProcessorFacts Files PdfJs ContentExtraction.

(** ** The size cap of the chunked processor *)

(** C6: a file whose reported size exceeds [MAX_FILE_SIZE] (500 MB) is
    rejected by [processPdfInChunks] with the error
    ['File too large. Maximum size is 500MB'], and no call has been made by
    then: the file is not read, no document is loaded, no page is
    requested. *)
Theorem processPdfInChunks_rejects_oversize
  (getDocument : list N -> Outcome PdfDocument) (startTime0 endTime0 : Qc)
  (maxMemoryUsage : Z) (f : File) :
  ChunkedFileProcessor.MAX_FILE_SIZE < size f ->
  ChunkedFileProcessor.processPdfInChunks getDocument startTime0 endTime0
    maxMemoryUsage f
  = (Rejected (ErrorObject (lit "File too large. Maximum size is 500MB")), []).
Proof.
  intro H. unfold ChunkedFileProcessor.processPdfInChunks.
  apply Z.ltb_lt in H. rewrite H. reflexivity.
Qed.

Lemma processPdfInChunks_rejects_oversize_witness :
  ChunkedFileProcessor.processPdfInChunks (fun _ => Resolved textPdf) 0 1
    ChunkedFileProcessor.DEFAULT_MAX_MEMORY (sampleFile 600)
  = (Rejected (ErrorObject (lit "File too large. Maximum size is 500MB")), []).
Proof.
  apply (processPdfInChunks_rejects_oversize (fun _ => Resolved textPdf) 0 1
           ChunkedFileProcessor.DEFAULT_MAX_MEMORY (sampleFile 600)).
  reflexivity.
Defined.

(** ** Pages without text *)

(** C5 fails for the chunked and the worker strategy: on a page whose
    text is the two characters ['ab'], with an OCR engine that would read
    ['Recovered text'], the direct loop emits the OCR block, while
    [processPdfPageRange] and [processPdfInWorker] emit the plain page
    block with ['ab'] and never ask for recognition. *)
Theorem short_page_ocr_only_direct :
  directPage (sampleEnv scannedPdf) scannedPdf 1
  = (NL ++ NL ++ lit "--- Page 1 (OCR) ---" ++ NL ++ lit "Recovered text",
     [GetPage 1; Recognize 1])
  /\ ChunkedFileProcessor.processPdfPageRange scannedPdf 1 1
     = (NL ++ NL ++ lit "--- Page 1 ---" ++ NL ++ lit "ab", [GetPage 1])
  /\ FileProcessorWorker.processPdfInWorker (fun _ => Resolved scannedPdf)
       [37; 80; 68; 70]%N (lit "a.pdf")
       {| FileProcessorWorker.chunkSize := Some 3;
          FileProcessorWorker.maxPages := Some 500 |}
     = Some (inl {| FileProcessorWorker.content :=
                      NL ++ NL ++ lit "--- Page 1 ---" ++ NL ++ lit "ab";
                    FileProcessorWorker.totalPages := 1;
                    FileProcessorWorker.fileName := lit "a.pdf" |},
             [LoadDocument; GetPage 1]).
Proof. repeat split; reflexivity. Qed.

(** ** The cache and the direct path *)

(** C7 fails for files of at most 5 MB: a 2 MB file is cacheable, yet
    [extractFromPDF] processes it on the direct path, which never calls
    [fileCache.set].  After a first successful call (one read of the file
    to hash it for the lookup, then the read, load and page request of the
    direct path) the cache holds no entry, and the second call on the same
    file misses again, loads the document and requests its page once
    more. *)
Theorem small_file_never_cached :
  FileCache.shouldCache (sampleFile 2) = true
  /\ fst (extractFromPDF (sampleEnv textPdf) (sampleFile 2) emptyWorld)
     = Resolved (fileSource (sampleEnv textPdf) (sampleFile 2)
                   (lit "--- Page 1 ---" ++ NL ++ lit "Hello world")
                   (lit "blob:1") false)
  /\ FileCache.cache
       (fileCache (snd (extractFromPDF (sampleEnv textPdf) (sampleFile 2) emptyWorld)))
     = []
  /\ io (snd (extractFromPDF (sampleEnv textPdf) (sampleFile 2) emptyWorld))
     = [ReadFile; ReadFile; LoadDocument; GetPage 1]
  /\ io (snd (extractFromPDF (sampleEnv textPdf) (sampleFile 2)
                (snd (extractFromPDF (sampleEnv textPdf) (sampleFile 2) emptyWorld))))
     = [ReadFile; ReadFile; LoadDocument; GetPage 1;
        ReadFile; ReadFile; LoadDocument; GetPage 1]
  /\ FileCache.misses
       (fileCache (snd (extractFromPDF (sampleEnv textPdf) (sampleFile 2)
                (snd (extractFromPDF (sampleEnv textPdf) (sampleFile 2) emptyWorld)))))
     = 2.
Proof. repeat split; reflexivity. Qed.

(** ** The direct loop and OCR *)

(** X23: in the direct loop a page whose trimmed text has fewer than 5
    characters is sent to OCR, and when the recognised text is not blank
    the page's output is the block ['--- Page N (OCR) ---'] followed by the
    trimmed recognised text. *)
Theorem directPage_ocr_contract (env : Env) (pdf0 : PdfDocument) (pageNum : Z)
  (items : list jsstring) (recognized : jsstring) :
  pageItems pdf0 pageNum = Some items ->
  len (trim (join (lit " ") items)) < 5 ->
  recognize env pageNum = Some recognized ->
  0 < len (trim recognized) ->
  directPage env pdf0 pageNum
  = (ocrBlock pageNum (trim recognized), [GetPage pageNum; Recognize pageNum]).
Proof.
  intros Hitems Hshort Hocr Htext. unfold directPage. rewrite Hitems. cbv zeta.
  apply Z.ltb_lt in Hshort. rewrite Hshort, orb_true_r, Hocr.
  assert (E : Js.eqb (trim recognized) [] = false).
  { apply eqb_false_iff. intro H. rewrite H in Htext. discriminate. }
  apply Z.ltb_lt in Htext. rewrite E, Htext. reflexivity.
Qed.

Lemma directPage_ocr_contract_witness :
  directPage (sampleEnv scannedPdf) scannedPdf 1
  = (ocrBlock 1 (trim (lit "Recovered text")), [GetPage 1; Recognize 1]).
Proof.
  apply (directPage_ocr_contract (sampleEnv scannedPdf) scannedPdf 1
           [lit "ab"] (lit "Recovered text")); reflexivity.
Defined.

(** X24: in the direct loop a page that needs OCR but for which
    recognition gives nothing - it fails, or reads only white space -
    gets the error block, and the loop goes on. *)
Theorem directPage_ocr_blank (env : Env) (pdf0 : PdfDocument) (pageNum : Z)
  (items : list jsstring) :
  pageItems pdf0 pageNum = Some items ->
  len (trim (join (lit " ") items)) < 5 ->
  match recognize env pageNum with
  | Some recognized => trim recognized = []
  | None => True
  end ->
  directPage env pdf0 pageNum
  = (errorBlock pageNum, [GetPage pageNum; Recognize pageNum]).
Proof.
  intros Hitems Hshort Hocr. unfold directPage. rewrite Hitems. cbv zeta.
  apply Z.ltb_lt in Hshort. rewrite Hshort, orb_true_r.
  destruct (recognize env pageNum) as [recognized|].
  - rewrite Hocr. reflexivity.
  - reflexivity.
Qed.

Lemma directPage_ocr_blank_witness :
  directPage (failingEnv (lit "x")) scannedPdf 1
  = (errorBlock 1, [GetPage 1; Recognize 1]).
Proof.
  apply (directPage_ocr_blank (failingEnv (lit "x")) scannedPdf 1 [lit "ab"]).
  - reflexivity.
  - reflexivity.
  - exact I.
Defined.

(** X29: on a page whose trimmed text has at least 5 characters the
    three strategies differ by trimming only: the direct loop and the
    worker both emit the page block with the trimmed text, the chunked
    processor emits it with the text as joined, and none of them asks for
    OCR. *)
Theorem strategies_on_text_pages (env : Env) (pdf0 : PdfDocument) (pageNum : Z)
  (items : list jsstring) :
  pageItems pdf0 pageNum = Some items ->
  5 <= len (trim (join (lit " ") items)) ->
  directPage env pdf0 pageNum
  = (pageBlock pageNum (trim (join (lit " ") items)), [GetPage pageNum])
  /\ FileProcessorWorker.pageResult pdf0 pageNum
     = pageBlock pageNum (trim (join (lit " ") items))
  /\ ChunkedFileProcessor.pageResult pdf0 pageNum
     = pageBlock pageNum (join (lit " ") items).
Proof.
  intros Hitems Hlong.
  unfold directPage, FileProcessorWorker.pageResult,
    ChunkedFileProcessor.pageResult.
  rewrite Hitems. cbv zeta.
  assert (E : Js.eqb (trim (join (lit " ") items)) [] = false).
  { apply eqb_false_iff. intro H. rewrite H in Hlong. apply Hlong. reflexivity. }
  rewrite E. destruct (Z.ltb_spec (len (trim (join (lit " ") items))) 5); [lia|].
  repeat split; reflexivity.
Qed.

Lemma strategies_on_text_pages_witness :
  directPage (sampleEnv textPdf) textPdf 1
  = (pageBlock 1 (trim (join (lit " ") [lit "Hello"; lit "world"])), [GetPage 1]).
Proof.
  apply (strategies_on_text_pages (sampleEnv textPdf) textPdf 1
           [lit "Hello"; lit "world"]).
  - reflexivity.
  - discriminate.
Defined.

(** ** The cache in [extractFromPDF] *)

Lemma extractFromPDF_hit (env : Env) (f : File) (w : World) (key : jsstring)
  (entry : FileCache.CacheEntry) :
  FileCache.shouldCache f = true ->
  FileCache.keyOf (digest env) f = Some key ->
  JsMap.get (FileCache.cache (fileCache w)) key = Some entry ->
  extractFromPDF env f w
  = (Resolved (fileSource env f (FileCache.content entry) (objectURL env) true),
     {| fileCache :=
          {| FileCache.cache :=
               JsMap.set (FileCache.cache (fileCache w)) key
                 (FileCache.touched (now env) entry);
             FileCache.hits := FileCache.hits (fileCache w) + 1;
             FileCache.misses := FileCache.misses (fileCache w);
             FileCache.storage := FileCache.storage (fileCache w) |};
        blobUrls := BlobUrlManager.register (objectURL env) (blobUrls w);
        io := io w ++ [ReadFile] |}).
Proof.
  intros Hc Hk Hg. unfold extractFromPDF. rewrite Hc.
  rewrite (get_hit (digest env) (now env) f (fileCache w) key entry Hk Hg).
  reflexivity.
Qed.

(** X25: a cache hit short-circuits [extractFromPDF].  When the cache
    holds an entry under the file's key, the call returns that entry's
    text; it reads the file once, to hash it for the lookup, and makes no
    call on pdf.js (no document is loaded, no page requested); it
    registers the object URL, and changes in the cache only the entry's
    access count and last-access time and the hit counter. *)
Theorem extractFromPDF_cache_hit (env : Env) (f : File) (w : World) (key : jsstring)
  (entry : FileCache.CacheEntry) :
  FileCache.shouldCache f = true ->
  FileCache.keyOf (digest env) f = Some key ->
  JsMap.get (FileCache.cache (fileCache w)) key = Some entry ->
  extractFromPDF env f w
  = (Resolved (fileSource env f (FileCache.content entry) (objectURL env) true),
     {| fileCache :=
          {| FileCache.cache :=
               JsMap.set (FileCache.cache (fileCache w)) key
                 (FileCache.touched (now env) entry);
             FileCache.hits := FileCache.hits (fileCache w) + 1;
             FileCache.misses := FileCache.misses (fileCache w);
             FileCache.storage := FileCache.storage (fileCache w) |};
        blobUrls := BlobUrlManager.register (objectURL env) (blobUrls w);
        io := io w ++ [ReadFile] |}).
Proof. apply extractFromPDF_hit. Qed.

(** The worker call of [extractFromPDF] always gets an answer. *)
Lemma workerCall_runs (env : Env) (f : File) :
  exists r,
    FileProcessorWorker.processPdfWithWorker (workerSupported env)
      (workerDocument env) f
      {| FileProcessorWorker.chunkSize := Some 3;
         FileProcessorWorker.maxPages := Some 500 |} = Some r.
Proof.
  unfold FileProcessorWorker.processPdfWithWorker.
  destruct (negb (workerSupported env)); [eexists; reflexivity|].
  destruct (processPdfInWorker_answers (workerDocument env) (bytes f) (name f)
              3 500) as [r Hr]; [lia|].
  rewrite Hr. eexists. reflexivity.
Qed.

(** The strategy flags of lines 188-192 reduce to one comparison. *)
Lemma preferWorker_eq (f : File) :
  ((25 * MB <? size f) || ((10 * MB <? size f) && (size f <=? 25 * MB))
   || FileProcessorWorker.shouldUseWorker f || (10 * MB <=? size f))
  = (5 * MB <? size f).
Proof.
  unfold FileProcessorWorker.shouldUseWorker, MB.
  destruct (Z.ltb_spec (25 * (1024 * 1024)) (size f));
  destruct (Z.ltb_spec (10 * (1024 * 1024)) (size f));
  destruct (Z.leb_spec (size f) (25 * (1024 * 1024)));
  destruct (Z.ltb_spec (5 * (1024 * 1024)) (size f));
  destruct (Z.leb_spec (10 * (1024 * 1024)) (size f));
  simpl; try reflexivity; lia.
Qed.

Lemma extractUncached_small (env : Env) (f : File) (w : World) :
  size f <= 5 * MB ->
  extractUncached env f w = extractDirect env f (registerUrl (objectURL env) w).
Proof.
  intro H. unfold extractUncached. cbv zeta.
  rewrite preferWorker_eq.
  destruct (Z.ltb_spec (5 * MB) (size f)); [lia|].
  assert (E1 : (10 * MB <? size f) = false) by (apply Z.ltb_ge; unfold MB in *; lia).
  assert (E2 : (25 * MB <? size f) = false) by (apply Z.ltb_ge; unfold MB in *; lia).
  rewrite E1, E2. reflexivity.
Qed.

Lemma extractUncached_large (env : Env) (f : File) (w : World) :
  5 * MB < size f ->
  extractUncached env f w
  = match fst (workerCall env f) with
    | Resolved result =>
        (Resolved (fileSource env f (FileProcessorWorker.resultContent result)
                     (objectURL env) true),
         cacheResult env f (FileProcessorWorker.resultContent result)
           FileCache.worker (FileProcessorWorker.resultProcessingTime result)
           {| FileCache.totalPages := FileProcessorWorker.resultTotalPages result;
              FileCache.extractedImages := None;
              FileCache.fileType := Some (Files.type f) |}
           (addIo (snd (workerCall env f)) (registerUrl (objectURL env) w)))
    | Rejected _ =>
        extractChunked env f
          (addIo (snd (workerCall env f)) (registerUrl (objectURL env) w))
    end.
Proof.
  intro H. unfold extractUncached. cbv zeta.
  rewrite preferWorker_eq.
  destruct (Z.ltb_spec (5 * MB) (size f)); [|lia].
  destruct (workerCall env f) as [r calls]. cbn [fst snd].
  destruct r; [reflexivity|].
  rewrite !orb_true_r. reflexivity.
Qed.

(** X26: which strategy [extractFromPDF] tries first depends on one
    threshold only.  A file of at most 5 MB goes straight to the direct
    path; a larger file goes to the worker first, and the chunked
    processor runs only after the worker has failed.  The 10 MB and 25 MB
    comparisons change nothing. *)
Theorem strategy_by_five_megabytes (env : Env) (f : File) (w : World) :
  extractUncached env f w
  = if 5 * MB <? size f then
      match fst (workerCall env f) with
      | Resolved result =>
          (Resolved (fileSource env f (FileProcessorWorker.resultContent result)
                       (objectURL env) true),
           cacheResult env f (FileProcessorWorker.resultContent result)
             FileCache.worker (FileProcessorWorker.resultProcessingTime result)
             {| FileCache.totalPages := FileProcessorWorker.resultTotalPages result;
                FileCache.extractedImages := None;
                FileCache.fileType := Some (Files.type f) |}
             (addIo (snd (workerCall env f)) (registerUrl (objectURL env) w)))
      | Rejected _ =>
          extractChunked env f
            (addIo (snd (workerCall env f)) (registerUrl (objectURL env) w))
      end
    else extractDirect env f (registerUrl (objectURL env) w).
Proof.
  destruct (Z.ltb_spec (5 * MB) (size f)).
  - apply extractUncached_large. assumption.
  - apply extractUncached_small. assumption.
Qed.

Lemma extractFromPDF_cache_hit_witness :
  fst (extractFromPDF (sampleEnv textPdf) (sampleFile 6)
         (snd (extractFromPDF (sampleEnv textPdf) (sampleFile 6) emptyWorld)))
  = Resolved (fileSource (sampleEnv textPdf) (sampleFile 6)
                (NL ++ NL ++ lit "--- Page 1 ---" ++ NL ++ lit "Hello world")
                (lit "blob:1") true)
  /\ io (snd (extractFromPDF (sampleEnv textPdf) (sampleFile 6)
                (snd (extractFromPDF (sampleEnv textPdf) (sampleFile 6) emptyWorld))))
     = io (snd (extractFromPDF (sampleEnv textPdf) (sampleFile 6) emptyWorld))
       ++ [ReadFile].
Proof.
  rewrite (extractFromPDF_cache_hit (sampleEnv textPdf) (sampleFile 6)
             (snd (extractFromPDF (sampleEnv textPdf) (sampleFile 6) emptyWorld))
             (FileCache.generateCacheKey (lit "a.pdf") (6 * MB)
                (lit "0123456789abcdef0123456789abcdef"))
             {| FileCache.id :=
                  FileCache.generateCacheKey (lit "a.pdf") (6 * MB)
                    (lit "0123456789abcdef0123456789abcdef");
                FileCache.fileName := lit "a.pdf";
                FileCache.fileSize := 6 * MB;
                FileCache.fileHash := lit "0123456789abcdef0123456789abcdef";
                FileCache.content :=
                  NL ++ NL ++ lit "--- Page 1 ---" ++ NL ++ lit "Hello world";
                FileCache.processingMethod := FileCache.worker;
                FileCache.processingTime := None;
                FileCache.timestamp := 1000;
                FileCache.accessCount := 1;
                FileCache.lastAccessed := 1000;
                FileCache.metadata :=
                  Some {| FileCache.totalPages := Some 1;
                          FileCache.extractedImages := None;
                          FileCache.fileType := Some (lit "application/pdf") |} |}
             eq_refl eq_refl eq_refl).
  split; reflexivity.
Defined.

Lemma extractFromPDF_miss (env : Env) (f : File) (w : World) (key : jsstring) :
  FileCache.shouldCache f = true ->
  FileCache.keyOf (digest env) f = Some key ->
  JsMap.get (FileCache.cache (fileCache w)) key = None ->
  extractFromPDF env f w
  = extractUncached env f
      {| fileCache :=
           {| FileCache.cache := FileCache.cache (fileCache w);
              FileCache.hits := FileCache.hits (fileCache w);
              FileCache.misses := FileCache.misses (fileCache w) + 1;
              FileCache.storage := FileCache.storage (fileCache w) |};
         blobUrls := blobUrls w; io := io w ++ [ReadFile] |}.
Proof.
  intros Hc Hk Hg. unfold extractFromPDF. rewrite Hc.
  rewrite (get_miss (digest env) (now env) f (fileCache w) key Hk Hg).
  reflexivity.
Qed.

(** X27: what the worker path stores is reused.  For a file between 5 MB
    and 50 MB on which the worker succeeds (with a text that fits the
    cache budget, and with the digest available), a second
    [extractFromPDF] call on the same file - at another time, with another
    object URL - returns the same text as the first.  The second call
    reads the file once, to hash it for the lookup, and makes no other
    call on the file and none on pdf.js. *)
Theorem cached_result_is_reused (env env2 : Env) (f : File) (w : World)
  (result : FileProcessorWorker.WorkerProcessingResult) (calls : list Io)
  (fileHash0 : jsstring) :
  5 * MB < size f <= 50 * MB ->
  digest env (bytes f) = Some fileHash0 ->
  digest env2 (bytes f) = Some fileHash0 ->
  workerCall env f = (Resolved result, calls) ->
  len (FileProcessorWorker.resultContent result) <= FileCache.maxSizeBytes ->
  exists text0,
    fst (extractFromPDF env f w)
    = Resolved (fileSource env f text0 (objectURL env) true)
    /\ fst (extractFromPDF env2 f (snd (extractFromPDF env f w)))
       = Resolved (fileSource env2 f text0 (objectURL env2) true)
    /\ io (snd (extractFromPDF env2 f (snd (extractFromPDF env f w))))
       = io (snd (extractFromPDF env f w)) ++ [ReadFile].
Proof.
  intros Hsize Hd Hd2 Hworker Hfit.
  assert (Hc : FileCache.shouldCache f = true).
  { unfold FileCache.shouldCache. unfold MB in *.
    apply andb_true_intro. split; apply Z.leb_le; lia. }
  pose proof (keyOf_some (digest env) f fileHash0 Hd) as Hk.
  pose proof (keyOf_some (digest env2) f fileHash0 Hd2) as Hk2.
  set (key := FileCache.generateCacheKey (name f) (size f) fileHash0) in *.
  destruct (JsMap.get (FileCache.cache (fileCache w)) key) as [entry|] eqn:G.
  - rewrite (extractFromPDF_hit env f w key entry Hc Hk G). cbn [fst snd].
    exists (FileCache.content entry). split; [reflexivity|].
    match goal with
    | |- context [extractFromPDF env2 f ?w1] =>
        rewrite (extractFromPDF_hit env2 f w1 key
                   (FileCache.touched (now env) entry) Hc Hk2
                   (get_set_same (FileCache.cache (fileCache w)) key
                      (FileCache.touched (now env) entry)))
    end.
    cbn [fst snd io]. split; reflexivity.
  - rewrite (extractFromPDF_miss env f w key Hc Hk G).
    rewrite extractUncached_large by lia.
    rewrite Hworker. cbn [fst snd].
    exists (FileProcessorWorker.resultContent result). split; [reflexivity|].
    unfold cacheResult. rewrite Hc.
    match goal with
    | |- context [extractFromPDF env2 f ?w1] =>
        rewrite (extractFromPDF_hit env2 f w1 key _ Hc Hk2
                   (set_stores (digest env) (now env) f _ _ _ _ _ fileHash0 Hd Hfit))
    end.
    cbn [fst snd io]. split; reflexivity.
Qed.

Lemma cached_result_is_reused_witness :
  exists text0,
    fst (extractFromPDF (sampleEnv textPdf) (sampleFile 6) emptyWorld)
    = Resolved (fileSource (sampleEnv textPdf) (sampleFile 6) text0
                  (objectURL (sampleEnv textPdf)) true)
    /\ fst (extractFromPDF (sampleEnv scannedPdf) (sampleFile 6)
              (snd (extractFromPDF (sampleEnv textPdf) (sampleFile 6) emptyWorld)))
       = Resolved (fileSource (sampleEnv scannedPdf) (sampleFile 6) text0
                     (objectURL (sampleEnv scannedPdf)) true)
    /\ io (snd (extractFromPDF (sampleEnv scannedPdf) (sampleFile 6)
                  (snd (extractFromPDF (sampleEnv textPdf) (sampleFile 6)
                          emptyWorld))))
       = io (snd (extractFromPDF (sampleEnv textPdf) (sampleFile 6) emptyWorld))
         ++ [ReadFile].
Proof.
  apply (cached_result_is_reused (sampleEnv textPdf) (sampleEnv scannedPdf)
           (sampleFile 6) emptyWorld
           (fst (match workerCall (sampleEnv textPdf) (sampleFile 6) with
                 | (Resolved r, _) => (r, tt)
                 | (Rejected _, _) =>
                     ({| FileProcessorWorker.resultContent := [];
                         FileProcessorWorker.resultTotalPages := None;
                         FileProcessorWorker.resultProcessingTime := None;
                         FileProcessorWorker.resultFileName := [] |}, tt)
                 end))
           (snd (workerCall (sampleEnv textPdf) (sampleFile 6)))
           (lit "0123456789abcdef0123456789abcdef")).
  - vm_compute. split; [reflexivity|discriminate].
  - reflexivity.
  - reflexivity.
  - reflexivity.
  - discriminate.
Defined.

(** ** Errors *)

Lemma classifyError_not_recovery (message original errorMessage : jsstring) :
  startsWith (classifyError message original errorMessage)
             (lit "Primary extraction failed") = false.
Proof.
  unfold classifyError.
  repeat match goal with
         | |- context [if ?b then _ else _] => destruct b
         end; reflexivity.
Qed.

(** X28: the message ['Primary extraction failed, recovery also failed:
    ...'] built when the recovery attempt fails is never what
    [extractFromPDF] throws: the classification chain that follows assigns
    a message in every branch, so the error reported is always the
    classification of the first error. *)
Theorem recovery_failure_message_lost (env : Env) (f : File) (err : Thrown)
  (w : World) (reported : jsstring) :
  fst (handleError env f err w) = Rejected (ErrorObject reported) ->
  startsWith reported (lit "Primary extraction failed") = false.
Proof.
  unfold handleError. cbv zeta. destruct err as [original|other].
  - destruct (includes (toLowerCase original) (lit "worker")
              || includes (toLowerCase original) (lit "memory")
              || includes (toLowerCase original) (lit "timeout")).
    + destruct (ChunkedFileProcessor.processPdfInChunks (recoveryDocument env)
                  (startTime env) (endTime env)
                  ChunkedFileProcessor.DEFAULT_MAX_MEMORY f) as [r calls].
      destruct r as [result|recoveryError]; cbn [fst]; intro H.
      * discriminate H.
      * injection H as <-. apply classifyError_not_recovery.
    + cbn [fst]. intro H. injection H as <-. apply classifyError_not_recovery.
  - cbn [fst]. intro H. injection H as <-. reflexivity.
Qed.

Lemma recovery_failure_message_lost_witness :
  fst (handleError (failingEnv (lit "Worker crashed")) (sampleFile 2)
         (ErrorObject (lit "Worker crashed")) emptyWorld)
  = Rejected (ErrorObject
      (lit "PDF processing engine failed to load. Please refresh the page and try again"))
  /\ startsWith
       (lit "PDF processing engine failed to load. Please refresh the page and try again")
       (lit "Primary extraction failed") = false.
Proof.
  split; [reflexivity|].
  apply (recovery_failure_message_lost (failingEnv (lit "Worker crashed"))
           (sampleFile 2) (ErrorObject (lit "Worker crashed")) emptyWorld).
  reflexivity.
Defined.

(** The retry loop of the direct path asks pdf.js at most three
    times: it takes the first loading task it gets, and when all three
    attempts throw it rethrows the third error. *)
Lemma direct_load_retries (env : Env) :
  fst (loadWithRetries env 3 1 3)
  = match directTask env 1, directTask env 2 with
    | Resolved loadingTask, _ => Resolved loadingTask
    | Rejected _, Resolved loadingTask => Resolved loadingTask
    | Rejected _, Rejected _ => directTask env 3
    end
  /\ (List.length (snd (loadWithRetries env 3 1 3)) <= 6)%nat.
Proof.
  cbn [loadWithRetries]. change (1 =? 3) with false. change (1 + 1) with 2.
  change (2 =? 3) with false. change (2 + 1) with 3. change (3 =? 3) with true.
  destruct (directTask env 1); [split; [reflexivity|simpl; lia]|].
  destruct (directTask env 2); [split; [reflexivity|simpl; lia]|].
  destruct (directTask env 3); split; try reflexivity; simpl; lia.
Qed.




End ExtractionFacts.
